(** * Signalling server (src/index.ts): rooms, meeting timer, relay

    A shallow embedding of the Socket.IO handlers of [src/index.ts]:
    the [chat], [join], [offer], [answer], [ice-candidate] and
    [disconnecting] handlers and the helper [broadcastParticipants],
    together with the module-level [rooms] table.

    The Socket.IO server object is modelled by its documented contract:
    every connection is a member of the room named by its own id;
    [socket.join] adds the connection to a room; [io.to(r).emit] reaches
    the connections that joined [r], and every connection when [r] is
    the empty array; [socket.to(r).emit] reaches the members of [r]
    except the sender; [socket.emit] reaches the sender only; the
    [disconnecting] event is dispatched while the connection is still a
    member of its rooms, which it leaves right afterwards.

    Strings are sequences of code units below 256.  A number is given
    by an integer literal and is the double nearest to it, which is what
    [String] prints.

    [rooms] is a plain object used as a map from room names to records.
    [rooms[k]] finds the properties the object has of its own, which are
    the records the join handler stores, and the ones it inherits from
    [Object.prototype]: [constructor], [toString], [__proto__] and so
    on.  For such a name the join handler creates no record and works
    on the inherited object, on which it writes [startedAt] and which
    has no [duration]; [__proto__] is [Object.prototype] itself, so
    that a [startedAt] written there is inherited by every object that
    has none of its own, and shows under the name [startedAt] too.
    What such a write does to the Socket.IO library is not modelled.

    A message comes with one argument, which the handler destructures:
    a field that is not there reads as [undefined], and an argument
    that is [undefined] or [null] makes the destructuring throw.
    Nothing catches what a handler throws, so that the process exits.
    [step] is the reaction to a message whose argument has been
    destructured; [receive] is the reaction to a message as it comes.

    Besides the handlers, the file covers the computation of
    [ALLOWED_ORIGINS] from [CORS_ORIGIN], and the [join], relay and
    [disconnecting] handlers of the repository's earlier source file,
    which have no room records and no timer. *)

From stdpp Require Import base gmap list strings pretty.

Open Scope string_scope.
Open Scope list_scope.
Open Scope stdpp_scope.

(** ** Values received from the wire *)

#[local] Unset Elimination Schemes.
Inductive jsval : Type :=
  | JUndefined
  | JNull
  | JBool (b : bool)
  | JNum (n : Z)
  | JStr (s : string)
  | JArr (elems : list jsval)
  | JObj (fields : list (string * jsval)).
#[local] Set Elimination Schemes.

(** [!!v] *)
Definition js_truthy (v : jsval) : bool :=
  match v with
  | JUndefined | JNull => false
  | JBool b => b
  | JNum n => negb (n =? 0)%Z
  | JStr s => negb (String.eqb s "")
  | JArr _ | JObj _ => true
  end.

(** [typeof v === "string"] *)
Definition is_string (v : jsval) : bool :=
  match v with JStr _ => true | _ => false end.

(** [v ?? d] *)
Definition nullish_or (v d : jsval) : jsval :=
  match v with JUndefined | JNull => d | _ => v end.

(** [arg.name], as the destructuring [({ name }) => ...] reads it: the
    property of that name the object has, the last one written when the
    literal repeats it, and [undefined] when it has none or when [arg]
    is not an object. *)
Definition field (name : string) (arg : jsval) : jsval :=
  match arg with
  | JObj fields =>
      default JUndefined
        (last (omap (λ f, if String.eqb (fst f) name then Some (snd f) else None) fields))
  | _ => JUndefined
  end.

Definition join_with (sep : string) (l : list string) : string :=
  match l with
  | [] => ""
  | x :: l' => fold_left (fun acc y => acc +:+ sep +:+ y) l' x
  end.

(** The double a non-negative integer literal is read as: the nearest
    one, ties to the even significand; none when that is [Infinity]. *)
Definition nearest_double (n : Z) : option Z :=
  let bits := (Z.log2 n + 1)%Z in
  if (bits <=? 53)%Z then Some n else
  let shift := (bits - 53)%Z in
  let q := Z.shiftr n shift in
  let rest := Z.land n (Z.ones shift) in
  let half := Z.shiftl 1 (shift - 1) in
  let q' := if (half <? rest)%Z || ((rest =? half)%Z && Z.odd q)
            then (q + 1)%Z else q in
  let v := Z.shiftl q' shift in
  if (Z.shiftl 1 1024 <=? v)%Z then None else Some v.

(** Whether the decimal [s × 10^e] is read as the double [v]. *)
Definition reads_as (v s e : Z) : bool :=
  match nearest_double (s * 10 ^ e)%Z with
  | Some v' => (v' =? v)%Z
  | None => false
  end.

(** The decimal of [k] digits that is read as [v], if there is one: of
    the two on either side of [v], the closer, and the even one when
    they are as close.  [N] is the number of digits of [v]. *)
Definition digits_at (v N k : Z) : option (Z * Z) :=
  let e := (N - k)%Z in
  let lo := (v / 10 ^ e)%Z in
  let hi := if (lo + 1 <? 10 ^ k)%Z then ((lo + 1)%Z, e) else (1%Z, N) in
  let dlo := (v - lo * 10 ^ e)%Z in
  let dhi := (fst hi * 10 ^ snd hi - v)%Z in
  match reads_as v lo e, reads_as v (fst hi) (snd hi) with
  | true, true =>
      if (dlo <? dhi)%Z then Some (lo, e)
      else if (dhi <? dlo)%Z then Some hi
      else if Z.even lo then Some (lo, e) else Some hi
  | true, false => Some (lo, e)
  | false, true => Some hi
  | false, false => None
  end.

(** The shortest decimal that is read as [v]: seventeen digits are
    always enough. *)
Fixpoint shortest_digits (fuel : nat) (v N k : Z) : Z * Z :=
  match fuel with
  | O => (v, 0%Z)
  | S fuel' =>
      match digits_at v N k with
      | Some c => c
      | None => shortest_digits fuel' v N (k + 1)%Z
      end
  end.

Fixpoint zeros (n : nat) : string :=
  match n with
  | O => ""
  | S n' => "0" +:+ zeros n'
  end.

(** [Number::toString] of a positive double that is an integer: its
    shortest digits followed by zeros below [1e21], and the exponent
    form from there. *)
Definition double_to_string (v : Z) : string :=
  let N := Z.of_nat (String.length (pretty v)) in
  let '(s, e) := shortest_digits 17 v N 1 in
  let digits := pretty s in
  let n := (e + Z.of_nat (String.length digits))%Z in
  if (n <=? 21)%Z then digits +:+ zeros (Z.to_nat e)
  else match digits with
       | String d "" => String d "" +:+ "e+" +:+ pretty (n - 1)%Z
       | String d rest => String d ("." +:+ rest) +:+ "e+" +:+ pretty (n - 1)%Z
       | "" => ""
       end.

(** [String(n)] for the number an integer literal is read as *)
Definition number_to_string (n : Z) : string :=
  if (n =? 0)%Z then "0" else
  let sign := if (n <? 0)%Z then "-" else "" in
  match nearest_double (Z.abs n) with
  | None => sign +:+ "Infinity"
  | Some v => sign +:+ double_to_string v
  end.

(** [String(v)] throws: [v] is an object that has a [toString] property
    of its own, which is not a function since it came from the wire, or
    an array that holds such an object. *)
Fixpoint String_throws (v : jsval) : bool :=
  match v with
  | JObj fields => existsb (λ f, String.eqb (fst f) "toString") fields
  | JArr elems => existsb String_throws elems
  | _ => false
  end.

(** [String(v)], when it does not throw *)
Fixpoint js_String (v : jsval) : string :=
  match v with
  | JUndefined => "undefined"
  | JNull => "null"
  | JBool true => "true"
  | JBool false => "false"
  | JNum n => number_to_string n
  | JStr s => s
  | JArr elems =>
      join_with ","
        (map (fun e => match e with
                       | JUndefined | JNull => ""
                       | _ => js_String e
                       end) elems)
  | JObj _ => "[object Object]"
  end.

(** The test [trim] makes on a code unit below 256: U+0009 to U+000D,
    U+0020 and U+00A0 are white space or line terminators. *)
Definition is_white_space (c : Ascii.ascii) : bool :=
  let n := Ascii.N_of_ascii c in
  ((9 <=? n) && (n <=? 13) || (n =? 32) || (n =? 160))%N.

Fixpoint trim_start (s : string) : string :=
  match s with
  | EmptyString => EmptyString
  | String c s' => if is_white_space c then trim_start s' else s
  end.

Definition trim_end (s : string) : string :=
  String.rev (trim_start (String.rev s)).

(** [s.trim()] *)
Definition trim (s : string) : string := trim_end (trim_start s).

(** ** Server state *)

(** Connection ids and room names are strings. *)
Abbreviation SocketId := string (only parsing).
Abbreviation Room := string (only parsing).

(** [interface RoomState { startedAt: number | null; duration: number }].
    This is what the join handler reads of [rooms[room]]: a record it
    stored, or an inherited object, of which both properties may be
    [undefined].  For [startedAt], none is [null] or [undefined]; for
    [duration], none is [undefined]. *)
Record RoomState : Type := mkRoomState {
  startedAt : option Z;
  duration : option Z
}.

(** [!roomState.startedAt] is [negb (started rs)]: [null], [undefined]
    and [0] are falsy. *)
Definition started (rs : RoomState) : bool :=
  match startedAt rs with
  | None => false
  | Some t => negb (t =? 0)%Z
  end.

Record Server : Type := mkServer {
  (** [io.sockets.sockets]: the live connections, each with the
      [handshake.auth?.name] it supplied *)
  sockets : gmap SocketId jsval;
  (** [io.sockets.adapter.rooms]: room name to its set of connection ids,
      in insertion order *)
  adapter_rooms : gmap Room (list SocketId);
  (** [socket.rooms] of each connection ([adapter.sids]), in insertion
      order *)
  adapter_sids : gmap SocketId (list Room);
  (** [const rooms: Record<string, RoomState> = {}]: the properties the
      object has of its own *)
  rooms_own : gmap string RoomState;
  (** the [startedAt] properties written on the objects [rooms]
      inherits, each under the name [rooms] finds the object by;
      [__proto__] is [Object.prototype] *)
  inherited_startedAt : gmap string Z
}.

Definition init : Server :=
  {| sockets := ∅; adapter_rooms := ∅; adapter_sids := ∅; rooms_own := ∅;
     inherited_startedAt := ∅ |}.

(** The names of the properties of [Object.prototype]. *)
Definition object_prototype_names : list string :=
  [ "constructor"; "__defineGetter__"; "__defineSetter__"; "hasOwnProperty";
    "__lookupGetter__"; "__lookupSetter__"; "isPrototypeOf";
    "propertyIsEnumerable"; "toString"; "valueOf"; "__proto__";
    "toLocaleString" ].

(** [rooms[k].startedAt] for an inherited name [k]: the property written
    on the object itself, or else the one of [Object.prototype]. *)
Definition startedAt_of_inherited (s : Server) (k : string) : option Z :=
  match inherited_startedAt s !! k with
  | Some t => Some t
  | None => inherited_startedAt s !! "__proto__"
  end.

(** What [rooms[k]] finds by inheritance, read as a room state: the
    objects of [Object.prototype]; and, once [Object.prototype] has a
    [startedAt] that is not falsy, that number under the name
    [startedAt], whose own [startedAt] is again inherited. *)
Definition rooms_inherited (s : Server) : gmap string RoomState :=
  list_to_map
    ((λ k, (k, {| startedAt := startedAt_of_inherited s k; duration := None |}))
       <$> object_prototype_names) ∪
  match inherited_startedAt s !! "__proto__" with
  | Some t =>
      if (t =? 0)%Z then ∅
      else {[ "startedAt" := {| startedAt := Some t; duration := None |} ]}
  | None => ∅
  end.

(** [rooms[k]] is [rooms s !! k], none when it is [undefined] or
    falsy: an own property hides an inherited one. *)
Definition rooms (s : Server) : gmap string RoomState :=
  rooms_own s ∪ rooms_inherited s.

(** [io.sockets.adapter.rooms.get(room) ?? new Set()], spread into an array *)
Definition members (s : Server) (room : Room) : list SocketId :=
  default [] (adapter_rooms s !! room).

(** [socket.rooms] *)
Definition socket_rooms (s : Server) (socket : SocketId) : list Room :=
  default [] (adapter_sids s !! socket).

(** [io.sockets.adapter.rooms.get(room)?.size ?? 0] *)
Definition room_size (s : Server) (room : Room) : nat :=
  length (members s room).

Definition connected (s : Server) (socket : SocketId) : bool :=
  bool_decide (is_Some (sockets s !! socket)).

(** [typeof s?.handshake?.auth?.name === "string" ? name : "Guest"] *)
Definition display_name (auth_name : option jsval) : string :=
  match auth_name with
  | Some (JStr nm) => nm
  | _ => "Guest"
  end.

(** A JavaScript [Set] keeps insertion order; adding a present element
    and deleting an absent one change nothing. *)
Definition set_add (x : string) (l : list string) : list string :=
  if decide (x ∈ l) then l else l ++ [x].

Definition set_delete (x : string) (l : list string) : list string :=
  filter (λ y, y ≠ x) l.

(** [adapter.addAll(id, {room})], which is what [socket.join(room)] does *)
Definition adapter_add (socket : SocketId) (room : Room) (s : Server) : Server :=
  {| sockets := sockets s;
     adapter_rooms := <[room := set_add socket (members s room)]> (adapter_rooms s);
     adapter_sids := <[socket := set_add room (socket_rooms s socket)]> (adapter_sids s);
     rooms_own := rooms_own s;
     inherited_startedAt := inherited_startedAt s |}.

(** One room of [adapter.delAll]: the id is deleted from the room's set,
    and a set that became empty is dropped from the adapter's table. *)
Definition adapter_del (socket : SocketId) (m : gmap Room (list SocketId))
    (room : Room) : gmap Room (list SocketId) :=
  match m !! room with
  | None => m
  | Some ids =>
      match set_delete socket ids with
      | [] => delete room m
      | ids' => <[room := ids']> m
      end
  end.

(** [adapter.delAll(id)], then the connection is dropped from
    [io.sockets.sockets]: what closing a connection does once the
    [disconnecting] handlers have run. *)
Definition adapter_del_all (socket : SocketId) (s : Server) : Server :=
  {| sockets := delete socket (sockets s);
     adapter_rooms := foldl (adapter_del socket) (adapter_rooms s) (socket_rooms s socket);
     adapter_sids := delete socket (adapter_sids s);
     rooms_own := rooms_own s;
     inherited_startedAt := inherited_startedAt s |}.

(** [rooms[room] = rs] *)
Definition store_room (room : Room) (rs : RoomState) (s : Server) : Server :=
  {| sockets := sockets s; adapter_rooms := adapter_rooms s;
     adapter_sids := adapter_sids s;
     rooms_own := <[room := rs]> (rooms_own s);
     inherited_startedAt := inherited_startedAt s |}.

(** [roomState.startedAt = now], where [roomState] is what [rooms[room]]
    found: a record of the table, or an inherited object. *)
Definition write_startedAt (room : Room) (now : Z) (s : Server) : Server :=
  match rooms_own s !! room with
  | Some roomState =>
      store_room room {| startedAt := Some now; duration := duration roomState |} s
  | None =>
      if decide (room ∈ object_prototype_names) then
        {| sockets := sockets s; adapter_rooms := adapter_rooms s;
           adapter_sids := adapter_sids s; rooms_own := rooms_own s;
           inherited_startedAt := <[room := now]> (inherited_startedAt s) |}
      else s  (* not reached: the timer rule does not fire on a number *)
  end.

(** [delete rooms[room]]: an own property is deleted, an inherited one
    is not. *)
Definition delete_room (room : Room) (s : Server) : Server :=
  {| sockets := sockets s; adapter_rooms := adapter_rooms s;
     adapter_sids := adapter_sids s;
     rooms_own := delete room (rooms_own s);
     inherited_startedAt := inherited_startedAt s |}.

(** ** Outbound events *)

(** The [duration] of a timer event is none when the property is
    [undefined], which the encoding of the event leaves out. *)
Inductive OutEvent : Type :=
  | EvChat (name : string) (from : SocketId) (text : string)
  | EvTimerStart (startedAt : option Z) (duration : option Z)
  | EvTimerState (startedAt : option Z) (duration : option Z)
  | EvNeedOffer (targetId : SocketId)
  | EvParticipants (participants : list (SocketId * string))
  | EvOffer (from : SocketId) (sdp : jsval)
  | EvAnswer (from : SocketId) (sdp : jsval)
  | EvIceCandidate (from : SocketId) (candidate : jsval).

(** Whom an [emit] is addressed to. *)
Inductive Target : Type :=
  | IoTo (room : jsval)                          (* io.to(room) *)
  | SocketTo (socket : SocketId) (room : Room)   (* socket.to(room) *)
  | SocketEmit (socket : SocketId).              (* socket.emit *)

(** The rooms [io.to(v)] selects: a room name, or an array of them.  A
    value that is not a string is the name of no room. *)
Definition target_rooms (v : jsval) : list Room :=
  match v with
  | JStr r => [r]
  | JArr elems => omap (λ e, match e with JStr r => Some r | _ => None end) elems
  | _ => []
  end.

Definition joined_any (s : Server) (rs : list Room) : gset SocketId :=
  list_to_set (mjoin (members s <$> rs)).

(** The connections an emit reaches.  [io.to([])] adds no room to the
    operator, and an emit with no room goes to every connection. *)
Definition recipients (s : Server) (t : Target) : gset SocketId :=
  match t with
  | IoTo (JArr []) => dom (sockets s)
  | IoTo v => joined_any s (target_rooms v)
  | SocketTo socket room => joined_any s [room] ∖ {[socket]}
  | SocketEmit socket => {[socket]}
  end.

(** One call of [emit]: the event, and the connections that each receive
    one copy of it. *)
Record Emission : Type := mkEmission {
  em_target : Target;
  em_to : gset SocketId;
  em_event : OutEvent
}.

(** The events delivered to one connection, oldest first. *)
Definition delivered (socket : SocketId) (log : list Emission) : list OutEvent :=
  em_event <$> filter (λ e, socket ∈ em_to e) log.

(** No connection received anything. *)
Definition silent (log : list Emission) : Prop :=
  ∀ socket, delivered socket log = [].

(** ** Handlers: state and log passing *)

Definition Handler (A : Type) : Type := Server → A * Server * list Emission.

Definition ret {A} (a : A) : Handler A := λ s, (a, s, []).

Definition bind {A B} (m : Handler A) (k : A → Handler B) : Handler B :=
  λ s, let '(a, s1, l1) := m s in
       let '(b, s2, l2) := k a s1 in
       (b, s2, l1 ++ l2).

Notation "x ⇐ m ; k" := (bind m (λ x, k))
  (at level 100, m at next level, right associativity, only parsing).
Notation "m ;; k" := (bind m (λ _, k))
  (at level 100, right associativity, only parsing).

Definition read {A} (f : Server → A) : Handler A := λ s, (f s, s, []).

Definition update (f : Server → Server) : Handler unit := λ s, (tt, f s, []).

Definition emit (t : Target) (ev : OutEvent) : Handler unit :=
  λ s, (tt, s, [ {| em_target := t; em_to := recipients s t; em_event := ev |} ]).

Fixpoint for_each {A} (l : list A) (body : A → Handler unit) : Handler unit :=
  match l with
  | [] => ret tt
  | x :: l' => body x ;; for_each l' body
  end.

Definition state_of {A} (r : A * Server * list Emission) : Server := r.1.2.
Definition log_of {A} (r : A * Server * list Emission) : list Emission := r.2.

(** ** The handlers of [src/index.ts] *)

(** [[...roomSet].map((sid) => ({ id: sid, name: nm }))], where [nm] is
    the display name of the connection [io.sockets.sockets.get(sid)],
    and ["Guest"] when there is no such connection *)
Definition participants_of (s : Server) (ids : list SocketId) : list (SocketId * string) :=
  map (λ sid, (sid, display_name (sockets s !! sid))) ids.

(** [function broadcastParticipants(room: string)] *)
Definition broadcastParticipants (room : Room) : Handler unit :=
  roomSet ⇐ read (λ s, members s room);
  list ⇐ read (λ s, participants_of s roomSet);
  emit (IoTo (JStr room)) (EvParticipants list).

(** [socket.on("chat", ({ room, text }) => ...)], for a text that
    [String] converts; [receive] has the case of one on which it
    throws. *)
Definition on_chat (socket : SocketId) (room text : jsval) : Handler unit :=
  if negb (js_truthy room) || negb (is_string room) then ret tt else
  let msg := trim (js_String (nullish_or text (JStr ""))) in
  if negb (js_truthy (JStr msg)) then ret tt else
  displayName ⇐ read (λ s, display_name (sockets s !! socket));
  emit (IoTo room) (EvChat displayName socket msg).

(** [if (!rooms[room]) rooms[room] = { startedAt: null, duration: 60 };
    const roomState = rooms[room];] *)
Definition room_state_or_init (room : Room) : Handler RoomState :=
  cur ⇐ read (λ s, rooms s !! room);
  match cur with
  | Some roomState => ret roomState
  | None =>
      let roomState := {| startedAt := None; duration := Some 60%Z |} in
      update (store_room room roomState) ;;
      ret roomState
  end.

(** [if (count >= 2 && !roomState.startedAt) { ... }]: the time stamp is
    written on the object [roomState] refers to, where it lives, and the
    handler goes on with what that object now reads as. *)
Definition timer_rule (room : Room) (roomState : RoomState) (count : nat)
    (now : Z) : Handler RoomState :=
  if (2 <=? count)%nat && negb (started roomState) then
    update (write_startedAt room now) ;;
    let roomState' := {| startedAt := Some now; duration := duration roomState |} in
    emit (IoTo (JStr room))
         (EvTimerStart (startedAt roomState') (duration roomState')) ;;
    ret roomState'
  else ret roomState.

(** [socket.on("join", ({ room }) => ...)]; [now] is what [Date.now()]
    returns if it is called. *)
Definition on_join (socket : SocketId) (room : jsval) (now : Z) : Handler unit :=
  if negb (js_truthy room) || negb (is_string room) then ret tt else
  match room with
  | JStr r =>
      update (adapter_add socket r) ;;
      roomState ⇐ room_state_or_init r;
      count ⇐ read (λ s, room_size s r);
      roomState ⇐ timer_rule r roomState count now;
      emit (SocketEmit socket)
           (EvTimerState (startedAt roomState) (duration roomState)) ;;
      emit (SocketTo socket r) (EvNeedOffer socket) ;;
      broadcastParticipants r
  | _ => ret tt  (* not reached: [room] is a string *)
  end.

(** [socket.on("offer", ({ to, sdp }) => ...)] *)
Definition on_offer (socket : SocketId) (to sdp : jsval) : Handler unit :=
  if js_truthy to && js_truthy sdp then emit (IoTo to) (EvOffer socket sdp)
  else ret tt.

(** [socket.on("answer", ({ to, sdp }) => ...)] *)
Definition on_answer (socket : SocketId) (to sdp : jsval) : Handler unit :=
  if js_truthy to && js_truthy sdp then emit (IoTo to) (EvAnswer socket sdp)
  else ret tt.

(** [socket.on("ice-candidate", ({ to, candidate }) => ...)] *)
Definition on_ice_candidate (socket : SocketId) (to candidate : jsval) : Handler unit :=
  if js_truthy to && js_truthy candidate
  then emit (IoTo to) (EvIceCandidate socket candidate)
  else ret tt.

(** The body of the loop of the [disconnecting] handler. *)
Definition on_disconnecting_room (socket : SocketId) (room : Room) : Handler unit :=
  if decide (room = socket) then ret tt else
  broadcastParticipants room ;;
  size ⇐ read (λ s, room_size s room);
  if (size =? 0)%nat then update (delete_room room) else ret tt.

(** [socket.on("disconnecting", () => { for (const room of socket.rooms) ... })] *)
Definition on_disconnecting (socket : SocketId) : Handler unit :=
  socketRooms ⇐ read (λ s, socket_rooms s socket);
  for_each socketRooms (on_disconnecting_room socket).

(** ** The server as a state machine *)

(** What the server reacts to.  [Connect] is the transport handing over a
    new connection with the id it generated for it and the display name
    of its handshake; [Disconnect] is the transport closing one.  The
    others are the messages of a connection, with the fields the handler
    destructures. *)
Inductive Input : Type :=
  | Connect (socket : SocketId) (auth_name : jsval)
  | Join (socket : SocketId) (room : jsval) (now : Z)
  | Chat (socket : SocketId) (room text : jsval)
  | Offer (socket : SocketId) (to sdp : jsval)
  | Answer (socket : SocketId) (to sdp : jsval)
  | IceCandidate (socket : SocketId) (to candidate : jsval)
  | Disconnect (socket : SocketId).

(** [io.on("connection", (socket) => ...)]: the connection is registered
    and put in the room of its own id; the callback only installs the
    handlers. *)
Definition on_connection (socket : SocketId) (auth_name : jsval) (s : Server) : Server :=
  adapter_add socket socket
    {| sockets := <[socket := auth_name]> (sockets s);
       adapter_rooms := adapter_rooms s;
       adapter_sids := adapter_sids s;
       rooms_own := rooms_own s;
       inherited_startedAt := inherited_startedAt s |}.

(** The id of a new connection is generated at random by the transport:
    it is the id of no other connection and the name of no room that
    has members. *)
Definition fresh_id (s : Server) (socket : SocketId) : bool :=
  negb (connected s socket) && bool_decide (members s socket = []).

Definition sender (i : Input) : SocketId :=
  match i with
  | Connect socket _ | Join socket _ _ | Chat socket _ _ | Offer socket _ _
  | Answer socket _ _ | IceCandidate socket _ _ | Disconnect socket => socket
  end.

(** One reaction.  Only a live connection has handlers installed. *)
Definition step (i : Input) : Handler unit :=
  λ s,
    match i with
    | Connect socket auth_name =>
        if fresh_id s socket then update (on_connection socket auth_name) s
        else ret tt s
    | _ =>
        if negb (connected s (sender i)) then ret tt s else
        match i with
        | Connect _ _ => ret tt s
        | Join socket room now => on_join socket room now s
        | Chat socket room text => on_chat socket room text s
        | Offer socket to sdp => on_offer socket to sdp s
        | Answer socket to sdp => on_answer socket to sdp s
        | IceCandidate socket to candidate => on_ice_candidate socket to candidate s
        | Disconnect socket =>
            (on_disconnecting socket ;; update (adapter_del_all socket)) s
        end
    end.

(** A run of the server over a sequence of inputs. *)
Definition run (tr : list Input) : Handler unit := for_each tr step.

(** ** Messages as they come *)

(** The events a connection has a handler for. *)
Inductive Message : Type :=
  | MsgJoin | MsgChat | MsgOffer | MsgAnswer | MsgIceCandidate.

(** What becomes of the process: a handler threw, which nothing catches,
    and the process exits; or the handler returned. *)
Inductive Outcome : Type :=
  | Exits
  | Continues (res : unit * Server * list Emission).

(** A message of a connection with its argument, [undefined] when it
    was sent with none.  The destructuring of the parameter throws on
    [undefined] and [null]; in the chat handler [String(text ?? "")]
    may throw, once the room has passed the test. *)
Definition receive (socket : SocketId) (msg : Message) (arg : jsval) (now : Z)
    (s : Server) : Outcome :=
  if negb (connected s socket) then Continues (tt, s, []) else
  match arg with
  | JUndefined | JNull => Exits
  | _ =>
      match msg with
      | MsgJoin => Continues (step (Join socket (field "room" arg) now) s)
      | MsgChat =>
          let room := field "room" arg in
          let text := field "text" arg in
          if js_truthy room && is_string room &&
             String_throws (nullish_or text (JStr ""))
          then Exits
          else Continues (step (Chat socket room text) s)
      | MsgOffer =>
          Continues (step (Offer socket (field "to" arg) (field "sdp" arg)) s)
      | MsgAnswer =>
          Continues (step (Answer socket (field "to" arg) (field "sdp" arg)) s)
      | MsgIceCandidate =>
          Continues (step (IceCandidate socket (field "to" arg)
                             (field "candidate" arg)) s)
      end
  end.

(** [Date.now()] is milliseconds since 1970: never zero. *)
Definition clock_ok (i : Input) : bool :=
  match i with
  | Join _ _ now => negb (now =? 0)%Z
  | _ => true
  end.

Definition clocks_ok (tr : list Input) : bool := forallb clock_ok tr.

(** ** The scenario of the specification, as a check of the model *)

Definition scenario : list Input :=
  [ Connect "A" (JStr "alice"); Connect "B" JUndefined;
    Join "A" (JStr "r1") 1000; Join "B" (JStr "r1") 2000;
    Disconnect "A"; Disconnect "B" ].

(** ** Notions the properties are stated with *)

(** The code units below 256 that are white space or line terminators:
    tab, line feed, vertical tab, form feed, carriage return, space and
    no-break space. *)
Definition white_space_code_units : list N := [9; 10; 11; 12; 13; 32; 160]%N.

Definition is_space (c : Ascii.ascii) : bool :=
  bool_decide (Ascii.N_of_ascii c ∈ white_space_code_units).

(** Empty or white space only. *)
Fixpoint blank (s : string) : bool :=
  match s with
  | EmptyString => true
  | String c s' => is_space c && blank s'
  end.

(** The text a chat message carries: [String(text ?? "").trim()]. *)
Definition chat_text (text : jsval) : string :=
  trim (js_String (nullish_or text (JStr ""))).

(** The record a join creates when [rooms[room]] is falsy. *)
Definition default_room : RoomState :=
  {| startedAt := None; duration := Some 60%Z |}.

(** What the join handler works on: what [rooms[r]] finds, or the
    record it creates. *)
Definition join_record_before (r : Room) (s : Server) : RoomState :=
  default default_room (rooms s !! r).

(** Whether the timer rule fires on this join: the count is read after
    the joiner was added. *)
Definition join_fires (socket : SocketId) (r : Room) (s : Server) : bool :=
  (2 <=? room_size (adapter_add socket r s) r)%nat &&
  negb (started (join_record_before r s)).

Definition join_record_after (socket : SocketId) (r : Room) (now : Z)
    (s : Server) : RoomState :=
  if join_fires socket r s
  then {| startedAt := Some now; duration := duration (join_record_before r s) |}
  else join_record_before r s.

(** The state a join leaves: the joiner is added, the record is
    created when [rooms[r]] was falsy, and the time stamp is written when
    the timer rule fires. *)
Definition join_state (socket : SocketId) (r : Room) (now : Z) (s : Server) : Server :=
  let s1 := adapter_add socket r s in
  let s2 := match rooms s !! r with
            | Some _ => s1
            | None => store_room r default_room s1
            end in
  if join_fires socket r s then write_startedAt r now s2 else s2.

Definition is_timer_state (e : Emission) : bool :=
  match em_event e with EvTimerState _ _ => true | _ => false end.

(** Two connections in room [r1]: the state the examples start from. *)
Definition two_in_room : Server :=
  state_of (run [ Connect "A" (JStr "alice"); Connect "B" JUndefined;
                  Join "A" (JStr "r1") 1000; Join "B" (JStr "r1") 2000 ] init).

(** ** Invariants of the reachable states *)

(** [socket.rooms] and the adapter's room table agree. *)
Definition rooms_inv (s : Server) : Prop :=
  ∀ socket r, r ∈ socket_rooms s socket → socket ∈ members s r.

(** A room that has two members or more has its timer started. *)
Definition timer_inv (s : Server) : Prop :=
  ∀ r, (2 ≤ room_size s r)%nat → ∃ rs, rooms s !! r = Some rs ∧ started rs = true.

(** No record holds the time stamp zero. *)
Definition stamp_inv (s : Server) : Prop :=
  ∀ r rs, rooms s !! r = Some rs → startedAt rs ≠ Some 0%Z.

(** The member lists are sets. *)
Definition nodup_inv (s : Server) : Prop :=
  ∀ r, NoDup (members s r).

Record consistent (s : Server) : Prop := mkConsistent {
  cons_rooms : rooms_inv s;
  cons_timer : timer_inv s;
  cons_stamp : stamp_inv s;
  cons_nodup : nodup_inv s
}.

(** A room that has a member other than the connection of that name was
    joined, and has its record. *)
Definition joined_inv (s : Server) : Prop :=
  ∀ socket r, socket ∈ members s r → socket ≠ r → is_Some (rooms s !! r).

(** [roomState.startedAt] of a room, none when the room has no record. *)
Definition room_startedAt (s : Server) (r : Room) : option Z :=
  rooms s !! r ≫= startedAt.

(** A [timer-start] event emitted to room [r]. *)
Definition is_timer_start_to (r : Room) (e : Emission) : bool :=
  match em_event e with
  | EvTimerStart _ _ =>
      match em_target e with
      | IoTo (JStr r') => String.eqb r r'
      | _ => false
      end
  | _ => false
  end.

(** How many times [timer-start] was emitted to room [r]. *)
Definition timer_starts (r : Room) (log : list Emission) : nat :=
  length (filter (is_timer_start_to r) log).

(** Whether the timer of room [r] is started. *)
Definition room_started (s : Server) (r : Room) : bool :=
  match rooms s !! r with
  | Some rs => started rs
  | None => false
  end.

(** ** Configuration *)

(** [s.split(",")] for a one-character separator: the pieces between
    the separators, one piece more than there are separators. *)
Fixpoint split_on (sep : Ascii.ascii) (s : string) : list string :=
  match s with
  | EmptyString => [""]
  | String c s' =>
      if Ascii.eqb c sep then "" :: split_on sep s'
      else match split_on sep s' with
           | p :: ps => String c p :: ps
           | [] => [String c ""]
           end
  end.

(** The character [","]. *)
Definition comma : Ascii.ascii := Eval cbv in Ascii.ascii_of_nat 44.

(** The origins pushed when [ALLOWED_ORIGINS.length === 0]. *)
Definition default_origins : list string :=
  [ "http://localhost:3000"; "http://127.0.0.1:3000";
    "http://192.168.0.197:3000"; "https://192.168.0.197:3000" ].

(** [RAW_ORIGINS.split(",").map((s) => s.trim()).filter(Boolean)], then
    the fallback; the argument is [process.env.CORS_ORIGIN], that may be
    unset. *)
Definition ALLOWED_ORIGINS (cors_origin : option string) : list string :=
  let RAW_ORIGINS := default "" cors_origin in
  let origins :=
    filter (λ s, js_truthy (JStr s)) (trim <$> split_on comma RAW_ORIGINS) in
  if (length origins =? 0)%nat then origins ++ default_origins else origins.

(** Whether a character occurs in a string. *)
Fixpoint has_char (c : Ascii.ascii) (s : string) : bool :=
  match s with
  | EmptyString => false
  | String c' s' => Ascii.eqb c' c || has_char c s'
  end.

(** No white space at the start. *)
Definition starts_clean (s : string) : bool :=
  match s with
  | EmptyString => true
  | String c _ => negb (is_space c)
  end.

(** ** Invariants of the connection registry *)

(** The adapter's room table agrees with [socket.rooms], the members of
    the rooms are live connections, and a live connection is in the room
    of its own id. *)
Record registry_ok (s : Server) : Prop := mkRegistryOk {
  reg_rooms : rooms_inv s;
  reg_sids : ∀ x r, x ∈ members s r → r ∈ socket_rooms s x;
  reg_live : ∀ r x, x ∈ members s r → connected s x = true;
  reg_own : ∀ x, connected s x = true → x ∈ members s x
}.

(** Every record the join handler stored has the default duration. *)
Definition duration_inv (s : Server) : Prop :=
  ∀ r rs, rooms_own s !! r = Some rs → duration rs = Some 60%Z.

(** A name under which [rooms] finds, or may come to find, something it
    inherits rather than a record. *)
Definition inherited_name (r : string) : bool :=
  bool_decide (r ∈ object_prototype_names) || String.eqb r "startedAt".

(** No join of the run names a room by a property of [Object.prototype]. *)
Definition plain_join (i : Input) : bool :=
  match i with
  | Join _ (JStr r) _ => negb (bool_decide (r ∈ object_prototype_names))
  | _ => true
  end.

Definition plain_joins (tr : list Input) : bool := forallb plain_join tr.

(** Nothing was written on an inherited object. *)
Definition nothing_inherited_written (s : Server) : Prop :=
  inherited_startedAt s = ∅.

(** The message an event comes from, with what it carries of it. *)
Definition produced_by (s : Server) (i : Input) (e : Emission) : Prop :=
  match em_event e with
  | EvChat name from text =>
      ∃ room t, i = Chat from room t ∧ text = chat_text t ∧ text ≠ "" ∧
                trim text = text ∧ name = display_name (sockets s !! from)
  | EvOffer from sdp => ∃ to, i = Offer from to sdp
  | EvAnswer from sdp => ∃ to, i = Answer from to sdp
  | EvIceCandidate from candidate => ∃ to, i = IceCandidate from to candidate
  | EvNeedOffer targetId => ∃ room now, i = Join targetId room now
  | EvTimerStart _ _ | EvTimerState _ _ => ∃ socket room now, i = Join socket room now
  | EvParticipants _ =>
      (∃ socket room now, i = Join socket room now) ∨ (∃ socket, i = Disconnect socket)
  end.

(** The duration a timer event carries is the default one. *)
Definition carries_default_duration (e : Emission) : Prop :=
  match em_event e with
  | EvTimerStart _ d | EvTimerState _ d => d = Some 60%Z
  | _ => True
  end.

(** A timer event that carries no duration. *)
Definition carries_no_duration (e : Emission) : Prop :=
  match em_event e with
  | EvTimerStart _ d | EvTimerState _ d => d = None
  | _ => True
  end.

(** The table has no record under a name of [Object.prototype]. *)
Definition no_record_at_inherited (s : Server) : Prop :=
  ∀ k, k ∈ object_prototype_names → rooms_own s !! k = None.

(** ** The earlier handlers (the other source file of the repository) *)

(** [socket.on("join", ({ room }: { room: string }) => ...)] of the
    earlier file: no room record and no timer. *)
Definition earlier_on_join (socket : SocketId) (room : jsval) : Handler unit :=
  match room with
  | JStr r =>
      if negb (js_truthy (JStr (trim r))) then ret tt else
      update (adapter_add socket r) ;;
      emit (SocketTo socket r) (EvNeedOffer socket) ;;
      roomSet ⇐ read (λ s, members s r);
      list ⇐ read (λ s, participants_of s roomSet);
      emit (IoTo (JStr r)) (EvParticipants list)
  | _ => ret tt  (* typeof room !== "string" *)
  end.

(** [if (typeof to === "string" && sdp) io.to(to).emit("offer", ...)] *)
Definition earlier_on_offer (socket : SocketId) (to sdp : jsval) : Handler unit :=
  if is_string to && js_truthy sdp then emit (IoTo to) (EvOffer socket sdp)
  else ret tt.

Definition earlier_on_answer (socket : SocketId) (to sdp : jsval) : Handler unit :=
  if is_string to && js_truthy sdp then emit (IoTo to) (EvAnswer socket sdp)
  else ret tt.

Definition earlier_on_ice_candidate (socket : SocketId) (to candidate : jsval) :
    Handler unit :=
  if is_string to && js_truthy candidate
  then emit (IoTo to) (EvIceCandidate socket candidate)
  else ret tt.

(** The body of the loop of the earlier [disconnecting] handler: the
    ids of the room but the one of the connection that leaves. *)
Definition earlier_on_disconnecting_room (socket : SocketId) (room : Room) :
    Handler unit :=
  if decide (room = socket) then ret tt else
  ids ⇐ read (λ s, filter (λ id, id ≠ socket) (members s room));
  list ⇐ read (λ s, participants_of s ids);
  emit (IoTo (JStr room)) (EvParticipants list).

Definition earlier_on_disconnecting (socket : SocketId) : Handler unit :=
  socketRooms ⇐ read (λ s, socket_rooms s socket);
  for_each socketRooms (earlier_on_disconnecting_room socket).

(** The handler, and then the connection leaves its rooms. *)
Definition earlier_close (socket : SocketId) : Handler unit :=
  earlier_on_disconnecting socket ;; update (adapter_del_all socket).

(** * Properties *)

(** The scenario of the specification, as the code runs it.  The
    participants event of [A]'s disconnection still lists [A], and the
    one of [B]'s disconnection lists [B]. *)
Example scenario_deliveries :
  map (λ e, (elements (em_to e), em_event e)) (log_of (run scenario init)) =
  [ (["A"], EvTimerState None (Some 60%Z));
    ([], EvNeedOffer "A");
    (["A"], EvParticipants [("A", "alice")]);
    (["A"; "B"], EvTimerStart (Some 2000%Z) (Some 60%Z));
    (["B"], EvTimerState (Some 2000%Z) (Some 60%Z));
    (["A"], EvNeedOffer "B");
    (["A"; "B"], EvParticipants [("A", "alice"); ("B", "Guest")]);
    (["A"; "B"], EvParticipants [("A", "alice"); ("B", "Guest")]);
    (["B"], EvParticipants [("B", "Guest")]) ].
Proof. vm_compute. reflexivity. Qed.

(** ** Strings *)

(** What [trim] takes for white space is white space. *)
Lemma is_space_spec c : is_space c = is_white_space c.
Proof.
  destruct c as [[] [] [] [] [] [] [] []]; vm_compute; reflexivity.
Qed.

Lemma blank_cons c s : blank (String c s) = is_white_space c && blank s.
Proof. cbn [blank]. by rewrite is_space_spec. Qed.

Lemma starts_clean_cons c s : starts_clean (String c s) = negb (is_white_space c).
Proof. cbn [starts_clean]. by rewrite is_space_spec. Qed.

Lemma blank_rev_app s acc : blank (String.rev_app s acc) = blank s && blank acc.
Proof.
  revert acc. induction s as [|c s IH]; intros acc; [done|].
  cbn [String.rev_app]. rewrite IH, !blank_cons.
  destruct (is_white_space c), (blank s), (blank acc); done.
Qed.

Lemma blank_rev s : blank (String.rev s) = blank s.
Proof. unfold String.rev. rewrite blank_rev_app. simpl. by rewrite andb_true_r. Qed.

Lemma trim_start_empty s : trim_start s = "" ↔ blank s = true.
Proof.
  induction s as [|c s IH]; [done|]. cbn [trim_start]. rewrite blank_cons.
  destruct (is_white_space c); cbn [andb]; [done|]. split; discriminate.
Qed.

Lemma blank_trim_start s : blank (trim_start s) = blank s.
Proof.
  induction s as [|c s IH]; [done|]. cbn [trim_start]. rewrite blank_cons.
  destruct (is_white_space c) eqn:E; cbn [andb]; [done|]. by rewrite blank_cons, E.
Qed.

Lemma rev_app_empty s acc : String.rev_app s acc = "" → s = "" ∧ acc = "".
Proof.
  revert acc. induction s as [|c s IH]; intros acc; simpl; [done|].
  intros H. apply IH in H as [_ H]. discriminate.
Qed.

(** [s.trim()] is empty exactly when [s] is empty or white space only. *)
Lemma trim_empty_iff s : trim s = "" ↔ blank s = true.
Proof.
  unfold trim, trim_end. split.
  - intros H. apply rev_app_empty in H as [H _]. apply trim_start_empty in H.
    by rewrite blank_rev, blank_trim_start in H.
  - intros H. assert (trim_start s = "") as -> by by apply trim_start_empty.
    reflexivity.
Qed.

Lemma js_truthy_str r : js_truthy (JStr r) = true ↔ r ≠ "".
Proof.
  simpl. rewrite negb_true_iff. split.
  - intros H ->. discriminate.
  - intros H. by apply String.eqb_neq.
Qed.

Lemma js_falsy_str r : js_truthy (JStr r) = false ↔ r = "".
Proof.
  simpl. rewrite negb_false_iff. apply String.eqb_eq.
Qed.

(** ** More on strings *)

Lemma str_app_nil_r s : s +:+ "" = s.
Proof. induction s as [|c s IH]; [done|]. cbv [String.app] in *. cbn. by rewrite IH. Qed.

Lemma str_app_assoc a b c : (a +:+ b) +:+ c = a +:+ (b +:+ c).
Proof.
  induction a as [|x a IH]; [done|]. cbv [String.app] in *. cbn. by rewrite IH.
Qed.

Lemma str_app_cons x a b : String x a +:+ b = String x (a +:+ b).
Proof. reflexivity. Qed.

Lemma rev_app_spec s acc : String.rev_app s acc = String.rev s +:+ acc.
Proof.
  unfold String.rev. revert acc. induction s as [|c s IH]; intros acc; [done|].
  cbn [String.rev_app]. rewrite IH, (IH (String c "")), str_app_assoc. done.
Qed.

Lemma rev_cons c s : String.rev (String c s) = String.rev s +:+ String c "".
Proof. unfold String.rev at 1. cbn [String.rev_app]. apply rev_app_spec. Qed.

Lemma rev_str_app a b : String.rev (a +:+ b) = String.rev b +:+ String.rev a.
Proof.
  induction a as [|x a IH].
  - change ("" +:+ b) with b. by rewrite str_app_nil_r.
  - rewrite str_app_cons, !rev_cons, IH, str_app_assoc. done.
Qed.

Lemma rev_involutive s : String.rev (String.rev s) = s.
Proof.
  induction s as [|c s IH]; [done|].
  rewrite rev_cons, rev_str_app, IH. done.
Qed.

Lemma blank_app a b : blank (a +:+ b) = blank a && blank b.
Proof.
  induction a as [|x a IH]; [done|].
  rewrite str_app_cons. cbn [blank]. rewrite IH. by rewrite andb_assoc.
Qed.

Lemma has_char_app c a b : has_char c (a +:+ b) = has_char c a || has_char c b.
Proof.
  induction a as [|x a IH]; [done|].
  rewrite str_app_cons. cbn [has_char]. rewrite IH. by rewrite orb_assoc.
Qed.

(** [trim_start] takes a prefix of white space away, and what it leaves
    does not start with white space. *)
Lemma trim_start_split s :
  ∃ w, s = w +:+ trim_start s ∧ blank w = true.
Proof.
  induction s as [|c s (w & Hw & Hb)]; [by exists ""|].
  cbn [trim_start]. destruct (is_white_space c) eqn:E.
  - exists (String c w). by rewrite str_app_cons, <- Hw, blank_cons, E, Hb.
  - by exists "".
Qed.

Lemma trim_start_clean s : starts_clean (trim_start s) = true.
Proof.
  induction s as [|c s IH]; [done|].
  cbn [trim_start]. destruct (is_white_space c) eqn:E; [done|].
  by rewrite starts_clean_cons, E.
Qed.

Lemma trim_start_of_clean s : starts_clean s = true → trim_start s = s.
Proof.
  destruct s as [|c s]; [done|]. rewrite starts_clean_cons. intros H.
  cbn [trim_start]. apply negb_true_iff in H. by rewrite H.
Qed.

(** [trim_end] takes a suffix of white space away, and what it leaves
    does not end with white space. *)
Lemma trim_end_split s :
  ∃ w, s = trim_end s +:+ w ∧ blank w = true.
Proof.
  unfold trim_end. destruct (trim_start_split (String.rev s)) as (w & Hw & Hb).
  exists (String.rev w). split; [|by rewrite blank_rev].
  rewrite <- rev_str_app, <- Hw. by rewrite rev_involutive.
Qed.

Lemma trim_end_clean s : starts_clean (String.rev (trim_end s)) = true.
Proof. unfold trim_end. rewrite rev_involutive. apply trim_start_clean. Qed.

Lemma trim_end_of_clean s : starts_clean (String.rev s) = true → trim_end s = s.
Proof.
  intros H. unfold trim_end. rewrite (trim_start_of_clean _ H). apply rev_involutive.
Qed.

Lemma trim_end_keeps_start s : starts_clean s = true → starts_clean (trim_end s) = true.
Proof.
  intros H. destruct (trim_end_split s) as (w & Hw & _).
  destruct (trim_end s) as [|c t]; [done|].
  rewrite Hw in H. by rewrite str_app_cons in H.
Qed.

(** The result of [trim] neither starts nor ends with white space. *)
Lemma trim_clean s :
  starts_clean (trim s) = true ∧ starts_clean (String.rev (trim s)) = true.
Proof.
  unfold trim. split; [|apply trim_end_clean].
  apply trim_end_keeps_start, trim_start_clean.
Qed.

Lemma trim_idempotent s : trim (trim s) = trim s.
Proof.
  destruct (trim_clean s) as [H1 H2]. unfold trim at 1.
  rewrite (trim_start_of_clean _ H1). by apply trim_end_of_clean.
Qed.

Lemma blank_trim s : blank (trim s) = blank s.
Proof. unfold trim, trim_end. by rewrite blank_rev, blank_trim_start, blank_rev, blank_trim_start. Qed.

(** [trim] only takes characters away. *)
Lemma has_char_trim c s : has_char c (trim s) = true → has_char c s = true.
Proof.
  unfold trim. intros H.
  destruct (trim_start_split s) as (w1 & Hw1 & _).
  destruct (trim_end_split (trim_start s)) as (w2 & Hw2 & _).
  rewrite Hw1, Hw2, !has_char_app, H. by rewrite orb_true_r.
Qed.

(** ** Recipients *)

Lemma joined_any_single s r : joined_any s [r] = list_to_set (members s r).
Proof. unfold joined_any. simpl. by rewrite app_nil_r. Qed.

Lemma delivered_cons socket e log :
  delivered socket (e :: log) =
  if decide (socket ∈ em_to e) then em_event e :: delivered socket log
  else delivered socket log.
Proof.
  unfold delivered. rewrite filter_cons. by case_decide.
Qed.

Lemma members_adapter_add socket r s room :
  members (adapter_add socket r s) room =
  if decide (r = room) then set_add socket (members s r) else members s room.
Proof.
  unfold members at 1. simpl. rewrite lookup_insert. by case_decide.
Qed.

Lemma elem_of_set_add x y l : x ∈ set_add y l ↔ x = y ∨ x ∈ l.
Proof.
  unfold set_add. case_decide as Hy.
  - split; [by right|]. by intros [->|].
  - rewrite elem_of_app, list_elem_of_singleton. tauto.
Qed.

Lemma NoDup_set_add x l : NoDup l → NoDup (set_add x l).
Proof.
  intros H. unfold set_add. case_decide; [done|].
  apply NoDup_app. split_and!; [done| |apply NoDup_singleton].
  intros y Hy ->%list_elem_of_singleton. done.
Qed.

(** What [broadcastParticipants(room)] emits in state [s]. *)
Lemma broadcastParticipants_computed room s :
  broadcastParticipants room s =
  (tt, s, [ {| em_target := IoTo (JStr room);
               em_to := list_to_set (members s room);
               em_event := EvParticipants (participants_of s (members s room)) |} ]).
Proof.
  unfold broadcastParticipants, bind, read, emit. cbn [fst snd recipients target_rooms].
  by rewrite joined_any_single.
Qed.

(** ** The table of rooms *)

Lemma lookup_list_to_map_names (f : string → RoomState) (l : list string) (k : string) :
  (list_to_map ((λ k, (k, f k)) <$> l) : gmap string RoomState) !! k =
  if decide (k ∈ l) then Some (f k) else None.
Proof.
  induction l as [|x l IH].
  - cbn. rewrite lookup_empty. rewrite decide_False; [done|]. apply not_elem_of_nil.
  - rewrite fmap_cons, list_to_map_cons.
    destruct (decide (k = x)) as [->|Hne].
    + rewrite lookup_insert_eq, decide_True; [done|]. apply list_elem_of_here.
    + rewrite lookup_insert_ne by done. rewrite IH.
      destruct (decide (k ∈ l)) as [Hin|Hin].
      * rewrite decide_True; [done|]. by apply list_elem_of_further.
      * rewrite decide_False; [done|]. rewrite elem_of_cons. tauto.
Qed.

Lemma proto_is_a_prototype_name : "__proto__" ∈ object_prototype_names.
Proof. apply list_elem_of_In. cbn. tauto. Qed.

(** [rooms[k]], case by case. *)
Lemma rooms_lookup s k :
  rooms s !! k =
  match rooms_own s !! k with
  | Some rs => Some rs
  | None =>
      if decide (k ∈ object_prototype_names)
      then Some {| startedAt := startedAt_of_inherited s k; duration := None |}
      else if decide (k = "startedAt") then
        match inherited_startedAt s !! "__proto__" with
        | Some t =>
            if (t =? 0)%Z then None
            else Some {| startedAt := Some t; duration := None |}
        | None => None
        end
      else None
  end.
Proof.
  unfold rooms, rooms_inherited. rewrite lookup_union.
  destruct (rooms_own s !! k) as [rs|]; [by rewrite union_Some_l|].
  rewrite (left_id None _). rewrite lookup_union, lookup_list_to_map_names.
  destruct (decide (k ∈ object_prototype_names)) as [Hin|Hin];
    [by rewrite union_Some_l|].
  rewrite (left_id None _).
  destruct (decide (k = "startedAt")) as [->|Hne].
  - destruct (inherited_startedAt s !! "__proto__") as [t|]; [|apply lookup_empty].
    destruct (t =? 0)%Z; [apply lookup_empty|apply lookup_singleton_eq].
  - destruct (inherited_startedAt s !! "__proto__") as [t|]; [|apply lookup_empty].
    destruct (t =? 0)%Z; [apply lookup_empty|by apply lookup_singleton_ne].
Qed.

(** What [rooms] finds is a record of the table, or it is inherited and
    has no duration. *)
Lemma rooms_lookup_cases s k rs :
  rooms s !! k = Some rs →
  rooms_own s !! k = Some rs ∨
  (rooms_own s !! k = None ∧ duration rs = None ∧ inherited_name k = true).
Proof.
  rewrite rooms_lookup. unfold inherited_name.
  destruct (rooms_own s !! k) as [rs'|]; [by left|]. intros H. right.
  destruct (decide (k ∈ object_prototype_names)) as [Hin|Hin].
  - injection H as <-. rewrite bool_decide_eq_true_2 by done. done.
  - destruct (decide (k = "startedAt")) as [->|Hne]; [|done].
    destruct (inherited_startedAt s !! "__proto__") as [t|]; [|done].
    destruct (t =? 0)%Z; [done|]. injection H as <-.
    split; [done|]. split; [done|]. by rewrite orb_true_r.
Qed.

Lemma rooms_store_room r rs s : rooms (store_room r rs s) = <[r := rs]> (rooms s).
Proof. unfold rooms, store_room. cbn. symmetry. apply insert_union_l. Qed.

(** At the start [rooms] finds the inherited objects only, none of
    which has a time stamp. *)
Lemma rooms_init_lookup k rs :
  rooms init !! k = Some rs → rs = {| startedAt := None; duration := None |}.
Proof.
  rewrite rooms_lookup. unfold init, startedAt_of_inherited. cbn.
  rewrite !lookup_empty. repeat case_decide; congruence.
Qed.

(** *** Writing the time stamp *)

Lemma write_startedAt_adapter room now s :
  sockets (write_startedAt room now s) = sockets s ∧
  adapter_rooms (write_startedAt room now s) = adapter_rooms s ∧
  adapter_sids (write_startedAt room now s) = adapter_sids s.
Proof.
  unfold write_startedAt. destruct (rooms_own s !! room); [done|].
  by case_decide.
Qed.

(** The object written on has the time stamp; its duration is what it
    was. *)
Lemma write_startedAt_lookup room now s rs :
  rooms s !! room = Some rs →
  started rs = false →
  rooms (write_startedAt room now s) !! room =
    Some {| startedAt := Some now; duration := duration rs |}.
Proof.
  intros Hrs Hst. unfold write_startedAt. rewrite rooms_lookup in Hrs.
  destruct (rooms_own s !! room) as [own|] eqn:Hown.
  - injection Hrs as ->. rewrite rooms_store_room. apply lookup_insert_eq.
  - destruct (decide (room ∈ object_prototype_names)) as [Hin|Hin].
    + injection Hrs as <-. rewrite rooms_lookup. cbn [rooms_own].
      rewrite Hown, decide_True by done. unfold startedAt_of_inherited.
      cbn [inherited_startedAt]. by rewrite lookup_insert_eq.
    + destruct (decide (room = "startedAt")) as [->|Hne]; [|done].
      destruct (inherited_startedAt s !! "__proto__") as [t|]; [|done].
      destruct (t =? 0)%Z eqn:Ht; [done|]. injection Hrs as <-.
      unfold started in Hst. cbn in Hst. by rewrite Ht in Hst.
Qed.

(** The state of the inherited stamps after a write on an inherited
    object. *)
Lemma startedAt_of_inherited_write room now s k :
  let s' := {| sockets := sockets s; adapter_rooms := adapter_rooms s;
               adapter_sids := adapter_sids s; rooms_own := rooms_own s;
               inherited_startedAt := <[room := now]> (inherited_startedAt s) |} in
  startedAt_of_inherited s' k =
  if decide (k = room) then Some now
  else match inherited_startedAt s !! k with
       | Some t => Some t
       | None => if decide (room = "__proto__") then Some now
                 else inherited_startedAt s !! "__proto__"
       end.
Proof.
  intros s'. unfold startedAt_of_inherited, s'. cbn [inherited_startedAt].
  destruct (decide (k = room)) as [->|Hk]; [by rewrite lookup_insert_eq|].
  rewrite lookup_insert_ne by done.
  destruct (inherited_startedAt s !! k); [done|].
  destruct (decide (room = "__proto__")) as [->|Hp].
  - by rewrite lookup_insert_eq.
  - by rewrite lookup_insert_ne.
Qed.

(** Whatever [rooms] finds after a write was there before, or holds the
    time stamp written. *)
Lemma write_startedAt_origin room now s k rs :
  rooms (write_startedAt room now s) !! k = Some rs →
  rooms s !! k = Some rs ∨ startedAt rs = Some now.
Proof.
  unfold write_startedAt. destruct (rooms_own s !! room) as [own|] eqn:Hown.
  - rewrite rooms_store_room, lookup_insert. case_decide; [|by left].
    intros [= <-]. by right.
  - destruct (decide (room ∈ object_prototype_names)) as [Hin|Hin]; [|by left].
    rewrite (rooms_lookup s), rooms_lookup. cbn [rooms_own].
    destruct (rooms_own s !! k) as [rs'|]; [by left|].
    destruct (decide (k ∈ object_prototype_names)) as [Hk|Hk].
    + rewrite startedAt_of_inherited_write. intros [= <-]. cbn [startedAt].
      destruct (decide (k = room)); [by right|].
      unfold startedAt_of_inherited.
      destruct (inherited_startedAt s !! k); [by left|].
      destruct (decide (room = "__proto__")); [by right|by left].
    + destruct (decide (k = "startedAt")) as [->|Hne]; [|done].
      cbn [inherited_startedAt].
      destruct (decide (room = "__proto__")) as [->|Hp].
      * rewrite lookup_insert_eq. destruct (now =? 0)%Z; [done|].
        intros [= <-]. by right.
      * rewrite lookup_insert_ne by done. by left.
Qed.

(** A write leaves alone what [rooms] finds under the other names,
    unless it is a write on [Object.prototype]. *)
Lemma write_startedAt_other room now s k :
  k ≠ room →
  room ≠ "__proto__" ∨ is_Some (rooms_own s !! room) →
  rooms (write_startedAt room now s) !! k = rooms s !! k.
Proof.
  intros Hk Hroom. unfold write_startedAt.
  destruct (rooms_own s !! room) as [own|] eqn:Hown.
  - by rewrite rooms_store_room, lookup_insert_ne.
  - destruct Hroom as [Hp|[? ?]]; [|done].
    destruct (decide (room ∈ object_prototype_names)) as [Hin|Hin]; [|done].
    rewrite (rooms_lookup s), rooms_lookup. cbn [rooms_own].
    destruct (rooms_own s !! k) as [rs'|]; [done|].
    rewrite startedAt_of_inherited_write.
    rewrite (decide_False (P := k = room)) by done.
    rewrite (decide_False (P := room = "__proto__")) by done.
    cbn [inherited_startedAt]. rewrite (lookup_insert_ne _ room "__proto__") by done.
    reflexivity.
Qed.

(** A write on an object whose stamp is falsy leaves alone whatever has
    a time stamp. *)
Lemma write_startedAt_keeps_started room now s k rs :
  (∀ rs0, rooms s !! room = Some rs0 → started rs0 = false) →
  k ≠ room →
  rooms s !! k = Some rs →
  started rs = true →
  rooms (write_startedAt room now s) !! k = Some rs.
Proof.
  intros Hfalsy Hk Hrs Hst.
  destruct (decide (room = "__proto__")) as [->|Hp];
    [|by rewrite write_startedAt_other by auto].
  destruct (rooms_own s !! "__proto__") as [own|] eqn:Hown;
    [by rewrite write_startedAt_other by eauto|].
  assert (Hproto : ∀ t, inherited_startedAt s !! "__proto__" = Some t → (t =? 0)%Z = true).
  { intros t Ht.
    assert (rooms s !! "__proto__" =
            Some {| startedAt := startedAt_of_inherited s "__proto__"; duration := None |})
      as Hview.
    { rewrite rooms_lookup, Hown, decide_True; [done|apply proto_is_a_prototype_name]. }
    apply Hfalsy in Hview. unfold started, startedAt_of_inherited in Hview.
    cbn in Hview. rewrite Ht in Hview. by apply negb_false_iff in Hview. }
  unfold write_startedAt. rewrite Hown, decide_True by apply proto_is_a_prototype_name.
  rewrite rooms_lookup in Hrs. rewrite rooms_lookup. cbn [rooms_own].
  destruct (rooms_own s !! k) as [rs'|]; [done|].
  destruct (decide (k ∈ object_prototype_names)) as [Hin|Hin].
  - rewrite startedAt_of_inherited_write, decide_False by done.
    injection Hrs as <-. f_equal. f_equal.
    unfold started, startedAt_of_inherited in *. cbn [startedAt] in *.
    destruct (inherited_startedAt s !! k) as [t|]; [done|].
    destruct (inherited_startedAt s !! "__proto__") as [t|] eqn:Ht; [|done].
    rewrite (Hproto t) in Hst; done.
  - destruct (decide (k = "startedAt")) as [->|Hne]; [|done].
    destruct (inherited_startedAt s !! "__proto__") as [t|] eqn:Ht; [|done].
    rewrite (Hproto t) in Hrs; done.
Qed.

(** After a write on an object whose stamp is falsy, [rooms] finds
    something under every name it found something under. *)
Lemma write_startedAt_keeps_names room now s k :
  (∀ rs0, rooms s !! room = Some rs0 → started rs0 = false) →
  is_Some (rooms s !! k) →
  is_Some (rooms (write_startedAt room now s) !! k).
Proof.
  intros Hfalsy [rs Hrs].
  destruct (decide (k = room)) as [->|Hk].
  - rewrite (write_startedAt_lookup _ _ _ _ Hrs (Hfalsy _ Hrs)). eauto.
  - destruct (decide (room = "__proto__")) as [->|Hp];
      [|rewrite write_startedAt_other by auto; eauto].
    destruct (rooms_own s !! "__proto__") as [own|] eqn:Hown;
      [rewrite write_startedAt_other by eauto; eauto|].
    unfold write_startedAt. rewrite Hown, decide_True by apply proto_is_a_prototype_name.
    rewrite rooms_lookup in Hrs. rewrite rooms_lookup. cbn [rooms_own].
    destruct (rooms_own s !! k) as [rs'|]; [eauto|].
    destruct (decide (k ∈ object_prototype_names)) as [Hin|Hin]; [eauto|].
    destruct (decide (k = "startedAt")) as [->|Hne]; [|done].
    destruct (inherited_startedAt s !! "__proto__") as [t|] eqn:Ht; [|done].
    destruct (t =? 0)%Z eqn:Hz; [done|].
    assert (rooms s !! "__proto__" =
            Some {| startedAt := startedAt_of_inherited s "__proto__"; duration := None |})
      as Hview.
    { rewrite rooms_lookup, Hown, decide_True; [done|apply proto_is_a_prototype_name]. }
    apply Hfalsy in Hview. unfold started, startedAt_of_inherited in Hview.
    cbn in Hview. rewrite Ht in Hview. cbn in Hview. by rewrite Hz in Hview.
Qed.

(** A write keeps the records of the table, but for the time stamp of
    the one written on. *)
Lemma write_startedAt_own room now s k rs :
  rooms_own (write_startedAt room now s) !! k = Some rs →
  rooms_own s !! k = Some rs ∨
  ∃ rs0, rooms_own s !! k = Some rs0 ∧ duration rs = duration rs0.
Proof.
  unfold write_startedAt. destruct (rooms_own s !! room) as [own|] eqn:Hown.
  - cbn [rooms_own store_room]. rewrite lookup_insert. case_decide as E; [|by left].
    subst k. intros [= <-]. right. by exists own.
  - case_decide; by left.
Qed.

Lemma write_startedAt_own_dom room now s k :
  is_Some (rooms_own (write_startedAt room now s) !! k) ↔ is_Some (rooms_own s !! k).
Proof.
  unfold write_startedAt. destruct (rooms_own s !! room) as [own|] eqn:Hown.
  - cbn [rooms_own store_room]. rewrite lookup_insert. case_decide as E; [|done].
    subst k. rewrite Hown. split; eauto.
  - by case_decide.
Qed.

(** ** The join handler, computed *)

Lemma join_record_before_lookup r s rs :
  rooms s !! r = Some rs → join_record_before r s = rs.
Proof. intros H. unfold join_record_before. by rewrite H. Qed.

Lemma on_join_computed socket r now s :
  r ≠ "" →
  let s1 := adapter_add socket r s in
  let roomState' := join_record_after socket r now s in
  on_join socket (JStr r) now s =
  (tt, join_state socket r now s,
   (if join_fires socket r s
    then [ {| em_target := IoTo (JStr r);
              em_to := list_to_set (members s1 r);
              em_event := EvTimerStart (Some now) (duration (join_record_before r s)) |} ]
    else []) ++
   [ {| em_target := SocketEmit socket;
        em_to := {[socket]};
        em_event := EvTimerState (startedAt roomState') (duration roomState') |};
     {| em_target := SocketTo socket r;
        em_to := list_to_set (members s1 r) ∖ {[socket]};
        em_event := EvNeedOffer socket |};
     {| em_target := IoTo (JStr r);
        em_to := list_to_set (members s1 r);
        em_event := EvParticipants (participants_of s (members s1 r)) |} ]).
Proof.
  intros Hr s1 roomState'. subst s1 roomState'. apply js_truthy_str in Hr.
  unfold on_join. rewrite Hr. cbn [negb is_string orb].
  unfold join_state, join_record_after, join_fires, join_record_before.
  unfold bind at 1. unfold update at 1.
  unfold bind at 1. unfold room_state_or_init, bind at 1, read at 1.
  change (rooms (adapter_add socket r s)) with (rooms s).
  destruct (rooms s !! r) as [rs|] eqn:Hrs; cbn [default from_option id].
  - unfold ret at 1. unfold bind at 1, read at 1. unfold bind at 1, timer_rule.
    destruct ((2 <=? room_size (adapter_add socket r s) r)%nat && negb (started rs)) eqn:F.
    + unfold bind at 1, update at 1. unfold bind at 1, emit at 1. unfold ret at 1.
      cbn [app]. unfold bind at 1, emit at 1. unfold bind at 1, emit at 1.
      rewrite broadcastParticipants_computed.
      destruct (write_startedAt_adapter r now (adapter_add socket r s)) as (Hso & Har & _).
      unfold members, participants_of.
      cbn [recipients target_rooms startedAt duration app].
      rewrite !joined_any_single. unfold members. rewrite Hso, Har. reflexivity.
    + unfold ret at 1. unfold bind at 1, emit at 1. unfold bind at 1, emit at 1.
      rewrite broadcastParticipants_computed.
      cbn [recipients target_rooms app]. rewrite !joined_any_single. reflexivity.
  - unfold bind at 1, update at 1. unfold ret at 1.
    unfold bind at 1, read at 1. unfold bind at 1, timer_rule.
    change (room_size (store_room r ?x ?y) r) with (room_size y r).
    unfold default_room.
    destruct ((2 <=? room_size (adapter_add socket r s) r)%nat &&
              negb (started {| startedAt := None; duration := Some 60%Z |})) eqn:F.
    + unfold bind at 1, update at 1. unfold bind at 1, emit at 1. unfold ret at 1.
      cbn [app]. unfold bind at 1, emit at 1. unfold bind at 1, emit at 1.
      rewrite broadcastParticipants_computed.
      set (s2 := store_room r _ (adapter_add socket r s)).
      destruct (write_startedAt_adapter r now s2) as (Hso & Har & _).
      unfold members, participants_of.
      cbn [recipients target_rooms startedAt duration app].
      rewrite !joined_any_single. unfold members. rewrite Hso, Har. reflexivity.
    + unfold ret at 1. unfold bind at 1, emit at 1. unfold bind at 1, emit at 1.
      rewrite broadcastParticipants_computed.
      cbn [recipients target_rooms app]. rewrite !joined_any_single. reflexivity.
Qed.

(** *** The state a join leaves *)

Lemma join_state_adapter socket r now s :
  sockets (join_state socket r now s) = sockets s ∧
  adapter_rooms (join_state socket r now s) = adapter_rooms (adapter_add socket r s) ∧
  adapter_sids (join_state socket r now s) = adapter_sids (adapter_add socket r s).
Proof.
  unfold join_state.
  destruct (join_fires socket r s).
  - match goal with |- context [write_startedAt r now ?x] =>
      destruct (write_startedAt_adapter r now x) as (-> & -> & ->) end.
    by destruct (rooms s !! r).
  - by destruct (rooms s !! r).
Qed.

Lemma members_join_state socket r now s room :
  members (join_state socket r now s) room = members (adapter_add socket r s) room.
Proof.
  unfold members.
  by destruct (join_state_adapter socket r now s) as (_ & -> & _).
Qed.

Lemma room_size_join_state socket r now s room :
  room_size (join_state socket r now s) room = room_size (adapter_add socket r s) room.
Proof. unfold room_size. by rewrite members_join_state. Qed.

Lemma socket_rooms_join_state socket r now s x :
  socket_rooms (join_state socket r now s) x = socket_rooms (adapter_add socket r s) x.
Proof.
  unfold socket_rooms.
  by destruct (join_state_adapter socket r now s) as (_ & _ & ->).
Qed.

Lemma connected_join_state socket r now s x :
  connected (join_state socket r now s) x = connected s x.
Proof.
  unfold connected.
  by destruct (join_state_adapter socket r now s) as (-> & _ & _).
Qed.

Lemma participants_of_join_state socket r now s l :
  participants_of (join_state socket r now s) l = participants_of s l.
Proof.
  unfold participants_of.
  by destruct (join_state_adapter socket r now s) as (-> & _ & _).
Qed.

(** Before the timer rule runs, [rooms[r]] is what the handler works on. *)
Lemma rooms_before_timer_rule socket r s :
  let s1 := adapter_add socket r s in
  rooms (match rooms s !! r with
         | Some _ => s1
         | None => store_room r default_room s1
         end) = <[r := join_record_before r s]> (rooms s).
Proof.
  intros s1. unfold join_record_before.
  destruct (rooms s !! r) as [rs|] eqn:Hrs; cbn [default].
  - symmetry. by apply insert_id.
  - by rewrite rooms_store_room.
Qed.

Lemma join_fires_not_started socket r s :
  join_fires socket r s = true → started (join_record_before r s) = false.
Proof. unfold join_fires. intros [_ H]%andb_true_iff. by apply negb_true_iff. Qed.

(** After a join, [rooms[r]] is what the handler has worked on. *)
Lemma rooms_join_state socket r now s :
  rooms (join_state socket r now s) !! r = Some (join_record_after socket r now s).
Proof.
  unfold join_state, join_record_after.
  pose proof (rooms_before_timer_rule socket r s) as Hb. cbv zeta in Hb.
  destruct (join_fires socket r s) eqn:F.
  - apply write_startedAt_lookup; [|by apply join_fires_not_started in F].
    rewrite Hb. apply lookup_insert_eq.
  - rewrite Hb. apply lookup_insert_eq.
Qed.

(** A join leaves alone what [rooms] finds under the other names,
    unless it writes on [Object.prototype]. *)
Lemma rooms_join_state_other socket r now s k :
  k ≠ r →
  r ≠ "__proto__" ∨ join_fires socket r s = false →
  rooms (join_state socket r now s) !! k = rooms s !! k.
Proof.
  intros Hk Hr. unfold join_state.
  pose proof (rooms_before_timer_rule socket r s) as Hb. cbv zeta in Hb.
  destruct (join_fires socket r s) eqn:F.
  - destruct Hr as [Hr|?]; [|done].
    rewrite write_startedAt_other by auto. rewrite Hb. by rewrite lookup_insert_ne.
  - rewrite Hb. by rewrite lookup_insert_ne.
Qed.

(** A join leaves alone whatever has a time stamp. *)
Lemma rooms_join_state_started socket r now s k rs :
  rooms s !! k = Some rs →
  started rs = true →
  rooms (join_state socket r now s) !! k = Some rs.
Proof.
  intros Hrs Hst.
  destruct (decide (k = r)) as [->|Hk].
  - rewrite rooms_join_state. f_equal. unfold join_record_after, join_fires.
    rewrite (join_record_before_lookup _ _ _ Hrs), Hst. by rewrite andb_false_r.
  - unfold join_state.
    pose proof (rooms_before_timer_rule socket r s) as Hb. cbv zeta in Hb.
    destruct (join_fires socket r s) eqn:F.
    + apply write_startedAt_keeps_started; try done.
      * intros rs0. rewrite Hb, lookup_insert_eq. intros [= <-].
        by apply join_fires_not_started in F.
      * rewrite Hb. by rewrite lookup_insert_ne.
    + rewrite Hb. by rewrite lookup_insert_ne.
Qed.

(** After a join, [rooms] finds something under every name it found
    something under. *)
Lemma rooms_join_state_names socket r now s k :
  is_Some (rooms s !! k) → is_Some (rooms (join_state socket r now s) !! k).
Proof.
  intros Hk. unfold join_state.
  pose proof (rooms_before_timer_rule socket r s) as Hb. cbv zeta in Hb.
  assert (is_Some ((<[r := join_record_before r s]> (rooms s)) !! k)) as Hk'.
  { rewrite lookup_insert. by case_decide. }
  destruct (join_fires socket r s) eqn:F.
  - apply write_startedAt_keeps_names; [|by rewrite Hb].
    intros rs0. rewrite Hb, lookup_insert_eq. intros [= <-].
    by apply join_fires_not_started in F.
  - by rewrite Hb.
Qed.

(** Whatever [rooms] finds after a join was there before, or is the
    record just created, or holds the time stamp of this join. *)
Lemma rooms_join_state_origin socket r now s k rs :
  rooms (join_state socket r now s) !! k = Some rs →
  rooms s !! k = Some rs ∨ rs = default_room ∨ startedAt rs = Some now.
Proof.
  unfold join_state.
  pose proof (rooms_before_timer_rule socket r s) as Hb. cbv zeta in Hb.
  assert (Hbefore : ∀ rs', (<[r := join_record_before r s]> (rooms s)) !! k = Some rs' →
                           rooms s !! k = Some rs' ∨ rs' = default_room).
  { intros rs'. rewrite lookup_insert. case_decide as E; [|by left].
    subst k. intros [= <-]. unfold join_record_before.
    destruct (rooms s !! r); cbn; auto. }
  destruct (join_fires socket r s) eqn:F.
  - intros [H|H]%write_startedAt_origin; [|auto].
    rewrite Hb in H. apply Hbefore in H. tauto.
  - rewrite Hb. intros H%Hbefore. tauto.
Qed.

(** ** The other handlers, computed *)

Lemma step_join socket room now s :
  connected s socket = true →
  step (Join socket room now) s = on_join socket room now s.
Proof. intros H. unfold step. cbn [sender]. by rewrite H. Qed.

Lemma step_chat socket room text s :
  connected s socket = true →
  step (Chat socket room text) s = on_chat socket room text s.
Proof. intros H. unfold step. cbn [sender]. by rewrite H. Qed.

Lemma step_offer socket to sdp s :
  connected s socket = true →
  step (Offer socket to sdp) s = on_offer socket to sdp s.
Proof. intros H. unfold step. cbn [sender]. by rewrite H. Qed.

Lemma step_answer socket to sdp s :
  connected s socket = true →
  step (Answer socket to sdp) s = on_answer socket to sdp s.
Proof. intros H. unfold step. cbn [sender]. by rewrite H. Qed.

Lemma step_ice_candidate socket to candidate s :
  connected s socket = true →
  step (IceCandidate socket to candidate) s = on_ice_candidate socket to candidate s.
Proof. intros H. unfold step. cbn [sender]. by rewrite H. Qed.

Lemma step_disconnect socket s :
  connected s socket = true →
  step (Disconnect socket) s =
  (on_disconnecting socket ;; update (adapter_del_all socket)) s.
Proof. intros H. unfold step. cbn [sender]. by rewrite H. Qed.

Lemma step_not_connected i s :
  (∀ socket auth_name, i ≠ Connect socket auth_name) →
  connected s (sender i) = false →
  step i s = (tt, s, []).
Proof.
  intros Hi H. unfold step. destruct i; try (by rewrite H).
  by destruct (Hi socket auth_name).
Qed.


Lemma on_chat_computed socket r text s :
  r ≠ "" →
  on_chat socket (JStr r) text s =
  (tt, s,
   if decide (chat_text text = "") then []
   else [ {| em_target := IoTo (JStr r);
             em_to := list_to_set (members s r);
             em_event := EvChat (display_name (sockets s !! socket)) socket
                                (chat_text text) |} ]).
Proof.
  intros Hr. unfold on_chat. rewrite (proj2 (js_truthy_str r) Hr).
  cbn [negb is_string orb]. fold (chat_text text).
  case_decide as Hm.
  - rewrite (proj2 (js_falsy_str _) Hm). reflexivity.
  - rewrite (proj2 (js_truthy_str _) Hm). cbn [negb].
    unfold bind, read, emit. cbn [recipients target_rooms].
    by rewrite joined_any_single.
Qed.

Lemma on_chat_invalid_room socket room text s :
  js_truthy room && is_string room = false →
  on_chat socket room text s = (tt, s, []).
Proof.
  intros H. unfold on_chat.
  by destruct (js_truthy room), (is_string room).
Qed.

Lemma on_join_invalid_room socket room now s :
  js_truthy room && is_string room = false →
  on_join socket room now s = (tt, s, []).
Proof.
  intros H. unfold on_join.
  by destruct (js_truthy room), (is_string room).
Qed.

Lemma valid_room_inv room :
  js_truthy room && is_string room = true → ∃ r, room = JStr r ∧ r ≠ "".
Proof.
  intros H. destruct room; cbn [is_string] in H; rewrite ?andb_false_r in H;
    try discriminate.
  apply andb_true_iff in H as [H _]. apply js_truthy_str in H. eauto.
Qed.

Lemma chat_text_string t : chat_text (JStr t) = trim t.
Proof. reflexivity. Qed.

(** ** Joining *)

(** C4: a join with a valid room string sends exactly one [timer-state]
    event; it goes to the joining connection and to no other, and it
    carries the [startedAt] (possibly none) and the [duration] the room's
    record has when the handler is done, whether or not [timer-start]
    fired on this join. *)
Theorem join_sends_one_timer_state socket r now s :
  connected s socket = true →
  r ≠ "" →
  ∃ roomState,
    rooms (state_of (step (Join socket (JStr r) now) s)) !! r = Some roomState ∧
    filter is_timer_state (log_of (step (Join socket (JStr r) now) s)) =
      [ {| em_target := SocketEmit socket;
           em_to := {[socket]};
           em_event := EvTimerState (startedAt roomState) (duration roomState) |} ] ∧
    ∀ other, other ≠ socket →
      filter is_timer_state
        (filter (λ e, other ∈ em_to e) (log_of (step (Join socket (JStr r) now) s))) = [].
Proof.
  intros Hc Hr. rewrite (step_join _ _ _ _ Hc), (on_join_computed _ _ _ _ Hr).
  exists (join_record_after socket r now s). unfold state_of, log_of. cbn [fst snd].
  split; [apply rooms_join_state|].
  split.
  - by destruct (join_fires socket r s).
  - intros other Hne. rewrite filter_app, filter_app.
    assert (filter is_timer_state
      (filter (λ e, other ∈ em_to e)
         (if join_fires socket r s
          then [ {| em_target := IoTo (JStr r);
                    em_to := list_to_set (members (adapter_add socket r s) r);
                    em_event := EvTimerStart (Some now) (duration (join_record_before r s)) |} ]
          else [])) = []) as ->.
    { destruct (join_fires socket r s); [|done].
      rewrite filter_cons. case_decide; done. }
    rewrite !filter_cons, filter_nil. cbn [em_to app].
    rewrite decide_False by (by rewrite elem_of_singleton).
    repeat case_decide; done.
Qed.

Lemma join_sends_one_timer_state_witness :
  let s := state_of (run [Connect "A" (JStr "alice")] init) in
  connected s "A" = true ∧ "r1" ≠ "" ∧
  ∃ roomState,
    rooms (state_of (step (Join "A" (JStr "r1") 1000) s)) !! "r1" = Some roomState ∧
    filter is_timer_state (log_of (step (Join "A" (JStr "r1") 1000) s)) =
      [ {| em_target := SocketEmit "A";
           em_to := {["A"]};
           em_event := EvTimerState (startedAt roomState) (duration roomState) |} ] ∧
    ∀ other, other ≠ "A" →
      filter is_timer_state
        (filter (λ e, other ∈ em_to e) (log_of (step (Join "A" (JStr "r1") 1000) s))) = [].
Proof.
  intros s.
  assert (Hc : connected s "A" = true) by reflexivity.
  assert (Hr : "r1" ≠ "") by discriminate.
  exact (conj Hc (conj Hr (join_sends_one_timer_state "A" "r1" 1000 s Hc Hr))).
Defined.



(** What a join does to the table of records, for every room name.
    When [rooms[r]] finds nothing, a record is created with [startedAt]
    none and [duration] 60; when it finds something, the handler works
    on that and creates nothing.  In both cases the timer rule is all
    that may change it afterwards, and what [rooms] finds under the
    other names is left alone, unless the time stamp is written on
    [Object.prototype]. *)
Lemma join_creates_or_reuses_record socket r now s :
  connected s socket = true →
  r ≠ "" →
  let s1 := adapter_add socket r s in
  let s' := state_of (step (Join socket (JStr r) now) s) in
  (rooms s !! r = None →
     room_state_or_init r s1 =
       ({| startedAt := None; duration := Some 60%Z |},
        store_room r {| startedAt := None; duration := Some 60%Z |} s1, []) ∧
     is_Some (rooms_own s' !! r) ∧
     ∃ roomState, rooms s' !! r = Some roomState ∧ duration roomState = Some 60%Z ∧
       (startedAt roomState = None ∨
        startedAt roomState = Some now ∧ (2 ≤ room_size s' r)%nat)) ∧
  (∀ roomState0, rooms s !! r = Some roomState0 →
     room_state_or_init r s1 = (roomState0, s1, []) ∧
     (∀ k, is_Some (rooms_own s' !! k) ↔ is_Some (rooms_own s !! k)) ∧
     ∃ roomState, rooms s' !! r = Some roomState ∧
       duration roomState = duration roomState0 ∧
       (roomState = roomState0 ∨
        started roomState0 = false ∧ startedAt roomState = Some now ∧
        (2 ≤ room_size s' r)%nat)) ∧
  (∀ r', r' ≠ r → r ≠ "__proto__" → rooms s' !! r' = rooms s !! r').
Proof.
  intros Hc Hr s1 s'. subst s1 s'.
  rewrite (step_join _ _ _ _ Hc), (on_join_computed _ _ _ _ Hr).
  unfold state_of. cbn [fst snd].
  assert (Hfire : join_fires socket r s = true →
            (2 ≤ room_size (join_state socket r now s) r)%nat).
  { rewrite room_size_join_state.
    unfold join_fires. intros [H _]%andb_true_iff. by apply Nat.leb_le in H. }
  split; [|split].
  - intros Hnone. split; [|split].
    + unfold room_state_or_init, bind, read, update, ret.
      change (rooms (adapter_add socket r s)) with (rooms s). by rewrite Hnone.
    + unfold join_state. rewrite Hnone.
      destruct (join_fires socket r s).
      * apply write_startedAt_own_dom. cbn [rooms_own store_room].
        rewrite lookup_insert_eq. eauto.
      * cbn [rooms_own store_room]. rewrite lookup_insert_eq. eauto.
    + exists (join_record_after socket r now s).
      split; [apply rooms_join_state|].
      assert (join_record_before r s = default_room) as Hb
        by (unfold join_record_before; by rewrite Hnone).
      unfold join_record_after. destruct (join_fires socket r s) eqn:F; rewrite Hb.
      * cbn [duration startedAt default_room]. split; [done|]. right.
        split; [done|by apply Hfire].
      * cbn [duration startedAt default_room]. auto.
  - intros rs0 Hsome. split; [|split].
    + unfold room_state_or_init, bind, read, update, ret.
      change (rooms (adapter_add socket r s)) with (rooms s). by rewrite Hsome.
    + intros k. unfold join_state. rewrite Hsome.
      destruct (join_fires socket r s); [|done].
      by rewrite write_startedAt_own_dom.
    + exists (join_record_after socket r now s).
      split; [apply rooms_join_state|].
      assert (join_record_before r s = rs0) as Hb
        by (unfold join_record_before; by rewrite Hsome).
      unfold join_record_after. destruct (join_fires socket r s) eqn:F; rewrite Hb.
      * cbn [duration startedAt]. split; [done|]. right.
        split; [|split; [done|by apply Hfire]].
        unfold join_fires in F. rewrite Hb in F.
        apply andb_true_iff in F as [_ F]. by apply negb_true_iff.
      * auto.
  - intros r' Hne Hp. apply rooms_join_state_other; auto.
Qed.

(** C8 at a failing input: [A] and then [B] join the room named
    [constructor], that no connection has joined before.  [rooms] finds
    the constructor that every object inherits, so that no record is
    created: the table has none under that name before the joins nor
    after them.  The handler works on the inherited object: the
    [timer-state] and [timer-start] events carry no duration, and the
    time stamp is written on that object. *)
Theorem join_inherited_name_creates_no_record :
  let s := state_of (run [Connect "A" (JStr "alice"); Connect "B" JUndefined] init) in
  let s1 := state_of (step (Join "A" (JStr "constructor") 1000) s) in
  let s2 := state_of (step (Join "B" (JStr "constructor") 2000) s1) in
  rooms_own s !! "constructor" = None ∧
  rooms_own s1 !! "constructor" = None ∧
  rooms_own s2 !! "constructor" = None ∧
  members s2 "constructor" = ["A"; "B"] ∧
  delivered "A" (log_of (step (Join "A" (JStr "constructor") 1000) s)) =
    [ EvTimerState None None; EvParticipants [("A", "alice")] ] ∧
  delivered "B" (log_of (step (Join "B" (JStr "constructor") 2000) s1)) =
    [ EvTimerStart (Some 2000%Z) None; EvTimerState (Some 2000%Z) None;
      EvParticipants [("A", "alice"); ("B", "Guest")] ] ∧
  inherited_startedAt s2 !! "constructor" = Some 2000%Z ∧
  delivered "A" (log_of (step (Join "A" (JStr "r1") 1000) s)) =
    [ EvTimerState None (Some 60%Z); EvParticipants [("A", "alice")] ] ∧
  rooms_own (state_of (step (Join "A" (JStr "r1") 1000) s)) !! "r1" =
    Some {| startedAt := None; duration := Some 60%Z |}.
Proof. vm_compute. done. Qed.

(** ** Chat *)

Lemma delivered_single socket t (l : list SocketId) ev :
  delivered socket [ {| em_target := t; em_to := list_to_set l; em_event := ev |} ] =
  if decide (socket ∈ l) then [ev] else [].
Proof.
  rewrite delivered_cons. cbn [em_to em_event].
  destruct (decide (socket ∈ l)) as [H|H].
  - rewrite decide_True; [done|]. by apply elem_of_list_to_set.
  - rewrite decide_False; [done|]. by rewrite elem_of_list_to_set.
Qed.

Lemma chat_text_blank t : chat_text (JStr t) = "" ↔ blank t = true.
Proof. rewrite chat_text_string. apply trim_empty_iff. Qed.

(** [trim] takes away the white space before and after. *)
Lemma trim_split s :
  ∃ before after,
    s = before +:+ trim s +:+ after ∧ blank before = true ∧ blank after = true.
Proof.
  unfold trim.
  destruct (trim_start_split s) as (w1 & Hw1 & Hb1).
  destruct (trim_end_split (trim_start s)) as (w2 & Hw2 & Hb2).
  exists w1, w2. split; [|done]. by rewrite <- Hw2.
Qed.

(** C5: a chat message whose room is a valid room string and whose text
    [String] converts, as it does every string, which it leaves as it
    is: the handler returns, and the state is left as it was.  When the
    converted text is empty or white space only, nothing is emitted.
    Otherwise exactly one [chat { from, name, text }] event is emitted,
    whose text is the converted text without the white space before and
    after it: it is not empty and neither starts nor ends with white
    space.  Every member of the room receives one copy, the sender
    included when it is a member, and no other connection receives
    any. *)
Theorem chat_delivery socket r arg now s :
  connected s socket = true →
  field "room" arg = JStr r →
  r ≠ "" →
  String_throws (nullish_or (field "text" arg) (JStr "")) = false →
  let text := field "text" arg in
  let str := js_String (nullish_or text (JStr "")) in
  let res := step (Chat socket (JStr r) text) s in
  receive socket MsgChat arg now s = Continues res ∧
  (∀ t, text = JStr t → str = t) ∧
  state_of res = s ∧
  (blank str = true → log_of res = []) ∧
  (blank str = false →
     ∃ before msg after,
       str = before +:+ msg +:+ after ∧
       blank before = true ∧ blank after = true ∧
       msg ≠ "" ∧
       starts_clean msg = true ∧ starts_clean (String.rev msg) = true ∧
       msg = trim str ∧
       let ev := EvChat (display_name (sockets s !! socket)) socket msg in
       log_of res =
         [ {| em_target := IoTo (JStr r);
              em_to := list_to_set (members s r);
              em_event := ev |} ] ∧
       ∀ member, delivered member (log_of res) =
                 if decide (member ∈ members s r) then [ev] else []).
Proof.
  intros Hc Hroom Hr Hconv text str res. subst res. split.
  - subst str text. unfold receive. rewrite Hc. cbn [negb].
    destruct arg; try discriminate; cbv zeta; rewrite Hroom, Hconv;
      by rewrite andb_false_r.
  - rewrite (step_chat _ _ _ _ Hc), (on_chat_computed _ _ _ _ Hr).
    unfold state_of, log_of. cbn [fst snd].
    change (chat_text text) with (trim str).
    split; [by intros t ->|]. split; [done|]. split.
    + intros Hb. rewrite decide_True; [done|]. by apply trim_empty_iff.
    + intros Hb.
      assert (trim str ≠ "") as Hne by (rewrite trim_empty_iff; by rewrite Hb).
      rewrite decide_False by done.
      destruct (trim_split str) as (before & after & Hsplit & Hb1 & Hb2).
      destruct (trim_clean str) as [Hc1 Hc2].
      exists before, (trim str), after. split_and!; try done.
      intros member. apply delivered_single.
Qed.

Lemma chat_delivery_witness :
  let s := state_of (run [Connect "A" (JStr "alice"); Connect "B" JUndefined;
                          Join "A" (JStr "r1") 1000; Join "B" (JStr "r1") 2000] init) in
  let said := JObj [("room", JStr "r1"); ("text", JStr "  hi there ")] in
  let blank_text := JObj [("room", JStr "r1"); ("text", JStr "   ")] in
  (connected s "A" = true ∧ field "room" said = JStr "r1" ∧ "r1" ≠ "" ∧
   String_throws (nullish_or (field "text" said) (JStr "")) = false ∧
   let text := field "text" said in
   let str := js_String (nullish_or text (JStr "")) in
   let res := step (Chat "A" (JStr "r1") text) s in
   receive "A" MsgChat said 3000 s = Continues res ∧
   (∀ t, text = JStr t → str = t) ∧
   state_of res = s ∧
   (blank str = true → log_of res = []) ∧
   (blank str = false →
      ∃ before msg after,
        str = before +:+ msg +:+ after ∧
        blank before = true ∧ blank after = true ∧
        msg ≠ "" ∧
        starts_clean msg = true ∧ starts_clean (String.rev msg) = true ∧
        msg = trim str ∧
        let ev := EvChat (display_name (sockets s !! "A")) "A" msg in
        log_of res =
          [ {| em_target := IoTo (JStr "r1");
               em_to := list_to_set (members s "r1");
               em_event := ev |} ] ∧
        ∀ member, delivered member (log_of res) =
                  if decide (member ∈ members s "r1") then [ev] else [])) ∧
  (connected s "A" = true ∧ field "room" blank_text = JStr "r1" ∧ "r1" ≠ "" ∧
   String_throws (nullish_or (field "text" blank_text) (JStr "")) = false ∧
   let text := field "text" blank_text in
   let str := js_String (nullish_or text (JStr "")) in
   let res := step (Chat "A" (JStr "r1") text) s in
   receive "A" MsgChat blank_text 3000 s = Continues res ∧
   (∀ t, text = JStr t → str = t) ∧
   state_of res = s ∧
   (blank str = true → log_of res = []) ∧
   (blank str = false →
      ∃ before msg after,
        str = before +:+ msg +:+ after ∧
        blank before = true ∧ blank after = true ∧
        msg ≠ "" ∧
        starts_clean msg = true ∧ starts_clean (String.rev msg) = true ∧
        msg = trim str ∧
        let ev := EvChat (display_name (sockets s !! "A")) "A" msg in
        log_of res =
          [ {| em_target := IoTo (JStr "r1");
               em_to := list_to_set (members s "r1");
               em_event := ev |} ] ∧
        ∀ member, delivered member (log_of res) =
                  if decide (member ∈ members s "r1") then [ev] else [])).
Proof.
  intros s said blank_text.
  assert (Hc : connected s "A" = true) by reflexivity.
  assert (Hr : "r1" ≠ "") by discriminate.
  assert (Hroom1 : field "room" said = JStr "r1") by reflexivity.
  assert (Ht1 : String_throws (nullish_or (field "text" said) (JStr "")) = false)
    by reflexivity.
  assert (Hroom2 : field "room" blank_text = JStr "r1") by reflexivity.
  assert (Ht2 : String_throws (nullish_or (field "text" blank_text) (JStr "")) = false)
    by reflexivity.
  exact (conj
    (conj Hc (conj Hroom1 (conj Hr (conj Ht1
       (chat_delivery "A" "r1" said 3000 s Hc Hroom1 Hr Ht1)))))
    (conj Hc (conj Hroom2 (conj Hr (conj Ht2
       (chat_delivery "A" "r1" blank_text 3000 s Hc Hroom2 Hr Ht2)))))).
Defined.

(** The text of the scenario: what is before and after the words is
    taken away, what is between them is kept. *)
Example chat_text_example :
  trim "  hi there " = "hi there" ∧ trim "hi" = "hi" ∧ trim "   " = "" ∧
  chat_text (JNum 1000000000000000000000) = "1e+21" ∧
  chat_text (JArr [JNum 1; JNull; JStr " a "]) = "1,, a".
Proof. vm_compute. done. Qed.

(** C10: the sender of a chat message need not be a member of the room
    it names: with a valid room string and a text that is not white
    space only, every member of the room receives the event, and the
    sender, not being a member, receives nothing. *)
Theorem chat_from_non_member socket r t s :
  connected s socket = true →
  r ≠ "" →
  blank t = false →
  socket ∉ members s r →
  let res := step (Chat socket (JStr r) (JStr t)) s in
  let ev := EvChat (display_name (sockets s !! socket)) socket (trim t) in
  (∀ member, member ∈ members s r → delivered member (log_of res) = [ev]) ∧
  delivered socket (log_of res) = [] ∧
  state_of res = s.
Proof.
  intros Hc Hr Hb Hnot res ev. subst res ev.
  rewrite (step_chat _ _ _ _ Hc), (on_chat_computed _ _ _ _ Hr).
  unfold state_of, log_of. cbn [fst snd].
  rewrite decide_False by (rewrite chat_text_blank; by rewrite Hb).
  rewrite chat_text_string. split; [|split; [|done]].
  - intros member Hm. rewrite delivered_single. by rewrite decide_True.
  - rewrite delivered_single. by rewrite decide_False.
Qed.

Lemma chat_from_non_member_witness :
  let s := state_of (run [Connect "A" (JStr "alice"); Connect "B" JUndefined;
                          Connect "C" (JStr "carol");
                          Join "A" (JStr "r1") 1000; Join "B" (JStr "r1") 2000] init) in
  connected s "C" = true ∧ "r1" ≠ "" ∧ blank "hi" = false ∧
  ("C" ∉ members s "r1") ∧
  let res := step (Chat "C" (JStr "r1") (JStr "hi")) s in
  let ev := EvChat (display_name (sockets s !! "C")) "C" (trim "hi") in
  (∀ member, member ∈ members s "r1" → delivered member (log_of res) = [ev]) ∧
  delivered "C" (log_of res) = [] ∧
  state_of res = s.
Proof.
  intros s.
  assert (Hc : connected s "C" = true) by reflexivity.
  assert (Hr : "r1" ≠ "") by discriminate.
  assert (Hb : blank "hi" = false) by reflexivity.
  assert (Hn : "C" ∉ members s "r1").
  { vm_compute. intros H. apply list_elem_of_In in H. cbn in H.
    destruct H as [H|[H|[]]]; discriminate. }
  exact (conj Hc (conj Hr (conj Hb (conj Hn
           (chat_from_non_member "C" "r1" "hi" s Hc Hr Hb Hn))))).
Defined.

(** ** Relay and dropped messages *)

Lemma joined_any_empty s rs :
  (∀ r, r ∈ rs → members s r = []) → joined_any s rs = ∅.
Proof.
  unfold joined_any. induction rs as [|r rs IH]; intros H; [done|].
  cbn. rewrite (H r) by apply list_elem_of_here. cbn.
  apply IH. intros r' Hr'. apply H. by apply list_elem_of_further.
Qed.

Lemma silent_nil : silent [].
Proof. by intros socket. Qed.

Lemma silent_to_nobody t ev : silent [ {| em_target := t; em_to := ∅; em_event := ev |} ].
Proof.
  intros socket. rewrite delivered_cons. cbn [em_to].
  rewrite decide_False; [done|]. apply not_elem_of_empty.
Qed.

(** [io.to(to)] with a target other than the empty array reaches the
    members of the rooms it names. *)
Lemma recipients_io_to s to :
  to ≠ JArr [] → recipients s (IoTo to) = joined_any s (target_rooms to).
Proof. intros H. destruct to as [| | | | |[|e elems]|]; done. Qed.

Lemma relay_unroutable s to ev :
  to ≠ JArr [] →
  (∀ r, r ∈ target_rooms to → members s r = []) →
  silent (log_of (emit (IoTo to) ev s)).
Proof.
  intros Hto H. unfold emit, log_of. cbn [snd].
  rewrite (recipients_io_to _ _ Hto), (joined_any_empty _ _ H).
  apply silent_to_nobody.
Qed.

(** A message whose argument can be destructured is handled on its
    fields. *)
Lemma receive_destructured socket msg arg now s :
  connected s socket = true →
  arg ≠ JUndefined → arg ≠ JNull →
  receive socket msg arg now s =
  match msg with
  | MsgJoin => Continues (on_join socket (field "room" arg) now s)
  | MsgChat =>
      if js_truthy (field "room" arg) && is_string (field "room" arg) &&
         String_throws (nullish_or (field "text" arg) (JStr ""))
      then Exits
      else Continues (on_chat socket (field "room" arg) (field "text" arg) s)
  | MsgOffer => Continues (on_offer socket (field "to" arg) (field "sdp" arg) s)
  | MsgAnswer => Continues (on_answer socket (field "to" arg) (field "sdp" arg) s)
  | MsgIceCandidate =>
      Continues (on_ice_candidate socket (field "to" arg) (field "candidate" arg) s)
  end.
Proof.
  intros Hc H1 H2. unfold receive. rewrite Hc. cbn [negb].
  destruct arg; try done; destruct msg;
    rewrite ?(step_join _ _ _ _ Hc), ?(step_chat _ _ _ _ Hc), ?(step_offer _ _ _ _ Hc),
      ?(step_answer _ _ _ _ Hc), ?(step_ice_candidate _ _ _ _ Hc); reflexivity.
Qed.

(** C6, as the code has it, for a message that comes with an argument,
    which is any value but [undefined] and [null].  A relay message
    whose target or payload is missing or otherwise falsy emits nothing,
    and one whose target is not the empty array and selects no room that
    has members is delivered to nobody; a join or a chat whose room is
    missing, empty or not a string emits nothing, and so does a chat
    whose text is missing, empty or white space only.  In each case the
    handler returns, and the state of the rooms and of the connections
    is what it was, the sender still being connected. *)
Theorem dropped_messages socket arg now s :
  connected s socket = true →
  arg ≠ JUndefined →
  arg ≠ JNull →
  let to := field "to" arg in
  let room := field "room" arg in
  let text := field "text" arg in
  (∀ msg payload,
     (msg, payload) ∈ [ (MsgOffer, field "sdp" arg); (MsgAnswer, field "sdp" arg);
                        (MsgIceCandidate, field "candidate" arg) ] →
     (js_truthy to && js_truthy payload = false →
      receive socket msg arg now s = Continues (tt, s, [])) ∧
     (to ≠ JArr [] → (∀ r, r ∈ target_rooms to → members s r = []) →
      ∃ log, receive socket msg arg now s = Continues (tt, s, log) ∧ silent log)) ∧
  (js_truthy room && is_string room = false →
     receive socket MsgJoin arg now s = Continues (tt, s, []) ∧
     receive socket MsgChat arg now s = Continues (tt, s, [])) ∧
  (text = JUndefined ∨ text = JNull ∨ (∃ t, text = JStr t ∧ blank t = true) →
     receive socket MsgChat arg now s = Continues (tt, s, [])).
Proof.
  intros Hc Hu Hn to room text. subst to room text. split_and!.
  - intros msg payload Hin.
    assert ((msg = MsgOffer ∧ payload = field "sdp" arg) ∨
            (msg = MsgAnswer ∧ payload = field "sdp" arg) ∨
            (msg = MsgIceCandidate ∧ payload = field "candidate" arg)) as Hcases.
    { apply list_elem_of_In in Hin. cbn in Hin.
      destruct Hin as [[= <- <-]|[[= <- <-]|[[= <- <-]|[]]]]; auto. }
    destruct Hcases as [[-> ->]|[[-> ->]|[-> ->]]];
      rewrite (receive_destructured _ _ _ _ _ Hc Hu Hn);
      unfold on_offer, on_answer, on_ice_candidate.
    + split; [by intros ->|]. intros Hto Hnone.
      destruct (js_truthy _ && js_truthy _).
      * eexists. split; [reflexivity|].
        apply (relay_unroutable s _ (EvOffer socket (field "sdp" arg)) Hto Hnone).
      * eexists. split; [reflexivity|apply silent_nil].
    + split; [by intros ->|]. intros Hto Hnone.
      destruct (js_truthy _ && js_truthy _).
      * eexists. split; [reflexivity|].
        apply (relay_unroutable s _ (EvAnswer socket (field "sdp" arg)) Hto Hnone).
      * eexists. split; [reflexivity|apply silent_nil].
    + split; [by intros ->|]. intros Hto Hnone.
      destruct (js_truthy _ && js_truthy _).
      * eexists. split; [reflexivity|].
        apply (relay_unroutable s _ (EvIceCandidate socket (field "candidate" arg)) Hto Hnone).
      * eexists. split; [reflexivity|apply silent_nil].
  - intros H. rewrite !(receive_destructured _ _ _ _ _ Hc Hu Hn), H. cbn [andb].
    by rewrite on_join_invalid_room, on_chat_invalid_room.
  - intros H. rewrite (receive_destructured _ _ _ _ _ Hc Hu Hn).
    assert (String_throws (nullish_or (field "text" arg) (JStr "")) = false) as ->.
    { destruct H as [->|[->|(t & -> & _)]]; done. }
    rewrite andb_false_r. f_equal.
    destruct (js_truthy (field "room" arg) && is_string (field "room" arg)) eqn:Hroom;
      [|by apply on_chat_invalid_room].
    apply valid_room_inv in Hroom as (r & -> & Hr).
    rewrite (on_chat_computed _ _ _ _ Hr).
    rewrite decide_True; [done|].
    destruct H as [->|[->|(t & -> & Hb)]]; [done|done|by apply chat_text_blank].
Qed.

Lemma dropped_messages_witness :
  let no_payload := JObj [("to", JStr "B"); ("sdp", JStr "")] in
  let no_target := JObj [("to", JStr "nobody"); ("sdp", JStr "v=0");
                         ("candidate", JStr "c"); ("room", JNum 1)] in
  (connected two_in_room "A" = true ∧ no_payload ≠ JUndefined ∧ no_payload ≠ JNull ∧
   let to := field "to" no_payload in
   let room := field "room" no_payload in
   let text := field "text" no_payload in
   (∀ msg payload,
      (msg, payload) ∈ [ (MsgOffer, field "sdp" no_payload); (MsgAnswer, field "sdp" no_payload);
                         (MsgIceCandidate, field "candidate" no_payload) ] →
      (js_truthy to && js_truthy payload = false →
       receive "A" msg no_payload 3000 two_in_room = Continues (tt, two_in_room, [])) ∧
      (to ≠ JArr [] → (∀ r, r ∈ target_rooms to → members two_in_room r = []) →
       ∃ log, receive "A" msg no_payload 3000 two_in_room = Continues (tt, two_in_room, log) ∧
              silent log)) ∧
   (js_truthy room && is_string room = false →
      receive "A" MsgJoin no_payload 3000 two_in_room = Continues (tt, two_in_room, []) ∧
      receive "A" MsgChat no_payload 3000 two_in_room = Continues (tt, two_in_room, [])) ∧
   (text = JUndefined ∨ text = JNull ∨ (∃ t, text = JStr t ∧ blank t = true) →
      receive "A" MsgChat no_payload 3000 two_in_room = Continues (tt, two_in_room, []))) ∧
  (connected two_in_room "A" = true ∧ no_target ≠ JUndefined ∧ no_target ≠ JNull ∧
   let to := field "to" no_target in
   let room := field "room" no_target in
   let text := field "text" no_target in
   (∀ msg payload,
      (msg, payload) ∈ [ (MsgOffer, field "sdp" no_target); (MsgAnswer, field "sdp" no_target);
                         (MsgIceCandidate, field "candidate" no_target) ] →
      (js_truthy to && js_truthy payload = false →
       receive "A" msg no_target 3000 two_in_room = Continues (tt, two_in_room, [])) ∧
      (to ≠ JArr [] → (∀ r, r ∈ target_rooms to → members two_in_room r = []) →
       ∃ log, receive "A" msg no_target 3000 two_in_room = Continues (tt, two_in_room, log) ∧
              silent log)) ∧
   (js_truthy room && is_string room = false →
      receive "A" MsgJoin no_target 3000 two_in_room = Continues (tt, two_in_room, []) ∧
      receive "A" MsgChat no_target 3000 two_in_room = Continues (tt, two_in_room, [])) ∧
   (text = JUndefined ∨ text = JNull ∨ (∃ t, text = JStr t ∧ blank t = true) →
      receive "A" MsgChat no_target 3000 two_in_room = Continues (tt, two_in_room, []))).
Proof.
  intros no_payload no_target.
  assert (Hc : connected two_in_room "A" = true) by reflexivity.
  assert (Hu1 : no_payload ≠ JUndefined) by discriminate.
  assert (Hn1 : no_payload ≠ JNull) by discriminate.
  assert (Hu2 : no_target ≠ JUndefined) by discriminate.
  assert (Hn2 : no_target ≠ JNull) by discriminate.
  exact (conj
    (conj Hc (conj Hu1 (conj Hn1 (dropped_messages "A" no_payload 3000 two_in_room Hc Hu1 Hn1))))
    (conj Hc (conj Hu2 (conj Hn2 (dropped_messages "A" no_target 3000 two_in_room Hc Hu2 Hn2))))).
Defined.

(** C6 as stated does not hold.  A target that names a room, and no live
    connection, is relayed to the members of that room; a chat text of
    another type than string is converted and broadcast. *)
Lemma relay_to_room_name_is_delivered :
  connected two_in_room "A" = true ∧
  connected two_in_room "r1" = false ∧
  delivered "B" (log_of (step (Offer "A" (JStr "r1") (JStr "sdp")) two_in_room)) =
    [ EvOffer "A" (JStr "sdp") ] ∧
  delivered "B" (log_of (step (Chat "A" (JStr "r1") (JNum 5)) two_in_room)) =
    [ EvChat "alice" "A" "5" ].
Proof. vm_compute. done. Qed.

(** ** Runs *)

Lemma run_nil s : run [] s = (tt, s, []).
Proof. reflexivity. Qed.

Lemma run_cons i tr s :
  run (i :: tr) s =
  (tt, state_of (run tr (state_of (step i s))),
   log_of (step i s) ++ log_of (run tr (state_of (step i s)))).
Proof.
  unfold run. cbn [for_each]. unfold bind, state_of, log_of.
  destruct (step i s) as [[[] s1] l1]. cbn [fst snd].
  by destruct (for_each tr step s1) as [[[] s2] l2].
Qed.

Lemma run_snoc tr i s :
  run (tr ++ [i]) s =
  (tt, state_of (step i (state_of (run tr s))),
   log_of (run tr s) ++ log_of (step i (state_of (run tr s)))).
Proof.
  revert s. induction tr as [|j tr IH]; intros s.
  - cbn [app]. rewrite run_cons, !run_nil. unfold state_of, log_of. cbn [fst snd].
    by rewrite app_nil_r.
  - cbn [app]. rewrite !run_cons, IH. unfold state_of, log_of. cbn [fst snd].
    by rewrite app_assoc.
Qed.

Lemma clocks_ok_snoc tr i : clocks_ok (tr ++ [i]) = clocks_ok tr && clock_ok i.
Proof. unfold clocks_ok. rewrite forallb_app. cbn. by rewrite andb_true_r. Qed.

(** ** The adapter *)

Lemma socket_rooms_adapter_add socket r s socket' :
  socket_rooms (adapter_add socket r s) socket' =
  if decide (socket = socket') then set_add r (socket_rooms s socket)
  else socket_rooms s socket'.
Proof.
  unfold socket_rooms at 1. cbn. rewrite lookup_insert. by case_decide.
Qed.

Lemma members_adapter_add_mono socket r s x room :
  x ∈ members s room → x ∈ members (adapter_add socket r s) room.
Proof.
  intros H. rewrite members_adapter_add. case_decide as E; [|done].
  subst. apply elem_of_set_add. by right.
Qed.

Lemma set_add_nil x : set_add x [] = [x].
Proof. unfold set_add. rewrite decide_False; [done|]. apply not_elem_of_nil. Qed.

Lemma set_add_elem x l : x ∈ l → set_add x l = l.
Proof. intros H. unfold set_add. by rewrite decide_True. Qed.

Lemma set_delete_idemp x l : set_delete x (set_delete x l) = set_delete x l.
Proof.
  unfold set_delete. induction l as [|y l IH]; [done|].
  rewrite filter_cons. case_decide.
  - rewrite filter_cons, decide_True by done. by rewrite IH.
  - done.
Qed.

Lemma elem_of_set_delete y x l : y ∈ set_delete x l ↔ y ∈ l ∧ y ≠ x.
Proof. unfold set_delete. rewrite list_elem_of_filter. tauto. Qed.

Lemma length_set_delete x l : (length (set_delete x l) ≤ length l)%nat.
Proof. apply length_filter. Qed.

Lemma NoDup_set_delete x l : NoDup l → NoDup (set_delete x l).
Proof. apply NoDup_filter. Qed.

Lemma adapter_del_lookup socket m a r :
  default [] (adapter_del socket m a !! r) =
  if decide (r = a) then set_delete socket (default [] (m !! r))
  else default [] (m !! r).
Proof.
  unfold adapter_del. destruct (m !! a) as [ids|] eqn:Ha.
  - destruct (set_delete socket ids) as [|y ids'] eqn:Hd.
    + rewrite lookup_delete. case_decide as E; case_decide as E'; subst; try done.
      by rewrite Ha.
    + rewrite lookup_insert. case_decide as E; case_decide as E'; subst; try done.
      by rewrite Ha.
  - case_decide as E; [|done]. subst. by rewrite Ha.
Qed.

Lemma adapter_del_all_lookup socket rs m r :
  default [] (foldl (adapter_del socket) m rs !! r) =
  if decide (r ∈ rs) then set_delete socket (default [] (m !! r))
  else default [] (m !! r).
Proof.
  revert m. induction rs as [|a rs IH]; intros m.
  - cbn. rewrite decide_False; [done|]. apply not_elem_of_nil.
  - cbn [foldl]. rewrite IH, adapter_del_lookup.
    destruct (decide (r = a)) as [->|Hne].
    + rewrite (decide_True (P := a ∈ a :: rs)) by apply list_elem_of_here.
      case_decide; [apply set_delete_idemp|done].
    + case_decide as Hin.
      * rewrite decide_True; [done|]. by apply list_elem_of_further.
      * rewrite decide_False; [done|]. rewrite elem_of_cons. tauto.
Qed.

Lemma members_adapter_del_all socket s r :
  members (adapter_del_all socket s) r =
  if decide (r ∈ socket_rooms s socket) then set_delete socket (members s r)
  else members s r.
Proof. unfold members at 1. cbn. apply adapter_del_all_lookup. Qed.

Lemma socket_rooms_adapter_del_all socket s socket' :
  socket_rooms (adapter_del_all socket s) socket' =
  if decide (socket = socket') then [] else socket_rooms s socket'.
Proof.
  unfold socket_rooms at 1. cbn. rewrite lookup_delete. by case_decide.
Qed.

(** ** The disconnecting handler *)

Lemma on_disconnecting_room_computed socket room s :
  room ≠ socket →
  room_size s room ≠ 0%nat →
  on_disconnecting_room socket room s =
  (tt, s, [ {| em_target := IoTo (JStr room);
               em_to := list_to_set (members s room);
               em_event := EvParticipants (participants_of s (members s room)) |} ]).
Proof.
  intros Hne Hsz. unfold on_disconnecting_room. rewrite decide_False by done.
  unfold bind. rewrite broadcastParticipants_computed. unfold read. cbn [fst snd].
  apply Nat.eqb_neq in Hsz. rewrite Hsz. unfold ret. cbn. reflexivity.
Qed.

Lemma on_disconnecting_room_own socket s :
  on_disconnecting_room socket socket s = (tt, s, []).
Proof. unfold on_disconnecting_room. by rewrite decide_True. Qed.

(** The loop of the handler over rooms that all still have a member:
    one participants event per room other than the connection's own, and
    no change of state. *)
Lemma on_disconnecting_loop socket l s :
  (∀ room, room ∈ l → room ≠ socket → room_size s room ≠ 0%nat) →
  for_each l (on_disconnecting_room socket) s =
  (tt, s,
   map (λ room, {| em_target := IoTo (JStr room);
                   em_to := list_to_set (members s room);
                   em_event := EvParticipants (participants_of s (members s room)) |})
       (filter (λ room, room ≠ socket) l)).
Proof.
  induction l as [|room l IH]; intros H; [done|].
  assert (IH' := IH (λ room' Hin, H room' (list_elem_of_further _ _ _ Hin))).
  cbn [for_each]. unfold bind.
  rewrite filter_cons. destruct (decide (room = socket)) as [->|Hne].
  - rewrite on_disconnecting_room_own, IH'.
    by rewrite decide_False by (by intros []).
  - rewrite on_disconnecting_room_computed; [|done|apply H; [apply list_elem_of_here|done]].
    rewrite decide_True by done. by rewrite IH'.
Qed.

Lemma rooms_inv_room_size s socket room :
  rooms_inv s → room ∈ socket_rooms s socket → room_size s room ≠ 0%nat.
Proof.
  intros Hinv Hin. apply Hinv in Hin. unfold room_size.
  destruct (members s room); [by apply not_elem_of_nil in Hin|done].
Qed.

(** In a state where [socket.rooms] agrees with the adapter, closing a
    connection emits one participants event per room it joined, computed
    while it is still a member, and then removes it from its rooms. *)
Lemma step_disconnect_computed socket s :
  rooms_inv s →
  connected s socket = true →
  step (Disconnect socket) s =
  (tt, adapter_del_all socket s,
   map (λ room, {| em_target := IoTo (JStr room);
                   em_to := list_to_set (members s room);
                   em_event := EvParticipants (participants_of s (members s room)) |})
       (filter (λ room, room ≠ socket) (socket_rooms s socket))).
Proof.
  intros Hinv Hc. rewrite (step_disconnect _ _ Hc).
  unfold bind at 1. unfold on_disconnecting, bind, read. cbn [fst snd].
  rewrite on_disconnecting_loop
    by (intros room Hin _; by eapply rooms_inv_room_size).
  unfold update. cbn. by rewrite app_nil_r.
Qed.

(** ** The invariants hold in every reachable state *)

Lemma consistent_init : consistent init.
Proof.
  assert (Hm : ∀ r, members init r = []).
  { intros r. unfold members, init. cbn. by rewrite lookup_empty. }
  split.
  - intros socket r H. unfold socket_rooms, init in H. cbn in H.
    rewrite lookup_empty in H. by apply not_elem_of_nil in H.
  - intros r H. unfold room_size in H. rewrite Hm in H. cbn in H. lia.
  - intros r rs H. by rewrite (rooms_init_lookup _ _ H).
  - intros r. rewrite Hm. apply NoDup_nil_2.
Qed.

Lemma rooms_inv_adapter_add socket r s :
  rooms_inv s → rooms_inv (adapter_add socket r s).
Proof.
  intros Hinv socket' r'. rewrite socket_rooms_adapter_add.
  case_decide as E.
  - subst socket'. intros [->|Hin]%elem_of_set_add.
    + rewrite members_adapter_add, decide_True by done.
      apply elem_of_set_add. by left.
    + apply members_adapter_add_mono. by apply Hinv.
  - intros Hin. apply members_adapter_add_mono. by apply Hinv.
Qed.

Lemma nodup_inv_adapter_add socket r s :
  nodup_inv s → nodup_inv (adapter_add socket r s).
Proof.
  intros Hinv r'. rewrite members_adapter_add. case_decide; [|done].
  by apply NoDup_set_add.
Qed.

Lemma consistent_connection socket auth_name s :
  fresh_id s socket = true →
  consistent s → consistent (on_connection socket auth_name s).
Proof.
  intros Hfresh [H1 H2 H3 H4].
  apply andb_true_iff in Hfresh as [_ Hfresh]. apply bool_decide_eq_true in Hfresh.
  unfold on_connection.
  set (s0 := {| sockets := <[socket:=auth_name]> (sockets s);
                adapter_rooms := adapter_rooms s;
                adapter_sids := adapter_sids s; rooms_own := rooms_own s;
                inherited_startedAt := inherited_startedAt s |}).
  split.
  - by apply rooms_inv_adapter_add.
  - intros r Hsz. unfold room_size in Hsz. rewrite members_adapter_add in Hsz.
    case_decide as E.
    + subst r. change (members s0 socket) with (members s socket) in Hsz.
      rewrite Hfresh, set_add_nil in Hsz. cbn in Hsz. lia.
    + by apply H2.
  - exact H3.
  - by apply nodup_inv_adapter_add.
Qed.

Lemma join_record_after_started socket r now s :
  (now ≠ 0)%Z →
  (2 ≤ room_size (adapter_add socket r s) r)%nat →
  started (join_record_after socket r now s) = true.
Proof.
  intros Hnow Hsz. unfold join_record_after, join_fires.
  apply Nat.leb_le in Hsz. rewrite Hsz. cbn [andb].
  destruct (started (join_record_before r s)) eqn:E; cbn [negb]; [done|].
  unfold started. cbn. apply negb_true_iff. by apply Z.eqb_neq.
Qed.

Lemma consistent_join socket r now s :
  (now ≠ 0)%Z →
  consistent s →
  consistent (join_state socket r now s).
Proof.
  intros Hnow [H1 H2 H3 H4]. split.
  - intros socket' r'. rewrite socket_rooms_join_state, members_join_state.
    by apply rooms_inv_adapter_add.
  - intros r' Hsz. rewrite room_size_join_state in Hsz.
    destruct (decide (r' = r)) as [->|E].
    + eexists. split; [apply rooms_join_state|]. by apply join_record_after_started.
    + unfold room_size in Hsz. rewrite members_adapter_add, decide_False in Hsz by done.
      destruct (H2 r' Hsz) as (rs & Hrs & Hst).
      exists rs. split; [|done]. by apply rooms_join_state_started.
  - intros r' rs H. apply rooms_join_state_origin in H as [H|[->|H]].
    + by eapply H3.
    + done.
    + rewrite H. congruence.
  - intros r'. rewrite members_join_state. by apply nodup_inv_adapter_add.
Qed.

Lemma consistent_disconnect socket s :
  consistent s → consistent (adapter_del_all socket s).
Proof.
  intros [H1 H2 H3 H4]. split.
  - intros socket' r. rewrite socket_rooms_adapter_del_all.
    case_decide as E; [by intros ?%not_elem_of_nil|].
    intros Hin. rewrite members_adapter_del_all.
    case_decide; [|by apply H1].
    apply elem_of_set_delete. split; [by apply H1|done].
  - intros r Hsz. apply (H2 r). unfold room_size in *.
    rewrite members_adapter_del_all in Hsz. case_decide; [|done].
    pose proof (length_set_delete socket (members s r)). lia.
  - exact H3.
  - intros r. rewrite members_adapter_del_all. case_decide; [|done].
    by apply NoDup_set_delete.
Qed.

(** Chat and relay messages leave the state alone. *)
Lemma step_chat_relay_state i s :
  match i with
  | Chat _ _ _ | Offer _ _ _ | Answer _ _ _ | IceCandidate _ _ _ => True
  | _ => False
  end →
  state_of (step i s) = s.
Proof.
  destruct i; try done; intros _; unfold step; cbn [sender];
    destruct (connected s socket); cbn [negb]; try done.
  - unfold on_chat.
    destruct (negb (js_truthy room) || negb (is_string room)); [done|].
    by destruct (negb (js_truthy _)).
  - unfold on_offer. by destruct (js_truthy to && js_truthy sdp).
  - unfold on_answer. by destruct (js_truthy to && js_truthy sdp).
  - unfold on_ice_candidate. by destruct (js_truthy to && js_truthy candidate).
Qed.

Lemma consistent_step i s :
  clock_ok i = true → consistent s → consistent (state_of (step i s)).
Proof.
  intros Hclock Hs. destruct i; try (by rewrite step_chat_relay_state).
  - unfold step. destruct (fresh_id s socket) eqn:Hf; [|done].
    by apply consistent_connection.
  - destruct (connected s socket) eqn:Hc;
      [|by rewrite step_not_connected].
    rewrite (step_join _ _ _ _ Hc).
    destruct (js_truthy room && is_string room) eqn:Hroom;
      [|by rewrite on_join_invalid_room].
    apply valid_room_inv in Hroom as (r & -> & Hr).
    rewrite (on_join_computed _ _ _ _ Hr). unfold state_of. cbn [fst snd].
    apply consistent_join; [|done].
    cbn in Hclock. apply negb_true_iff in Hclock. by apply Z.eqb_neq.
  - destruct (connected s socket) eqn:Hc;
      [|by rewrite step_not_connected].
    rewrite (step_disconnect_computed _ _ (cons_rooms _ Hs) Hc).
    by apply consistent_disconnect.
Qed.

Lemma consistent_run tr s :
  clocks_ok tr = true → consistent s → consistent (state_of (run tr s)).
Proof.
  revert s. induction tr as [|i tr IH]; intros s Hok Hs; [done|].
  cbn in Hok. apply andb_true_iff in Hok as [Hi Hok].
  rewrite run_cons. unfold state_of at 1. cbn [fst snd].
  apply IH; [done|]. by apply consistent_step.
Qed.

Lemma consistent_reachable tr :
  clocks_ok tr = true → consistent (state_of (run tr init)).
Proof. intros H. apply consistent_run; [done|apply consistent_init]. Qed.

(** ** The meeting timer *)

Lemma timer_starts_app r l1 l2 :
  timer_starts r (l1 ++ l2) = (timer_starts r l1 + timer_starts r l2)%nat.
Proof. unfold timer_starts. by rewrite filter_app, length_app. Qed.

Lemma timer_starts_none r log :
  Forall (λ e, is_timer_start_to r e = false) log → timer_starts r log = 0%nat.
Proof.
  unfold timer_starts. induction 1 as [|e log He _ IH]; [done|].
  rewrite filter_cons, decide_False; [done|]. rewrite He. cbn. tauto.
Qed.

Lemma timer_starts_participants r (f : Room → list SocketId) (g : Room → list (SocketId * string)) l :
  timer_starts r
    (map (λ room, {| em_target := IoTo (JStr room); em_to := list_to_set (f room);
                     em_event := EvParticipants (g room) |}) l) = 0%nat.
Proof.
  apply timer_starts_none, Forall_forall. intros e Hin.
  apply list_elem_of_fmap in Hin as (room & -> & _). done.
Qed.

(** Only the join handler emits [timer-start]. *)
Lemma step_other_no_timer_start r i s :
  rooms_inv s →
  (∀ socket room now, i ≠ Join socket room now) →
  timer_starts r (log_of (step i s)) = 0%nat.
Proof.
  intros Hinv Hi. destruct i.
  - unfold step. by destruct (fresh_id s socket).
  - by destruct (Hi socket room now).
  - destruct (connected s socket) eqn:Hc; [|by rewrite step_not_connected].
    rewrite (step_chat _ _ _ _ Hc). unfold on_chat.
    destruct (negb (js_truthy room) || negb (is_string room)); [done|].
    destruct (negb (js_truthy _)); [done|].
    apply timer_starts_none. by repeat constructor.
  - destruct (connected s socket) eqn:Hc; [|by rewrite step_not_connected].
    rewrite (step_offer _ _ _ _ Hc). unfold on_offer.
    destruct (js_truthy to && js_truthy sdp); [|done].
    apply timer_starts_none. by repeat constructor.
  - destruct (connected s socket) eqn:Hc; [|by rewrite step_not_connected].
    rewrite (step_answer _ _ _ _ Hc). unfold on_answer.
    destruct (js_truthy to && js_truthy sdp); [|done].
    apply timer_starts_none. by repeat constructor.
  - destruct (connected s socket) eqn:Hc; [|by rewrite step_not_connected].
    rewrite (step_ice_candidate _ _ _ _ Hc). unfold on_ice_candidate.
    destruct (js_truthy to && js_truthy candidate); [|done].
    apply timer_starts_none. by repeat constructor.
  - destruct (connected s socket) eqn:Hc; [|by rewrite step_not_connected].
    rewrite (step_disconnect_computed _ _ Hinv Hc). unfold log_of. cbn [snd].
    apply timer_starts_participants.
Qed.

(** The join handler emits [timer-start] to the room joined, once, when
    the timer rule fires, and not otherwise. *)
Lemma join_timer_starts r socket r0 now s :
  r0 ≠ "" →
  timer_starts r (log_of (on_join socket (JStr r0) now s)) =
  if join_fires socket r0 s && bool_decide (r = r0) then 1%nat else 0%nat.
Proof.
  intros Hr0. rewrite (on_join_computed _ _ _ _ Hr0). unfold log_of. cbn [snd].
  rewrite timer_starts_app.
  replace (timer_starts r [_; _; _]) with 0%nat by done.
  rewrite Nat.add_0_r.
  destruct (join_fires socket r0 s); cbn [andb]; [|done].
  unfold timer_starts. rewrite filter_cons. cbn [is_timer_start_to em_target em_event].
  destruct (decide (r = r0)) as [->|Hne].
  - rewrite bool_decide_eq_true_2 by done.
    rewrite decide_True; [done|]. by rewrite String.eqb_refl.
  - rewrite bool_decide_eq_false_2 by done.
    rewrite decide_False; [done|].
    apply String.eqb_neq in Hne. rewrite Hne. cbn. tauto.
Qed.

(** What the rule's firing means in a reachable state: the room had
    fewer than two members and no time stamp before the join, and has
    two members or more and the stamp [now] after it. *)
Lemma join_fires_threshold socket r now s :
  consistent s →
  join_fires socket r s = true →
  let s' := join_state socket r now s in
  (room_size s r < 2 ≤ room_size s' r)%nat ∧
  room_startedAt s r = None ∧
  room_startedAt s' r = Some now.
Proof.
  intros Hs Hfire s'. subst s'. rewrite room_size_join_state.
  pose proof Hfire as Hfire'.
  unfold join_fires in Hfire'. apply andb_true_iff in Hfire' as [Hsz Hns].
  apply Nat.leb_le in Hsz. apply negb_true_iff in Hns.
  split_and!.
  - destruct (decide (2 ≤ room_size s r)%nat) as [Hge|]; [|lia].
    apply (cons_timer _ Hs) in Hge as (rs & Hrs & Hst).
    unfold join_record_before in Hns. rewrite Hrs in Hns. cbn in Hns. congruence.
  - done.
  - unfold room_startedAt, join_record_before in *.
    destruct (rooms s !! r) as [rs|] eqn:Hrs; [|done]. cbn in *.
    pose proof (cons_stamp _ Hs _ _ Hrs) as Hz.
    unfold started in Hns. destruct (startedAt rs) as [t|]; [|done].
    apply negb_false_iff, Z.eqb_eq in Hns. congruence.
  - unfold room_startedAt. rewrite rooms_join_state.
    unfold join_record_after. by rewrite Hfire.
Qed.

(** A record with a time stamp is never touched again. *)
Lemma step_keeps_started_record r rs t i s :
  consistent s →
  rooms s !! r = Some rs →
  startedAt rs = Some t →
  rooms (state_of (step i s)) !! r = Some rs.
Proof.
  intros Hs Hrs Ht.
  assert (Hst : started rs = true).
  { pose proof (cons_stamp _ Hs _ _ Hrs) as Hz. unfold started. rewrite Ht.
    apply negb_true_iff, Z.eqb_neq. congruence. }
  destruct i; try (by rewrite step_chat_relay_state).
  - unfold step. by destruct (fresh_id s socket).
  - destruct (connected s socket) eqn:Hc; [|by rewrite step_not_connected].
    rewrite (step_join _ _ _ _ Hc).
    destruct (js_truthy room && is_string room) eqn:Hroom;
      [|by rewrite on_join_invalid_room].
    apply valid_room_inv in Hroom as (r0 & -> & Hr0).
    rewrite (on_join_computed _ _ _ _ Hr0). unfold state_of. cbn [fst snd].
    by apply rooms_join_state_started.
  - destruct (connected s socket) eqn:Hc; [|by rewrite step_not_connected].
    by rewrite (step_disconnect_computed _ _ (cons_rooms _ Hs) Hc).
Qed.

Lemma step_keeps_started r i s :
  consistent s → room_started s r = true → room_started (state_of (step i s)) r = true.
Proof.
  intros Hs. unfold room_started. destruct (rooms s !! r) as [rs|] eqn:Hrs; [|done].
  intros Hst. destruct (startedAt rs) as [t|] eqn:Ht.
  - by rewrite (step_keeps_started_record _ _ _ _ _ Hs Hrs Ht).
  - unfold started in Hst. by rewrite Ht in Hst.
Qed.

(** One step emits [timer-start] to a room at most once; when it does,
    the step is a join to that room on which the rule fires. *)
Lemma step_timer_starts r i s :
  consistent s →
  (timer_starts r (log_of (step i s)) ≤ 1)%nat ∧
  (timer_starts r (log_of (step i s)) ≠ 0%nat →
   ∃ socket now,
     i = Join socket (JStr r) now ∧ r ≠ "" ∧ join_fires socket r s = true ∧
     state_of (step i s) = join_state socket r now s).
Proof.
  intros Hs.
  assert (Hother : (∀ socket room now, i ≠ Join socket room now) →
     (timer_starts r (log_of (step i s)) ≤ 1)%nat ∧
     (timer_starts r (log_of (step i s)) ≠ 0%nat →
      ∃ socket now,
        i = Join socket (JStr r) now ∧ r ≠ "" ∧ join_fires socket r s = true ∧
        state_of (step i s) = join_state socket r now s)).
  { intros Hi. rewrite (step_other_no_timer_start _ _ _ (cons_rooms _ Hs) Hi).
    split; [lia|done]. }
  destruct i; try (apply Hother; discriminate).
  clear Hother.
  destruct (connected s socket) eqn:Hc;
    [|rewrite step_not_connected by done; split; [cbn; lia|done]].
  rewrite (step_join _ _ _ _ Hc).
  destruct (js_truthy room && is_string room) eqn:Hroom;
    [|rewrite on_join_invalid_room by done; split; [cbn; lia|done]].
  apply valid_room_inv in Hroom as (r0 & -> & Hr0).
  rewrite (join_timer_starts _ _ _ _ _ Hr0).
  destruct (join_fires socket r0 s) eqn:Hfire; cbn [andb]; [|split; [lia|done]].
  destruct (decide (r = r0)) as [->|Hne].
  - rewrite bool_decide_eq_true_2 by done. split; [lia|]. intros _.
    exists socket, now. split_and!; try done.
    by rewrite (on_join_computed _ _ _ _ Hr0).
  - rewrite bool_decide_eq_false_2 by done. split; [lia|done].
Qed.

Lemma step_timer_start_starts r i s :
  consistent s → clock_ok i = true →
  timer_starts r (log_of (step i s)) ≠ 0%nat →
  room_started (state_of (step i s)) r = true.
Proof.
  intros Hs Hclock Hne.
  destruct (step_timer_starts r i s Hs) as [_ H].
  destruct (H Hne) as (socket & now & -> & Hr & Hfire & ->).
  unfold room_started. rewrite rooms_join_state.
  cbn in Hclock. apply negb_true_iff, Z.eqb_neq in Hclock.
  apply join_record_after_started; [done|].
  unfold join_fires in Hfire. apply andb_true_iff in Hfire as [Hsz _].
  by apply Nat.leb_le.
Qed.

Lemma step_started_no_timer_start r i s :
  consistent s → room_started s r = true →
  timer_starts r (log_of (step i s)) = 0%nat.
Proof.
  intros Hs Hst.
  destruct (Nat.eq_dec (timer_starts r (log_of (step i s))) 0) as [|Hne]; [done|].
  destruct (step_timer_starts r i s Hs) as [_ H].
  destruct (H Hne) as (socket & now & -> & Hr & Hfire & _).
  unfold join_fires, join_record_before in Hfire. unfold room_started in Hst.
  destruct (rooms s !! r); [|done]. cbn in Hfire. rewrite Hst in Hfire.
  by rewrite andb_false_r in Hfire.
Qed.

(** Over a whole run, a room whose timer is started gets no
    [timer-start], and any other room gets one at most. *)
Lemma run_timer_starts r tr s :
  consistent s → clocks_ok tr = true →
  (timer_starts r (log_of (run tr s)) ≤ if room_started s r then 0 else 1)%nat.
Proof.
  revert s. induction tr as [|i tr IH]; intros s Hs Hok.
  - cbn. destruct (room_started s r); lia.
  - cbn in Hok. apply andb_true_iff in Hok as [Hi Hok].
    rewrite run_cons. unfold log_of at 1. cbn [snd]. rewrite timer_starts_app.
    pose proof (consistent_step i s Hi Hs) as Hs'.
    specialize (IH _ Hs' Hok).
    destruct (room_started s r) eqn:Hst.
    + rewrite (step_started_no_timer_start _ _ _ Hs Hst).
      rewrite (step_keeps_started _ _ _ Hs Hst) in IH. lia.
    + destruct (step_timer_starts r i s Hs) as [Hle _].
      destruct (Nat.eq_dec (timer_starts r (log_of (step i s))) 0) as [Hz|Hnz].
      * rewrite Hz. destruct (room_started (state_of (step i s)) r); lia.
      * rewrite (step_timer_start_starts _ _ _ Hs Hi Hnz) in IH. lia.
Qed.

(** C3: in every run of the server, for every room: a [startedAt] that
    holds a time stamp is never changed nor reset by a later step; the
    run emits [timer-start] to the room at most once; and a step emits it
    only when it is a join to that room that takes the member count from
    below two to two or more while [startedAt] is none, and that join
    sets [startedAt]. *)
Theorem timer_starts_at_most_once (r : Room) (tr : list Input) (i : Input) :
  clocks_ok (tr ++ [i]) = true →
  let s := state_of (run tr init) in
  let s' := state_of (step i s) in
  (∀ rs t, rooms s !! r = Some rs → startedAt rs = Some t → rooms s' !! r = Some rs) ∧
  (timer_starts r (log_of (run (tr ++ [i]) init)) ≤ 1)%nat ∧
  (timer_starts r (log_of (step i s)) ≠ 0%nat →
   ∃ socket now,
     i = Join socket (JStr r) now ∧
     (room_size s r < 2 ≤ room_size s' r)%nat ∧
     room_startedAt s r = None ∧
     room_startedAt s' r = Some now).
Proof.
  intros Hok s s'. subst s s'.
  pose proof Hok as Hok'. rewrite clocks_ok_snoc in Hok'.
  apply andb_true_iff in Hok' as [Htr Hi].
  pose proof (consistent_reachable tr Htr) as Hs.
  split_and!.
  - intros rs t Hrs Ht. by eapply step_keeps_started_record.
  - pose proof (run_timer_starts r (tr ++ [i]) init consistent_init Hok) as H.
    destruct (room_started init r); lia.
  - intros Hne. destruct (step_timer_starts r i _ Hs) as [_ H].
    destruct (H Hne) as (socket & now & -> & Hr & Hfire & ->).
    exists socket, now. split; [done|].
    by apply join_fires_threshold.
Qed.

Lemma timer_starts_at_most_once_witness :
  let tr := [ Connect "A" (JStr "alice"); Connect "B" JUndefined;
              Join "A" (JStr "r1") 1000 ] in
  let i := Join "B" (JStr "r1") 2000 in
  clocks_ok (tr ++ [i]) = true ∧
  let s := state_of (run tr init) in
  let s' := state_of (step i s) in
  (∀ rs t, rooms s !! "r1" = Some rs → startedAt rs = Some t → rooms s' !! "r1" = Some rs) ∧
  (timer_starts "r1" (log_of (run (tr ++ [i]) init)) ≤ 1)%nat ∧
  (timer_starts "r1" (log_of (step i s)) ≠ 0%nat →
   ∃ socket now,
     i = Join socket (JStr "r1") now ∧
     (room_size s "r1" < 2 ≤ room_size s' "r1")%nat ∧
     room_startedAt s "r1" = None ∧
     room_startedAt s' "r1" = Some now).
Proof.
  intros tr i.
  assert (Hok : clocks_ok (tr ++ [i]) = true) by reflexivity.
  exact (conj Hok (timer_starts_at_most_once "r1" tr i Hok)).
Defined.

(** ** Leaving *)

(** Every disconnection from a joined room broadcasts a participants
    list that still holds the connection that is leaving. *)
Lemma disconnect_participants_include_leaver tr socket room :
  clocks_ok tr = true →
  let s := state_of (run tr init) in
  connected s socket = true →
  room ∈ socket_rooms s socket →
  room ≠ socket →
  {| em_target := IoTo (JStr room);
     em_to := list_to_set (members s room);
     em_event := EvParticipants (participants_of s (members s room)) |}
    ∈ log_of (step (Disconnect socket) s) ∧
  socket ∈ members s room ∧
  socket ∉ members (state_of (step (Disconnect socket) s)) room.
Proof.
  intros Hok s Hc Hin Hne. pose proof (consistent_reachable tr Hok) as Hs.
  fold s in Hs.
  rewrite (step_disconnect_computed _ _ (cons_rooms _ Hs) Hc).
  unfold log_of, state_of. cbn [fst snd]. split_and!.
  - apply (list_elem_of_fmap_2 (λ room, {| em_target := IoTo (JStr room);
       em_to := list_to_set (members s room);
       em_event := EvParticipants (participants_of s (members s room)) |})).
    by apply list_elem_of_filter.
  - by apply (cons_rooms _ Hs).
  - rewrite members_adapter_del_all, decide_True by done.
    rewrite elem_of_set_delete. tauto.
Qed.

(** After a join the participants list is the membership, without
    duplicates. *)
Lemma join_participants_exact tr socket r now :
  clocks_ok tr = true →
  let s := state_of (run tr init) in
  connected s socket = true →
  r ≠ "" →
  let s' := state_of (step (Join socket (JStr r) now) s) in
  last (log_of (step (Join socket (JStr r) now) s)) =
    Some {| em_target := IoTo (JStr r);
            em_to := list_to_set (members s' r);
            em_event := EvParticipants (participants_of s' (members s' r)) |} ∧
  NoDup (members s' r) ∧ socket ∈ members s' r.
Proof.
  intros Hok s Hc Hr s'. subst s'. pose proof (consistent_reachable tr Hok) as Hs.
  fold s in Hs.
  rewrite (step_join _ _ _ _ Hc), (on_join_computed _ _ _ _ Hr).
  unfold log_of, state_of. cbn [fst snd].
  rewrite participants_of_join_state, members_join_state. split_and!.
  - by destruct (join_fires socket r s).
  - by apply nodup_inv_adapter_add, (cons_nodup _ Hs).
  - rewrite members_adapter_add, decide_True by done. apply elem_of_set_add. by left.
Qed.

(** C1 at a failing input: [A] and [B] are in room [r1] and [A]
    disconnects.  The participants event the room receives still lists
    [A], and [A] itself is among the receivers, while the room's members
    once the disconnection is complete are [B] alone. *)
Theorem disconnect_broadcast_lists_leaver :
  members two_in_room "r1" = ["A"; "B"] ∧
  em_event <$> log_of (step (Disconnect "A") two_in_room) =
    [ EvParticipants [("A", "alice"); ("B", "Guest")] ] ∧
  delivered "B" (log_of (step (Disconnect "A") two_in_room)) =
    [ EvParticipants [("A", "alice"); ("B", "Guest")] ] ∧
  members (state_of (step (Disconnect "A") two_in_room)) "r1" = ["B"].
Proof. vm_compute. done. Qed.

(** ** Records are never deleted *)

(** The [delete rooms[room]] of the disconnecting handler is never
    reached: the handler runs while the connection is still a member of
    the room, whose size is then one at least. *)
Lemma disconnect_never_deletes_record tr socket :
  clocks_ok tr = true →
  let s := state_of (run tr init) in
  rooms (state_of (step (Disconnect socket) s)) = rooms s.
Proof.
  intros Hok s. pose proof (consistent_reachable tr Hok) as Hs. fold s in Hs.
  destruct (connected s socket) eqn:Hc; [|by rewrite step_not_connected].
  by rewrite (step_disconnect_computed _ _ (cons_rooms _ Hs) Hc).
Qed.

(** A record, once created, is there after every later step. *)
Lemma record_persists r i s :
  consistent s → is_Some (rooms s !! r) → is_Some (rooms (state_of (step i s)) !! r).
Proof.
  intros Hs Hrec. destruct i; try (by rewrite step_chat_relay_state).
  - unfold step. by destruct (fresh_id s socket).
  - destruct (connected s socket) eqn:Hc; [|by rewrite step_not_connected].
    rewrite (step_join _ _ _ _ Hc).
    destruct (js_truthy room && is_string room) eqn:Hroom;
      [|by rewrite on_join_invalid_room].
    apply valid_room_inv in Hroom as (r0 & -> & Hr0).
    rewrite (on_join_computed _ _ _ _ Hr0). unfold state_of. cbn [fst snd].
    by apply rooms_join_state_names.
  - destruct (connected s socket) eqn:Hc; [|by rewrite step_not_connected].
    by rewrite (step_disconnect_computed _ _ (cons_rooms _ Hs) Hc).
Qed.

(** C2 at a failing input: both members of [r1] disconnect.  The room has
    no member left, yet its record is still in the table with the timer
    that was started, and a connection that joins [r1] afterwards is
    told that timer. *)
Theorem empty_room_record_survives :
  let s := state_of (run [Disconnect "A"; Disconnect "B"] two_in_room) in
  members s "r1" = [] ∧
  rooms s !! "r1" = Some {| startedAt := Some 2000%Z; duration := Some 60%Z |} ∧
  delivered "C" (log_of (run [Connect "C" JUndefined; Join "C" (JStr "r1") 3000] s)) =
    [ EvTimerState (Some 2000%Z) (Some 60%Z); EvParticipants [("C", "Guest")] ].
Proof. vm_compute. done. Qed.

Lemma joined_inv_step i s :
  consistent s → joined_inv s → joined_inv (state_of (step i s)).
Proof.
  intros Hs Hj. destruct i; try (by rewrite step_chat_relay_state).
  - unfold step. destruct (fresh_id s socket) eqn:Hf; [|done].
    unfold update, state_of, on_connection. cbn [fst snd].
    intros x r. rewrite members_adapter_add. case_decide as E.
    + subst r. intros [->|Hin]%elem_of_set_add Hne; [done|]. by eapply Hj.
    + apply Hj.
  - destruct (connected s socket) eqn:Hc; [|by rewrite step_not_connected].
    rewrite (step_join _ _ _ _ Hc).
    destruct (js_truthy room && is_string room) eqn:Hroom;
      [|by rewrite on_join_invalid_room].
    apply valid_room_inv in Hroom as (r0 & -> & Hr0).
    rewrite (on_join_computed _ _ _ _ Hr0). unfold state_of. cbn [fst snd].
    intros x r. rewrite members_join_state, members_adapter_add.
    case_decide as E.
    + subst r0. intros _ _. rewrite rooms_join_state. eauto.
    + intros Hin Hne. apply rooms_join_state_names. by eapply Hj.
  - destruct (connected s socket) eqn:Hc; [|by rewrite step_not_connected].
    rewrite (step_disconnect_computed _ _ (cons_rooms _ Hs) Hc).
    unfold state_of. cbn [fst snd].
    intros x r. rewrite members_adapter_del_all. case_decide; [|apply Hj].
    intros [Hin _]%elem_of_set_delete. by apply Hj.
Qed.

Lemma joined_inv_run tr s :
  clocks_ok tr = true → consistent s → joined_inv s → joined_inv (state_of (run tr s)).
Proof.
  revert s. induction tr as [|i tr IH]; intros s Hok Hs Hj; [done|].
  cbn in Hok. apply andb_true_iff in Hok as [Hi Hok].
  rewrite run_cons. unfold state_of at 1. cbn [fst snd].
  apply IH; [done|by apply consistent_step|by apply joined_inv_step].
Qed.

(** In a reachable state, a connection that is a member of a room other
    than the one of its own id has joined it, and the room has a record. *)
Lemma joined_room_has_record tr socket r :
  clocks_ok tr = true →
  socket ∈ members (state_of (run tr init)) r →
  socket ≠ r →
  is_Some (rooms (state_of (run tr init)) !! r).
Proof.
  intros Hok. apply joined_inv_run; [done|apply consistent_init|].
  intros x r' Hin.
  unfold members, init in Hin. cbn in Hin. rewrite lookup_empty in Hin.
  by apply not_elem_of_nil in Hin.
Qed.

(** ** Joining twice *)

(** C9: when a connection that is a member of room [r], which was joined
    before and so has its record, joins [r] again, the member sets and
    the timer records are what they were, and the events of a join are
    emitted again: [timer-state] to the joiner, [need-offer] for the
    joiner to the other members, and the participants to the room. *)
Theorem rejoin_keeps_state_and_reemits (tr : list Input) socket r now :
  clocks_ok tr = true →
  let s := state_of (run tr init) in
  connected s socket = true →
  r ≠ "" →
  socket ∈ members s r →
  is_Some (rooms s !! r) →
  ∃ roomState,
    rooms s !! r = Some roomState ∧
    (∀ room, members (state_of (step (Join socket (JStr r) now) s)) room =
             members s room) ∧
    rooms (state_of (step (Join socket (JStr r) now) s)) = rooms s ∧
    log_of (step (Join socket (JStr r) now) s) =
      [ {| em_target := SocketEmit socket;
           em_to := {[socket]};
           em_event := EvTimerState (startedAt roomState) (duration roomState) |};
        {| em_target := SocketTo socket r;
           em_to := list_to_set (members s r) ∖ {[socket]};
           em_event := EvNeedOffer socket |};
        {| em_target := IoTo (JStr r);
           em_to := list_to_set (members s r);
           em_event := EvParticipants (participants_of s (members s r)) |} ].
Proof.
  intros Hok s Hc Hr Hmem [rs Hrs]. pose proof (consistent_reachable tr Hok) as Hs.
  fold s in Hs. exists rs. split; [done|].
  rewrite (step_join _ _ _ _ Hc), (on_join_computed _ _ _ _ Hr).
  unfold state_of, log_of. cbn [fst snd].
  assert (Hm : members (adapter_add socket r s) r = members s r).
  { rewrite members_adapter_add, decide_True by done. by apply set_add_elem. }
  assert (Hb : join_record_before r s = rs).
  { unfold join_record_before. by rewrite Hrs. }
  assert (Hfire : join_fires socket r s = false).
  { unfold join_fires, room_size. rewrite Hm, Hb.
    destruct (2 <=? length (members s r))%nat eqn:Hsz; [|done].
    apply Nat.leb_le in Hsz. apply (cons_timer _ Hs) in Hsz as (rs' & Hrs' & Hst).
    rewrite Hrs in Hrs'. injection Hrs' as <-. by rewrite Hst. }
  assert (Ha : join_record_after socket r now s = rs).
  { unfold join_record_after. by rewrite Hfire. }
  rewrite Hfire, Ha, Hm. split_and!.
  - intros room. rewrite members_join_state, members_adapter_add.
    case_decide as E; [|done]. subst room. by apply set_add_elem.
  - unfold join_state. by rewrite Hfire, Hrs.
  - reflexivity.
Qed.

Lemma rejoin_keeps_state_and_reemits_witness :
  let tr := [ Connect "A" (JStr "alice"); Connect "B" JUndefined;
              Join "A" (JStr "r1") 1000; Join "B" (JStr "r1") 2000 ] in
  clocks_ok tr = true ∧
  let s := state_of (run tr init) in
  connected s "A" = true ∧ "r1" ≠ "" ∧ "A" ∈ members s "r1" ∧
  is_Some (rooms s !! "r1") ∧
  ∃ roomState,
    rooms s !! "r1" = Some roomState ∧
    (∀ room, members (state_of (step (Join "A" (JStr "r1") 3000) s)) room =
             members s room) ∧
    rooms (state_of (step (Join "A" (JStr "r1") 3000) s)) = rooms s ∧
    log_of (step (Join "A" (JStr "r1") 3000) s) =
      [ {| em_target := SocketEmit "A";
           em_to := {["A"]};
           em_event := EvTimerState (startedAt roomState) (duration roomState) |};
        {| em_target := SocketTo "A" "r1";
           em_to := list_to_set (members s "r1") ∖ {["A"]};
           em_event := EvNeedOffer "A" |};
        {| em_target := IoTo (JStr "r1");
           em_to := list_to_set (members s "r1");
           em_event := EvParticipants (participants_of s (members s "r1")) |} ].
Proof.
  intros tr.
  assert (Hok : clocks_ok tr = true) by reflexivity.
  split; [exact Hok|]. intros s.
  assert (Hc : connected s "A" = true) by reflexivity.
  assert (Hr : "r1" ≠ "") by discriminate.
  assert (Hm : "A" ∈ members s "r1") by (vm_compute; apply list_elem_of_here).
  assert (Hrec : is_Some (rooms s !! "r1")) by (vm_compute; eauto).
  exact (conj Hc (conj Hr (conj Hm (conj Hrec
    (rejoin_keeps_state_and_reemits tr "A" "r1" 3000 Hok Hc Hr Hm Hrec))))).
Defined.

(** ** Configuration: the allowed origins *)

Lemma split_on_nonempty sep s : split_on sep s ≠ [].
Proof.
  destruct s as [|c s]; [done|]. cbn.
  destruct (Ascii.eqb c sep); [done|]. by destruct (split_on sep s).
Qed.

(** No piece of a split holds the separator. *)
Lemma split_on_no_sep sep s :
  Forall (λ p, has_char sep p = false) (split_on sep s).
Proof.
  induction s as [|c s IH]; [by repeat constructor|].
  cbn [split_on]. destruct (Ascii.eqb c sep) eqn:E; [by constructor|].
  destruct (split_on sep s) as [|p ps]; [by repeat constructor; cbn; rewrite E|].
  inversion IH as [|? ? Hp Hps]; subst. constructor; [|done].
  cbn. by rewrite E, Hp.
Qed.

(** Joining the pieces of a split with the separator gives the string
    back. *)
Lemma join_split_on sep s :
  join_with (String sep "") (split_on sep s) = s.
Proof.
  assert (Hfold : ∀ l acc,
    fold_left (λ acc y, acc +:+ String sep "" +:+ y) l acc =
    acc +:+ fold_left (λ acc y, acc +:+ String sep "" +:+ y) l "").
  { induction l as [|y l IH]; intros acc; cbn [fold_left].
    - by rewrite str_app_nil_r.
    - rewrite IH, (IH ("" +:+ _)). change ("" +:+ ?x) with x.
      by rewrite !str_app_assoc. }
  induction s as [|c s IH]; [done|].
  cbn [split_on]. destruct (Ascii.eqb c sep) eqn:E.
  - apply Ascii.eqb_eq in E. subst c. cbn [join_with].
    destruct (split_on sep s) as [|p ps] eqn:Hs; [by destruct (split_on_nonempty sep s)|].
    cbn [fold_left]. rewrite Hfold. change ("" +:+ ?x) with x.
    rewrite str_app_assoc, str_app_cons. change ("" +:+ ?x) with x.
    f_equal. rewrite <- IH. cbn [join_with]. by rewrite Hfold.
  - destruct (split_on sep s) as [|p ps] eqn:Hs; [by destruct (split_on_nonempty sep s)|].
    cbn [join_with] in *. rewrite Hfold, str_app_cons. f_equal.
    rewrite <- IH. by rewrite Hfold.
Qed.

Lemma default_origins_well_formed :
  Forall (λ o, o ≠ "" ∧ starts_clean o = true ∧ starts_clean (String.rev o) = true ∧
               trim o = o ∧ has_char comma o = false) default_origins.
Proof. repeat constructor; by vm_compute. Qed.

Lemma origins_filter_trim (l : list string) :
  filter (λ s, js_truthy (JStr s)) (trim <$> l) =
  trim <$> filter (λ p, blank p = false) l.
Proof.
  induction l as [|p l IH]; [done|].
  rewrite fmap_cons, !filter_cons, IH.
  destruct (blank p) eqn:Hb.
  - rewrite (proj2 (trim_empty_iff p) Hb). cbn.
    repeat case_decide; done.
  - assert (trim p ≠ "") as Hne by (rewrite trim_empty_iff; by rewrite Hb).
    apply js_truthy_str in Hne. rewrite Hne.
    repeat case_decide; done.
Qed.

(** X1: whatever [CORS_ORIGIN] holds, or when it is unset, the list of
    allowed origins is not empty, and each of its entries is a non-empty
    string that neither starts nor ends with white space, which [trim]
    therefore leaves as it is, and that holds no comma. *)
Theorem allowed_origins_well_formed (cors_origin : option string) :
  ALLOWED_ORIGINS cors_origin ≠ [] ∧
  Forall (λ o, o ≠ "" ∧ starts_clean o = true ∧ starts_clean (String.rev o) = true ∧
               trim o = o ∧ has_char comma o = false)
         (ALLOWED_ORIGINS cors_origin).
Proof.
  unfold ALLOWED_ORIGINS. cbv zeta. rewrite origins_filter_trim.
  set (pieces := split_on comma (default "" cors_origin)).
  destruct (filter (λ p, blank p = false) pieces) as [|p ps] eqn:Hf.
  - cbn. split; [done|apply default_origins_well_formed].
  - rewrite length_fmap. cbn [length Nat.eqb]. split; [done|].
    rewrite <- Hf, Forall_fmap, Forall_forall. intros q Hq.
    apply list_elem_of_filter in Hq as [Hb Hin]. cbn.
    destruct (trim_clean q) as [Hc1 Hc2].
    split_and!; try done.
    + rewrite trim_empty_iff. by rewrite Hb.
    + apply trim_idempotent.
    + destruct (has_char comma (trim q)) eqn:Hc; [|done].
      apply has_char_trim in Hc.
      pose proof (split_on_no_sep comma (default "" cors_origin)) as Hsep.
      rewrite Forall_forall in Hsep. rewrite (Hsep q Hin) in Hc. done.
Qed.

(** X2: when every comma-separated piece of [CORS_ORIGIN] is empty or
    white space only, and when the variable is unset, the allowed
    origins are the four development defaults. *)
Theorem allowed_origins_fallback (cors_origin : option string) :
  Forall (λ p, blank p = true) (split_on comma (default "" cors_origin)) →
  ALLOWED_ORIGINS cors_origin = default_origins.
Proof.
  intros Hall. unfold ALLOWED_ORIGINS. cbv zeta. rewrite origins_filter_trim.
  assert (filter (λ p, blank p = false)
            (split_on comma (default "" cors_origin)) = []) as ->; [|done].
  induction Hall as [|p l Hp _ IH]; [done|].
  rewrite filter_cons, decide_False by (by rewrite Hp). done.
Qed.

Lemma allowed_origins_fallback_witness :
  Forall (λ p, blank p = true) (split_on comma (default "" (Some " , "))) ∧
  Forall (λ p, blank p = true) (split_on comma (default "" None)) ∧
  ALLOWED_ORIGINS (Some " , ") = default_origins ∧
  ALLOWED_ORIGINS None = default_origins.
Proof.
  assert (H1 : Forall (λ p, blank p = true) (split_on comma (default "" (Some " , "))))
    by (by repeat constructor).
  assert (H2 : Forall (λ p, blank p = true) (split_on comma (default "" None)))
    by (by repeat constructor).
  exact (conj H1 (conj H2 (conj (allowed_origins_fallback (Some " , ") H1)
                                (allowed_origins_fallback None H2)))).
Defined.

(** X3: when some piece of [CORS_ORIGIN] is not blank, the allowed
    origins are its non-blank pieces, trimmed, in the order they are
    written; no default is added. *)
Theorem allowed_origins_listed (raw : string) :
  Exists (λ p, blank p = false) (split_on comma raw) →
  ALLOWED_ORIGINS (Some raw) =
  trim <$> filter (λ p, blank p = false) (split_on comma raw).
Proof.
  intros Hex. unfold ALLOWED_ORIGINS. cbv zeta. rewrite origins_filter_trim.
  cbn [default from_option id].
  destruct (filter (λ p, blank p = false) (split_on comma raw)) as [|p ps] eqn:Hf; [|done].
  apply Exists_exists in Hex as (p & Hin & Hb).
  assert (p ∈ filter (λ p, blank p = false) (split_on comma raw)) as Hp
    by (by apply list_elem_of_filter).
  rewrite Hf in Hp. by apply not_elem_of_nil in Hp.
Qed.

Lemma allowed_origins_listed_witness :
  Exists (λ p, blank p = false) (split_on comma " http://a.test , ,https://b.test") ∧
  ALLOWED_ORIGINS (Some " http://a.test , ,https://b.test") =
  trim <$> filter (λ p, blank p = false)
             (split_on comma " http://a.test , ,https://b.test").
Proof.
  assert (H : Exists (λ p, blank p = false)
                (split_on comma " http://a.test , ,https://b.test"))
    by (by apply Exists_cons_hd).
  exact (conj H (allowed_origins_listed _ H)).
Defined.

(** ** The connection registry *)

Lemma set_delete_notin x l : x ∉ l → set_delete x l = l.
Proof.
  unfold set_delete. induction l as [|y l IH]; intros H; [done|].
  apply not_elem_of_cons in H as [Hne Hl].
  rewrite filter_cons, decide_True by done. by rewrite IH.
Qed.

Lemma connected_true s x : connected s x = true ↔ is_Some (sockets s !! x).
Proof. unfold connected. apply bool_decide_eq_true. Qed.

Lemma registry_ok_init : registry_ok init.
Proof.
  assert (Hm : ∀ r, members init r = []).
  { intros r. unfold members, init. cbn. by rewrite lookup_empty. }
  split.
  - apply consistent_init.
  - intros x r H. rewrite Hm in H. by apply not_elem_of_nil in H.
  - intros r x H. rewrite Hm in H. by apply not_elem_of_nil in H.
  - intros x H. apply connected_true in H. unfold init in H. cbn in H.
    rewrite lookup_empty in H. by destruct H.
Qed.

Lemma sids_adapter_add socket r s :
  (∀ x r', x ∈ members s r' → r' ∈ socket_rooms s x) →
  ∀ x r', x ∈ members (adapter_add socket r s) r' →
          r' ∈ socket_rooms (adapter_add socket r s) x.
Proof.
  intros Hinv x r'. rewrite members_adapter_add, socket_rooms_adapter_add.
  destruct (decide (r = r')) as [<-|Hr].
  - intros [->|Hin]%elem_of_set_add.
    + rewrite decide_True by done. apply elem_of_set_add. by left.
    + apply Hinv in Hin. case_decide as E; [|done].
      subst. apply elem_of_set_add. by right.
  - intros Hin. apply Hinv in Hin. case_decide as E; [|done].
    subst. apply elem_of_set_add. by right.
Qed.

Lemma registry_ok_join socket r now s :
  connected s socket = true →
  registry_ok s → registry_ok (join_state socket r now s).
Proof.
  intros Hc [H1 H2 H3 H4]. split.
  - intros x r'. rewrite socket_rooms_join_state, members_join_state.
    by apply rooms_inv_adapter_add.
  - intros x r'. rewrite socket_rooms_join_state, members_join_state.
    by apply sids_adapter_add.
  - intros r' x. rewrite members_join_state, members_adapter_add, connected_join_state.
    case_decide; [|apply H3].
    intros [->|Hin]%elem_of_set_add; [done|by eapply H3].
  - intros x Hx. rewrite connected_join_state in Hx. rewrite members_join_state.
    apply members_adapter_add_mono. by apply H4.
Qed.

Lemma registry_ok_connection socket auth_name s :
  registry_ok s → registry_ok (on_connection socket auth_name s).
Proof.
  intros [H1 H2 H3 H4]. unfold on_connection.
  set (s0 := {| sockets := <[socket:=auth_name]> (sockets s);
                adapter_rooms := adapter_rooms s;
                adapter_sids := adapter_sids s; rooms_own := rooms_own s;
                inherited_startedAt := inherited_startedAt s |}).
  assert (Hconn : ∀ x, connected (adapter_add socket socket s0) x = true ↔
                       x = socket ∨ connected s x = true).
  { intros x. rewrite !connected_true. cbn. rewrite lookup_insert.
    case_decide as E.
    - subst. split; [by left|eauto].
    - split; [by right|]. by intros [->|?]. }
  split.
  - by apply rooms_inv_adapter_add.
  - by apply sids_adapter_add.
  - intros r x. rewrite members_adapter_add, Hconn.
    case_decide.
    + intros [->|Hin]%elem_of_set_add; [by left|]. right. by eapply H3.
    + intros Hin. right. by eapply H3.
  - intros x [->|Hx]%Hconn.
    + rewrite members_adapter_add, decide_True by done.
      apply elem_of_set_add. by left.
    + apply members_adapter_add_mono. by apply H4.
Qed.

(** In a state where the registry is in order, the members of a room
    once a connection is closed are the former ones but that
    connection. *)
Lemma members_after_disconnect socket s r :
  registry_ok s →
  members (adapter_del_all socket s) r = set_delete socket (members s r).
Proof.
  intros Hs. rewrite members_adapter_del_all. case_decide as Hin; [done|].
  symmetry. apply set_delete_notin. intros Hm. by apply (reg_sids _ Hs) in Hm.
Qed.

Lemma registry_ok_disconnect socket s :
  registry_ok s → registry_ok (adapter_del_all socket s).
Proof.
  intros Hs. pose proof Hs as [H1 H2 H3 H4].
  assert (Hconn : ∀ x, connected (adapter_del_all socket s) x = true ↔
                       x ≠ socket ∧ connected s x = true).
  { intros x. rewrite !connected_true. cbn. rewrite lookup_delete.
    case_decide as E.
    - subst. split; [by intros []|by intros []].
    - split; [|by intros []]. intros ?. split; [congruence|done]. }
  split.
  - intros x r. rewrite socket_rooms_adapter_del_all.
    case_decide as E; [by intros ?%not_elem_of_nil|].
    intros Hin. rewrite (members_after_disconnect _ _ _ Hs).
    apply elem_of_set_delete. split; [by apply H1|done].
  - intros x r. rewrite (members_after_disconnect _ _ _ Hs).
    intros [Hin Hne]%elem_of_set_delete.
    rewrite socket_rooms_adapter_del_all, decide_False by done. by apply H2.
  - intros r x. rewrite (members_after_disconnect _ _ _ Hs).
    intros [Hin Hne]%elem_of_set_delete. apply Hconn. split; [done|by eapply H3].
  - intros x [Hne Hx]%Hconn. rewrite (members_after_disconnect _ _ _ Hs).
    apply elem_of_set_delete. split; [by apply H4|done].
Qed.

Lemma registry_ok_step i s : registry_ok s → registry_ok (state_of (step i s)).
Proof.
  intros Hs. destruct i; try (by rewrite step_chat_relay_state).
  - unfold step. destruct (fresh_id s socket); [|done].
    by apply registry_ok_connection.
  - destruct (connected s socket) eqn:Hc; [|by rewrite step_not_connected].
    rewrite (step_join _ _ _ _ Hc).
    destruct (js_truthy room && is_string room) eqn:Hroom;
      [|by rewrite on_join_invalid_room].
    apply valid_room_inv in Hroom as (r & -> & Hr).
    rewrite (on_join_computed _ _ _ _ Hr). by apply registry_ok_join.
  - destruct (connected s socket) eqn:Hc; [|by rewrite step_not_connected].
    rewrite (step_disconnect_computed _ _ (reg_rooms _ Hs) Hc).
    by apply registry_ok_disconnect.
Qed.

Lemma registry_ok_run tr s : registry_ok s → registry_ok (state_of (run tr s)).
Proof.
  revert s. induction tr as [|i tr IH]; intros s Hs; [done|].
  rewrite run_cons. unfold state_of at 1. cbn [fst snd].
  by apply IH, registry_ok_step.
Qed.

Lemma registry_ok_reachable tr : registry_ok (state_of (run tr init)).
Proof. apply registry_ok_run, registry_ok_init. Qed.

(** X4: in every state the server can reach, every member of every room
    is a live connection, and the room is among that connection's
    [socket.rooms]. *)
Theorem rooms_hold_live_connections (tr : list Input) (r : Room) :
  Forall (λ x, connected (state_of (run tr init)) x = true ∧
               r ∈ socket_rooms (state_of (run tr init)) x)
         (members (state_of (run tr init)) r).
Proof.
  pose proof (registry_ok_reachable tr) as Hs.
  apply Forall_forall. intros x Hx. split.
  - by eapply (reg_live _ Hs).
  - by apply (reg_sids _ Hs).
Qed.

(** X5: once a live connection is closed it is no longer connected, it
    is a member of no room and has no rooms; every room keeps its other
    members, in their order, and the other connections keep their
    rooms. *)
Theorem disconnect_removes_everywhere (tr : list Input) (socket : SocketId) :
  connected (state_of (run tr init)) socket = true →
  let s := state_of (run tr init) in
  let s' := state_of (step (Disconnect socket) s) in
  connected s' socket = false ∧
  socket_rooms s' socket = [] ∧
  (∀ r, members s' r = set_delete socket (members s r)) ∧
  (∀ r, socket ∉ members s' r) ∧
  (∀ x, x ≠ socket →
        connected s' x = connected s x ∧ socket_rooms s' x = socket_rooms s x).
Proof.
  intros Hc s s'. pose proof (registry_ok_reachable tr) as Hs. fold s in Hs, Hc.
  subst s'. rewrite (step_disconnect_computed _ _ (reg_rooms _ Hs) Hc).
  unfold state_of. cbn [fst snd]. split_and!.
  - unfold connected. cbn. rewrite lookup_delete_eq. apply bool_decide_eq_false.
    by intros [? ?].
  - by rewrite socket_rooms_adapter_del_all, decide_True.
  - intros r. by apply members_after_disconnect.
  - intros r. rewrite (members_after_disconnect _ _ _ Hs), elem_of_set_delete. tauto.
  - intros x Hne. split.
    + unfold connected. cbn. by rewrite lookup_delete_ne.
    + by rewrite socket_rooms_adapter_del_all, decide_False.
Qed.

Lemma disconnect_removes_everywhere_witness :
  let tr := [ Connect "A" (JStr "alice"); Connect "B" JUndefined;
              Join "A" (JStr "r1") 1000; Join "B" (JStr "r1") 2000 ] in
  connected (state_of (run tr init)) "A" = true ∧
  let s := state_of (run tr init) in
  let s' := state_of (step (Disconnect "A") s) in
  connected s' "A" = false ∧
  socket_rooms s' "A" = [] ∧
  (∀ r, members s' r = set_delete "A" (members s r)) ∧
  (∀ r, "A" ∉ members s' r) ∧
  (∀ x, x ≠ "A" →
        connected s' x = connected s x ∧ socket_rooms s' x = socket_rooms s x).
Proof.
  intros tr.
  assert (Hc : connected (state_of (run tr init)) "A" = true) by reflexivity.
  exact (conj Hc (disconnect_removes_everywhere tr "A" Hc)).
Defined.

Lemma relay_computed s to ev :
  log_of (emit (IoTo (JStr to)) ev s) =
  [ {| em_target := IoTo (JStr to); em_to := list_to_set (members s to);
       em_event := ev |} ].
Proof. unfold emit, log_of. cbn [snd recipients target_rooms]. by rewrite joined_any_single. Qed.

(** X6: an offer, an answer or an ice candidate addressed to the id of a
    live connection, with a payload that is not falsy, is delivered to
    that connection, once, with the id of the sender as [from] and the
    payload as it was received; it reaches nobody outside the room of
    that id, and the state is left as it was. *)
Theorem relay_reaches_live_target (tr : list Input) (socket target : SocketId)
    (payload : jsval) :
  let s := state_of (run tr init) in
  connected s socket = true →
  connected s target = true →
  target ≠ "" →
  js_truthy payload = true →
  (∀ x, delivered x (log_of (step (Offer socket (JStr target) payload) s)) =
        if decide (x ∈ members s target) then [EvOffer socket payload] else []) ∧
  (∀ x, delivered x (log_of (step (Answer socket (JStr target) payload) s)) =
        if decide (x ∈ members s target) then [EvAnswer socket payload] else []) ∧
  (∀ x, delivered x (log_of (step (IceCandidate socket (JStr target) payload) s)) =
        if decide (x ∈ members s target) then [EvIceCandidate socket payload] else []) ∧
  target ∈ members s target ∧
  state_of (step (Offer socket (JStr target) payload) s) = s ∧
  state_of (step (Answer socket (JStr target) payload) s) = s ∧
  state_of (step (IceCandidate socket (JStr target) payload) s) = s.
Proof.
  intros s Hc Ht Hne Hp. pose proof (registry_ok_reachable tr) as Hs. fold s in Hs.
  apply js_truthy_str in Hne.
  rewrite (step_offer _ _ _ _ Hc), (step_answer _ _ _ _ Hc),
    (step_ice_candidate _ _ _ _ Hc).
  unfold on_offer, on_answer, on_ice_candidate. rewrite Hne, Hp. cbn [andb].
  rewrite !relay_computed. split_and!; try done.
  - intros x. apply delivered_single.
  - intros x. apply delivered_single.
  - intros x. apply delivered_single.
  - by apply (reg_own _ Hs).
Qed.

Lemma relay_reaches_live_target_witness :
  let tr := [ Connect "A" (JStr "alice"); Connect "B" JUndefined ] in
  let payload := JObj [("type", JStr "offer")] in
  let s := state_of (run tr init) in
  connected s "A" = true ∧ connected s "B" = true ∧ "B" ≠ "" ∧
  js_truthy payload = true ∧
  (∀ x, delivered x (log_of (step (Offer "A" (JStr "B") payload) s)) =
        if decide (x ∈ members s "B") then [EvOffer "A" payload] else []) ∧
  (∀ x, delivered x (log_of (step (Answer "A" (JStr "B") payload) s)) =
        if decide (x ∈ members s "B") then [EvAnswer "A" payload] else []) ∧
  (∀ x, delivered x (log_of (step (IceCandidate "A" (JStr "B") payload) s)) =
        if decide (x ∈ members s "B") then [EvIceCandidate "A" payload] else []) ∧
  "B" ∈ members s "B" ∧
  state_of (step (Offer "A" (JStr "B") payload) s) = s ∧
  state_of (step (Answer "A" (JStr "B") payload) s) = s ∧
  state_of (step (IceCandidate "A" (JStr "B") payload) s) = s.
Proof.
  intros tr payload s.
  assert (Hc : connected s "A" = true) by reflexivity.
  assert (Ht : connected s "B" = true) by reflexivity.
  assert (Hne : "B" ≠ "") by discriminate.
  assert (Hp : js_truthy payload = true) by reflexivity.
  exact (conj Hc (conj Ht (conj Hne (conj Hp
    (relay_reaches_live_target tr "A" "B" payload Hc Ht Hne Hp))))).
Defined.

(** X7: a room name is not kept apart from the connection ids.  Once a
    connection has joined the room named by the id of another live
    connection, every relay message addressed to that id is delivered to
    both of them. *)
Theorem joining_an_id_room_receives_its_relay (tr : list Input)
    (victim intruder socket : SocketId) (now : Z) (payload : jsval) :
  let s := state_of (run tr init) in
  connected s victim = true →
  connected s intruder = true →
  connected s socket = true →
  victim ≠ "" →
  js_truthy payload = true →
  let s1 := state_of (step (Join intruder (JStr victim) now) s) in
  let log := log_of (step (Offer socket (JStr victim) payload) s1) in
  delivered victim log = [EvOffer socket payload] ∧
  delivered intruder log = [EvOffer socket payload].
Proof.
  intros s Hv Hi Hc Hne Hp s1 log. pose proof (registry_ok_reachable tr) as Hs.
  fold s in Hs. subst log s1.
  rewrite (step_join _ _ _ _ Hi), (on_join_computed _ _ _ _ Hne).
  unfold state_of at 1 2. cbn [fst snd].
  set (s1 := join_state intruder victim now s).
  assert (Hc1 : connected s1 socket = true)
    by (unfold s1; by rewrite connected_join_state).
  rewrite (step_offer _ _ _ _ Hc1). unfold on_offer.
  rewrite (proj2 (js_truthy_str _) Hne), Hp. cbn [andb].
  rewrite relay_computed, !delivered_single.
  assert (Hm : members s1 victim = set_add intruder (members s victim)).
  { unfold s1. by rewrite members_join_state, members_adapter_add, decide_True. }
  rewrite Hm. split.
  - rewrite decide_True; [done|]. apply elem_of_set_add. right. by apply (reg_own _ Hs).
  - rewrite decide_True; [done|]. apply elem_of_set_add. by left.
Qed.

Lemma joining_an_id_room_receives_its_relay_witness :
  let tr := [ Connect "A" (JStr "alice"); Connect "B" JUndefined;
              Connect "C" JNull ] in
  let s := state_of (run tr init) in
  connected s "A" = true ∧ connected s "B" = true ∧ connected s "C" = true ∧
  "A" ≠ "" ∧ js_truthy (JStr "sdp") = true ∧
  let s1 := state_of (step (Join "B" (JStr "A") 1000) s) in
  let log := log_of (step (Offer "C" (JStr "A") (JStr "sdp")) s1) in
  delivered "A" log = [EvOffer "C" (JStr "sdp")] ∧
  delivered "B" log = [EvOffer "C" (JStr "sdp")].
Proof.
  intros tr s.
  assert (Hv : connected s "A" = true) by reflexivity.
  assert (Hi : connected s "B" = true) by reflexivity.
  assert (Hc : connected s "C" = true) by reflexivity.
  assert (Hne : "A" ≠ "") by discriminate.
  assert (Hp : js_truthy (JStr "sdp") = true) by reflexivity.
  exact (conj Hv (conj Hi (conj Hc (conj Hne (conj Hp
    (joining_an_id_room_receives_its_relay tr "A" "B" "C" 1000 (JStr "sdp")
       Hv Hi Hc Hne Hp)))))).
Defined.

(** ** What the events carry *)

Lemma bind_log {A B} (m : Handler A) (k : A → Handler B) s :
  log_of (bind m k s) = log_of (m s) ++ log_of (k (m s).1.1 (state_of (m s))).
Proof.
  unfold bind, log_of, state_of. destruct (m s) as [[a s1] l1]. cbn [fst snd].
  by destruct (k a s1) as [[b s2] l2].
Qed.

Lemma bind_state {A B} (m : Handler A) (k : A → Handler B) s :
  state_of (bind m k s) = state_of (k (m s).1.1 (state_of (m s))).
Proof.
  unfold bind, state_of. destruct (m s) as [[a s1] l1]. cbn [fst snd].
  by destruct (k a s1) as [[b s2] l2].
Qed.

(** The disconnecting handler emits participants events only, in any
    state. *)
Lemma on_disconnecting_only_participants socket l s :
  Forall (λ e, ∃ p, em_event e = EvParticipants p)
         (log_of (for_each l (on_disconnecting_room socket) s)).
Proof.
  revert s. induction l as [|room l IH]; intros s; [by constructor|].
  cbn [for_each]. rewrite bind_log. apply Forall_app. split; [|apply IH].
  unfold on_disconnecting_room. case_decide; [by constructor|].
  rewrite bind_log, broadcastParticipants_computed. unfold log_of at 1. cbn [snd].
  apply Forall_app. split; [repeat constructor; by eexists|].
  rewrite bind_log. unfold read at 1. unfold log_of at 1. cbn [fst snd app].
  unfold read, state_of. cbn [fst snd].
  by destruct (_ =? _)%nat; constructor.
Qed.

Lemma produced_by_participants s socket e :
  (∃ p, em_event e = EvParticipants p) → produced_by s (Disconnect socket) e.
Proof. intros [p Hp]. unfold produced_by. rewrite Hp. right. by eexists. Qed.

(** X8: every event the server emits comes from the kind of message
    that is meant to produce it and carries the id of the connection
    that sent that message: [chat] comes from a chat message, with the
    sender's id, its display name and the trimmed text, which is not
    empty; [offer], [answer] and [ice-candidate] come from the message of
    that name, with the sender's id and the payload as received;
    [need-offer] names the joiner; timer events come from a join, and
    participants events from a join or a disconnection. *)
Theorem events_come_from_their_message (i : Input) (s : Server) :
  Forall (produced_by s i) (log_of (step i s)).
Proof.
  destruct i.
  - unfold step. destruct (fresh_id s socket); by constructor.
  - destruct (connected s socket) eqn:Hc;
      [|rewrite step_not_connected by done; by constructor].
    rewrite (step_join _ _ _ _ Hc).
    destruct (js_truthy room && is_string room) eqn:Hroom;
      [|rewrite on_join_invalid_room by done; by constructor].
    apply valid_room_inv in Hroom as (r & -> & Hr).
    rewrite (on_join_computed _ _ _ _ Hr). unfold log_of. cbn [snd].
    apply Forall_app. split.
    + destruct (join_fires socket r s); repeat constructor.
      unfold produced_by. cbn. by eexists _, _, _.
    + repeat constructor; unfold produced_by; cbn; eauto.
  - destruct (connected s socket) eqn:Hc;
      [|rewrite step_not_connected by done; by constructor].
    rewrite (step_chat _ _ _ _ Hc). unfold on_chat.
    destruct (negb (js_truthy room) || negb (is_string room)); [by constructor|].
    fold (chat_text text).
    destruct (js_truthy (JStr (chat_text text))) eqn:Hm; cbn [negb]; [|by constructor].
    repeat constructor. unfold produced_by. cbn.
    exists room, text. split_and!; try done.
    + by apply js_truthy_str.
    + apply trim_idempotent.
  - destruct (connected s socket) eqn:Hc;
      [|rewrite step_not_connected by done; by constructor].
    rewrite (step_offer _ _ _ _ Hc). unfold on_offer.
    destruct (js_truthy to && js_truthy sdp); repeat constructor.
    unfold produced_by. cbn. by eexists.
  - destruct (connected s socket) eqn:Hc;
      [|rewrite step_not_connected by done; by constructor].
    rewrite (step_answer _ _ _ _ Hc). unfold on_answer.
    destruct (js_truthy to && js_truthy sdp); repeat constructor.
    unfold produced_by. cbn. by eexists.
  - destruct (connected s socket) eqn:Hc;
      [|rewrite step_not_connected by done; by constructor].
    rewrite (step_ice_candidate _ _ _ _ Hc). unfold on_ice_candidate.
    destruct (js_truthy to && js_truthy candidate); repeat constructor.
    unfold produced_by. cbn. by eexists.
  - destruct (connected s socket) eqn:Hc;
      [|rewrite step_not_connected by done; by constructor].
    rewrite (step_disconnect _ _ Hc), bind_log.
    apply Forall_app. split; [|by constructor].
    unfold on_disconnecting. rewrite bind_log. unfold read at 1.
    unfold log_of at 1. cbn [fst snd app].
    eapply Forall_impl; [apply on_disconnecting_only_participants|].
    intros e He. by apply produced_by_participants.
Qed.

(** ** What each connection sees of a join *)

Lemma delivered_app socket l1 l2 :
  delivered socket (l1 ++ l2) = delivered socket l1 ++ delivered socket l2.
Proof. unfold delivered. by rewrite filter_app, fmap_app. Qed.

Lemma delivered_emit socket t (X : gset SocketId) ev log :
  delivered socket ({| em_target := t; em_to := X; em_event := ev |} :: log) =
  (if decide (socket ∈ X) then [ev] else []) ++ delivered socket log.
Proof. rewrite delivered_cons. cbn [em_to em_event]. by case_decide. Qed.

(** X9: what a join with a valid room string delivers, connection by
    connection.  The joiner receives [timer-state] and then the
    participants; every other member of the room receives [need-offer]
    for the joiner and then the participants; when the timer starts on
    this join, both are first sent [timer-start]; a connection that is
    not in the room receives nothing. *)
Theorem join_deliveries socket r now s :
  connected s socket = true →
  r ≠ "" →
  let s' := state_of (step (Join socket (JStr r) now) s) in
  let log := log_of (step (Join socket (JStr r) now) s) in
  ∃ roomState start,
    rooms s' !! r = Some roomState ∧
    start =
      (if (2 <=? room_size s' r)%nat && negb (started (join_record_before r s))
       then [EvTimerStart (Some now) (duration roomState)] else []) ∧
    delivered socket log =
      start ++ [ EvTimerState (startedAt roomState) (duration roomState);
                 EvParticipants (participants_of s' (members s' r)) ] ∧
    (∀ x, x ∈ members s' r → x ≠ socket →
          delivered x log =
            start ++ [ EvNeedOffer socket;
                       EvParticipants (participants_of s' (members s' r)) ]) ∧
    (∀ x, x ∉ members s' r → delivered x log = []).
Proof.
  intros Hc Hr s' log. subst s' log.
  rewrite (step_join _ _ _ _ Hc), (on_join_computed _ _ _ _ Hr).
  unfold state_of, log_of. cbn [fst snd].
  set (s1 := adapter_add socket r s).
  set (rs := join_record_after socket r now s).
  assert (Hsock : socket ∈ members s1 r).
  { unfold s1. rewrite members_adapter_add, decide_True by done.
    apply elem_of_set_add. by left. }
  assert (Hd : duration (join_record_before r s) = duration rs).
  { unfold rs, join_record_after. by destruct (join_fires socket r s). }
  exists rs. eexists. split; [apply rooms_join_state|]. split; [reflexivity|].
  rewrite participants_of_join_state, members_join_state, room_size_join_state.
  fold s1.
  change ((2 <=? room_size s1 r)%nat && negb (started (join_record_before r s)))
    with (join_fires socket r s).
  rewrite Hd.
  assert (Hstart : ∀ x,
    delivered x
      (if join_fires socket r s
       then [ {| em_target := IoTo (JStr r);
                 em_to := list_to_set (members s1 r);
                 em_event := EvTimerStart (Some now) (duration rs) |} ]
       else []) =
    if decide (x ∈ members s1 r)
    then (if join_fires socket r s
          then [EvTimerStart (Some now) (duration rs)] else [])
    else []).
  { intros x. destruct (join_fires socket r s).
    - apply delivered_single.
    - by case_decide. }
  split_and!.
  - rewrite delivered_app, Hstart, !delivered_emit, decide_True by done.
    rewrite (decide_True (P := socket ∈ ({[socket]} : gset SocketId)))
      by (by apply elem_of_singleton).
    rewrite (decide_False (P := socket ∈ list_to_set (members s1 r) ∖ {[socket]}))
      by (rewrite elem_of_difference, elem_of_singleton; tauto).
    rewrite (decide_True (P := socket ∈ (list_to_set (members s1 r) : gset SocketId)))
      by (by apply elem_of_list_to_set).
    reflexivity.
  - intros x Hx Hne. rewrite delivered_app, Hstart, !delivered_emit, decide_True by done.
    rewrite (decide_False (P := x ∈ ({[socket]} : gset SocketId)))
      by (by rewrite elem_of_singleton).
    rewrite (decide_True (P := x ∈ list_to_set (members s1 r) ∖ {[socket]}))
      by (rewrite elem_of_difference, elem_of_list_to_set, elem_of_singleton; done).
    rewrite (decide_True (P := x ∈ (list_to_set (members s1 r) : gset SocketId)))
      by (by apply elem_of_list_to_set).
    reflexivity.
  - intros x Hx.
    assert (x ≠ socket) as Hne by (by intros ->).
    rewrite delivered_app, Hstart, !delivered_emit, decide_False by done.
    rewrite (decide_False (P := x ∈ ({[socket]} : gset SocketId)))
      by (by rewrite elem_of_singleton).
    rewrite (decide_False (P := x ∈ list_to_set (members s1 r) ∖ {[socket]}))
      by (rewrite elem_of_difference, elem_of_list_to_set; tauto).
    rewrite (decide_False (P := x ∈ (list_to_set (members s1 r) : gset SocketId)))
      by (by rewrite elem_of_list_to_set).
    reflexivity.
Qed.

Lemma join_deliveries_witness :
  let s := state_of (run [Connect "A" (JStr "alice"); Connect "B" JUndefined;
                          Join "A" (JStr "r1") 1000] init) in
  connected s "B" = true ∧ "r1" ≠ "" ∧
  let s' := state_of (step (Join "B" (JStr "r1") 2000) s) in
  let log := log_of (step (Join "B" (JStr "r1") 2000) s) in
  ∃ roomState start,
    rooms s' !! "r1" = Some roomState ∧
    start =
      (if (2 <=? room_size s' "r1")%nat && negb (started (join_record_before "r1" s))
       then [EvTimerStart (Some 2000%Z) (duration roomState)] else []) ∧
    delivered "B" log =
      start ++ [ EvTimerState (startedAt roomState) (duration roomState);
                 EvParticipants (participants_of s' (members s' "r1")) ] ∧
    (∀ x, x ∈ members s' "r1" → x ≠ "B" →
          delivered x log =
            start ++ [ EvNeedOffer "B";
                       EvParticipants (participants_of s' (members s' "r1")) ]) ∧
    (∀ x, x ∉ members s' "r1" → delivered x log = []).
Proof.
  intros s.
  assert (Hc : connected s "B" = true) by reflexivity.
  assert (Hr : "r1" ≠ "") by discriminate.
  exact (conj Hc (conj Hr (join_deliveries "B" "r1" 2000 s Hc Hr))).
Defined.

(** X10: a join adds the joiner to the room joined and changes nothing
    else of the registry.  The joiner is a member of the room
    afterwards: the room has its former members in their order,
    followed by the joiner when it was not one of them.  The other
    rooms keep their members, the live connections are the same, the
    joiner's rooms are its former ones, followed by the room when it
    is new, and the other connections keep their rooms. *)
Theorem join_touches_one_room socket r now s :
  connected s socket = true →
  r ≠ "" →
  let s' := state_of (step (Join socket (JStr r) now) s) in
  (∀ r', r' ≠ r → members s' r' = members s r') ∧
  socket ∈ members s' r ∧
  (socket ∈ members s r → members s' r = members s r) ∧
  (socket ∉ members s r → members s' r = members s r ++ [socket]) ∧
  sockets s' = sockets s ∧
  r ∈ socket_rooms s' socket ∧
  (r ∈ socket_rooms s socket → socket_rooms s' socket = socket_rooms s socket) ∧
  (r ∉ socket_rooms s socket → socket_rooms s' socket = socket_rooms s socket ++ [r]) ∧
  (∀ x, x ≠ socket → socket_rooms s' x = socket_rooms s x).
Proof.
  intros Hc Hr s'. subst s'.
  rewrite (step_join _ _ _ _ Hc), (on_join_computed _ _ _ _ Hr).
  unfold state_of. cbn [fst snd].
  rewrite !members_join_state, !socket_rooms_join_state.
  rewrite members_adapter_add, socket_rooms_adapter_add, !decide_True by done.
  split_and!.
  - intros r' Hne. by rewrite members_join_state, members_adapter_add, decide_False.
  - apply elem_of_set_add. by left.
  - intros Hin. unfold set_add. by rewrite decide_True.
  - intros Hin. unfold set_add. by rewrite decide_False.
  - by destruct (join_state_adapter socket r now s) as (-> & _ & _).
  - apply elem_of_set_add. by left.
  - intros Hin. unfold set_add. by rewrite decide_True.
  - intros Hin. unfold set_add. by rewrite decide_False.
  - intros x Hne.
    by rewrite socket_rooms_join_state, socket_rooms_adapter_add, decide_False.
Qed.

Lemma join_touches_one_room_witness :
  let s := state_of (run [Connect "A" (JStr "alice"); Connect "B" JUndefined;
                          Join "A" (JStr "r1") 1000] init) in
  (connected s "B" = true ∧ "r1" ≠ "" ∧
   let s' := state_of (step (Join "B" (JStr "r1") 2000) s) in
   (∀ r', r' ≠ "r1" → members s' r' = members s r') ∧
   "B" ∈ members s' "r1" ∧
   ("B" ∈ members s "r1" → members s' "r1" = members s "r1") ∧
   ("B" ∉ members s "r1" → members s' "r1" = members s "r1" ++ ["B"]) ∧
   sockets s' = sockets s ∧
   "r1" ∈ socket_rooms s' "B" ∧
   ("r1" ∈ socket_rooms s "B" → socket_rooms s' "B" = socket_rooms s "B") ∧
   ("r1" ∉ socket_rooms s "B" →
      socket_rooms s' "B" = socket_rooms s "B" ++ ["r1"]) ∧
   (∀ x, x ≠ "B" → socket_rooms s' x = socket_rooms s x)) ∧
  (connected s "A" = true ∧ "r1" ≠ "" ∧
   let s' := state_of (step (Join "A" (JStr "r1") 3000) s) in
   (∀ r', r' ≠ "r1" → members s' r' = members s r') ∧
   "A" ∈ members s' "r1" ∧
   ("A" ∈ members s "r1" → members s' "r1" = members s "r1") ∧
   ("A" ∉ members s "r1" → members s' "r1" = members s "r1" ++ ["A"]) ∧
   sockets s' = sockets s ∧
   "r1" ∈ socket_rooms s' "A" ∧
   ("r1" ∈ socket_rooms s "A" → socket_rooms s' "A" = socket_rooms s "A") ∧
   ("r1" ∉ socket_rooms s "A" →
      socket_rooms s' "A" = socket_rooms s "A" ++ ["r1"]) ∧
   (∀ x, x ≠ "A" → socket_rooms s' x = socket_rooms s x)).
Proof.
  intros s.
  assert (Hb : connected s "B" = true) by reflexivity.
  assert (Ha : connected s "A" = true) by reflexivity.
  assert (Hr : "r1" ≠ "") by discriminate.
  exact (conj (conj Hb (conj Hr (join_touches_one_room "B" "r1" 2000 s Hb Hr)))
              (conj Ha (conj Hr (join_touches_one_room "A" "r1" 3000 s Ha Hr)))).
Defined.

(** ** The duration of the meeting *)

(** The records of the table after a join are the former ones, but for
    the time stamp, and the one the join creates. *)
Lemma rooms_own_join_state socket r now s k rs :
  rooms_own (join_state socket r now s) !! k = Some rs →
  duration rs = Some 60%Z ∨
  ∃ rs0, rooms_own s !! k = Some rs0 ∧ duration rs = duration rs0.
Proof.
  unfold join_state.
  assert (Hbefore : ∀ rs',
    rooms_own (match rooms s !! r with
               | Some _ => adapter_add socket r s
               | None => store_room r default_room (adapter_add socket r s)
               end) !! k = Some rs' →
    duration rs' = Some 60%Z ∨ rooms_own s !! k = Some rs').
  { intros rs'. destruct (rooms s !! r); [by right|].
    cbn [rooms_own store_room adapter_add]. rewrite lookup_insert.
    case_decide; [|by right]. intros [= <-]. by left. }
  destruct (join_fires socket r s).
  - intros [H|(rs0 & H & Hd)]%write_startedAt_own.
    + apply Hbefore in H as [H|H]; [by left|]. right. eauto.
    + apply Hbefore in H as [H|H]; [left; congruence|]. right. eauto.
  - intros H. apply Hbefore in H as [H|H]; [by left|]. right. eauto.
Qed.

Lemma duration_inv_join socket r now s :
  duration_inv s → duration_inv (join_state socket r now s).
Proof.
  intros Hd k rs [H|(rs0 & H & Hrs)]%rooms_own_join_state; [done|].
  rewrite Hrs. by eapply Hd.
Qed.

(** A join to a room that is not named by a property of
    [Object.prototype] writes on no inherited object. *)
Lemma plain_join_writes_nothing_inherited socket r now s :
  r ∉ object_prototype_names →
  inherited_startedAt (join_state socket r now s) = inherited_startedAt s.
Proof.
  intros Hr. unfold join_state, write_startedAt.
  destruct (join_fires socket r s); [|by destruct (rooms s !! r)].
  destruct (rooms s !! r).
  - destruct (rooms_own (adapter_add socket r s) !! r); [done|].
    by rewrite decide_False.
  - cbn [rooms_own store_room]. by rewrite lookup_insert_eq.
Qed.

(** While nothing is written on an inherited object, what [rooms] finds
    under a name that [Object.prototype] does not have is a record of
    the table. *)
Lemma plain_lookup_own s r rs :
  nothing_inherited_written s →
  r ∉ object_prototype_names →
  rooms s !! r = Some rs → rooms_own s !! r = Some rs.
Proof.
  intros Hw Hr. rewrite rooms_lookup, Hw, lookup_empty.
  destruct (rooms_own s !! r); [done|].
  rewrite decide_False by done. by case_decide.
Qed.

(** Chat and relay messages emit no timer event. *)
Lemma message_events_no_timer i s :
  match i with
  | Chat _ _ _ | Offer _ _ _ | Answer _ _ _ | IceCandidate _ _ _ => True
  | _ => False
  end →
  Forall carries_default_duration (log_of (step i s)).
Proof.
  destruct i; try done; intros _; unfold step; cbn [sender];
    destruct (connected s socket); cbn [negb]; try (by constructor).
  - unfold on_chat.
    destruct (negb (js_truthy room) || negb (is_string room)); [by constructor|].
    destruct (negb (js_truthy _)); by repeat constructor.
  - unfold on_offer. destruct (js_truthy to && js_truthy sdp); by repeat constructor.
  - unfold on_answer. destruct (js_truthy to && js_truthy sdp); by repeat constructor.
  - unfold on_ice_candidate.
    destruct (js_truthy to && js_truthy candidate); by repeat constructor.
Qed.

(** The records of the table keep the default duration, whatever the
    rooms are named. *)
Lemma duration_inv_step i s :
  registry_ok s → duration_inv s → duration_inv (state_of (step i s)).
Proof.
  intros Hs Hd. destruct i; try (by rewrite step_chat_relay_state).
  - unfold step. by destruct (fresh_id s socket).
  - destruct (connected s socket) eqn:Hc; [|by rewrite step_not_connected].
    rewrite (step_join _ _ _ _ Hc).
    destruct (js_truthy room && is_string room) eqn:Hroom;
      [|by rewrite on_join_invalid_room].
    apply valid_room_inv in Hroom as (r & -> & Hr).
    rewrite (on_join_computed _ _ _ _ Hr). by apply duration_inv_join.
  - destruct (connected s socket) eqn:Hc; [|by rewrite step_not_connected].
    by rewrite (step_disconnect_computed _ _ (reg_rooms _ Hs) Hc).
Qed.

Lemma duration_inv_init : duration_inv init.
Proof. intros r rs H. unfold init in H. cbn in H. by rewrite lookup_empty in H. Qed.

Lemma duration_inv_reachable (tr : list Input) :
  duration_inv (state_of (run tr init)).
Proof.
  assert (H : ∀ tr s, registry_ok s → duration_inv s → duration_inv (state_of (run tr s))).
  { clear tr. induction tr as [|i tr IH]; intros s Hs Hd; [done|].
    rewrite run_cons. unfold state_of at 1. cbn [fst snd].
    apply IH; [by apply registry_ok_step|by apply duration_inv_step]. }
  apply H; [apply registry_ok_init|apply duration_inv_init].
Qed.

(** One step of a run whose joins name no property of
    [Object.prototype]. *)
Lemma plain_step i s :
  plain_join i = true →
  registry_ok s → duration_inv s → nothing_inherited_written s →
  nothing_inherited_written (state_of (step i s)) ∧
  Forall carries_default_duration (log_of (step i s)).
Proof.
  intros Hplain Hs Hd Hw.
  assert (Hkeep : state_of (step i s) = s →
            Forall carries_default_duration (log_of (step i s)) →
            nothing_inherited_written (state_of (step i s)) ∧
            Forall carries_default_duration (log_of (step i s))).
  { intros Hst Hl. by rewrite Hst. }
  destruct i;
    try (apply Hkeep; [by rewrite step_chat_relay_state|by apply message_events_no_timer]).
  - unfold step. destruct (fresh_id s socket); by split; [|constructor].
  - clear Hkeep.
    destruct (connected s socket) eqn:Hc;
      [|rewrite step_not_connected by done; by split; [|constructor]].
    rewrite (step_join _ _ _ _ Hc).
    destruct (js_truthy room && is_string room) eqn:Hroom;
      [|rewrite on_join_invalid_room by done; by split; [|constructor]].
    apply valid_room_inv in Hroom as (r & -> & Hr).
    cbn in Hplain. apply negb_true_iff, bool_decide_eq_false in Hplain.
    rewrite (on_join_computed _ _ _ _ Hr). unfold state_of, log_of. cbn [fst snd].
    assert (duration (join_record_before r s) = Some 60%Z) as Hbefore.
    { unfold join_record_before. destruct (rooms s !! r) as [rs|] eqn:E; [|done].
      cbn. apply (Hd r). by apply plain_lookup_own. }
    assert (duration (join_record_after socket r now s) = Some 60%Z) as Hafter.
    { unfold join_record_after. by destruct (join_fires socket r s). }
    split.
    + unfold nothing_inherited_written.
      by rewrite plain_join_writes_nothing_inherited.
    + apply Forall_app. split.
      * destruct (join_fires socket r s); by repeat constructor.
      * by repeat constructor.
  - clear Hkeep.
    destruct (connected s socket) eqn:Hc;
      [|rewrite step_not_connected by done; by split; [|constructor]].
    rewrite (step_disconnect_computed _ _ (reg_rooms _ Hs) Hc).
    unfold state_of, log_of. cbn [fst snd]. split; [done|].
    apply Forall_fmap, Forall_forall. by intros room _.
Qed.

(** X11: the duration of a meeting is never anything but the default.
    In every run in which no join names a room by a property of
    [Object.prototype], every record of the table has the duration 60,
    [rooms] finds nothing but these records and the inherited objects,
    and every [timer-start] and [timer-state] event emitted carries
    60. *)
Theorem duration_is_always_sixty (tr : list Input) :
  plain_joins tr = true →
  (∀ r rs, rooms (state_of (run tr init)) !! r = Some rs →
     r ∉ object_prototype_names →
     rooms_own (state_of (run tr init)) !! r = Some rs ∧ duration rs = Some 60%Z) ∧
  Forall carries_default_duration (log_of (run tr init)).
Proof.
  assert (H : ∀ tr s, plain_joins tr = true →
            registry_ok s → duration_inv s → nothing_inherited_written s →
            nothing_inherited_written (state_of (run tr s)) ∧
            Forall carries_default_duration (log_of (run tr s))).
  { clear tr. induction tr as [|i tr IH]; intros s Hp Hs Hd Hw;
      [by split; [|constructor]|].
    cbn in Hp. apply andb_true_iff in Hp as [Hi Hp].
    rewrite run_cons. unfold state_of at 1, log_of at 1. cbn [fst snd].
    destruct (plain_step i s Hi Hs Hd Hw) as [Hw' Hl].
    destruct (IH _ Hp (registry_ok_step i s Hs) (duration_inv_step i s Hs Hd) Hw')
      as [Hw'' Hl'].
    split; [done|]. by apply Forall_app. }
  intros Hp.
  destruct (H tr init Hp registry_ok_init duration_inv_init eq_refl) as [Hw Hl].
  split; [|done]. intros r rs Hrs Hr.
  pose proof (plain_lookup_own _ _ _ Hw Hr Hrs) as Hown.
  split; [done|]. by apply (duration_inv_reachable tr r).
Qed.

Lemma duration_is_always_sixty_witness :
  let tr := [ Connect "A" (JStr "alice"); Connect "B" JUndefined;
              Join "A" (JStr "r1") 1000; Join "B" (JStr "r1") 2000;
              Join "B" (JStr "startedAt") 2500; Disconnect "A" ] in
  plain_joins tr = true ∧
  (∀ r rs, rooms (state_of (run tr init)) !! r = Some rs →
     r ∉ object_prototype_names →
     rooms_own (state_of (run tr init)) !! r = Some rs ∧ duration rs = Some 60%Z) ∧
  Forall carries_default_duration (log_of (run tr init)).
Proof.
  intros tr.
  assert (Hp : plain_joins tr = true) by reflexivity.
  exact (conj Hp (duration_is_always_sixty tr Hp)).
Defined.

(** X12: a connection that joins a room whose timer is started is told
    the time it started at: it receives [timer-state] with that time
    stamp and the duration of what [rooms] finds, then the
    participants; no [timer-start] is emitted, and the time stamp of the
    room stays what it was.  The duration is 60 when the room is a
    record of the table, which it is unless it is named by a property
    that [rooms] inherits or by [startedAt]. *)
Theorem late_joiner_is_told_the_start (tr : list Input) socket r now t :
  clocks_ok tr = true →
  let s := state_of (run tr init) in
  connected s socket = true →
  r ≠ "" →
  room_startedAt s r = Some t →
  let s' := state_of (step (Join socket (JStr r) now) s) in
  let log := log_of (step (Join socket (JStr r) now) s) in
  ∃ roomState,
    rooms s !! r = Some roomState ∧
    delivered socket log =
      [ EvTimerState (Some t) (duration roomState);
        EvParticipants (participants_of s' (members s' r)) ] ∧
    (inherited_name r = false → duration roomState = Some 60%Z) ∧
    timer_starts r log = 0%nat ∧
    room_startedAt s' r = Some t.
Proof.
  intros Hok s Hc Hr Ht s' log. subst s' log.
  pose proof (consistent_reachable tr Hok) as Hs. fold s in Hs.
  pose proof (duration_inv_reachable tr) as Hd. fold s in Hd.
  unfold room_startedAt in Ht.
  destruct (rooms s !! r) as [rs|] eqn:Hrs; [|done]. cbn in Ht.
  assert (Hb : join_record_before r s = rs)
    by (unfold join_record_before; by rewrite Hrs).
  assert (Hst : started rs = true).
  { pose proof (cons_stamp _ Hs _ _ Hrs) as Hz. unfold started. rewrite Ht.
    apply negb_true_iff, Z.eqb_neq. congruence. }
  assert (Hfire : join_fires socket r s = false).
  { unfold join_fires. rewrite Hb, Hst. by rewrite andb_false_r. }
  assert (Ha : join_record_after socket r now s = rs).
  { unfold join_record_after. by rewrite Hfire. }
  exists rs. split; [done|].
  rewrite (step_join _ _ _ _ Hc), (join_timer_starts _ _ _ _ _ Hr), Hfire.
  rewrite (on_join_computed _ _ _ _ Hr). unfold state_of, log_of. cbn [fst snd].
  rewrite Hfire, Ha, Ht. cbn [app]. split_and!.
  - rewrite !delivered_emit, participants_of_join_state, members_join_state.
    rewrite (decide_True (P := socket ∈ ({[socket]} : gset SocketId)))
      by (by apply elem_of_singleton).
    rewrite decide_False by (rewrite elem_of_difference, elem_of_singleton; tauto).
    rewrite decide_True; [done|].
    apply elem_of_list_to_set. rewrite members_adapter_add, decide_True by done.
    apply elem_of_set_add. by left.
  - intros Hname. apply rooms_lookup_cases in Hrs as [Hown|(_ & _ & Hinh)].
    + by apply (Hd r).
    + congruence.
  - done.
  - unfold room_startedAt. rewrite rooms_join_state, Ha. cbn. exact Ht.
Qed.

Lemma late_joiner_is_told_the_start_witness :
  let tr := [ Connect "A" (JStr "alice"); Connect "B" JUndefined;
              Connect "C" JNull;
              Join "A" (JStr "r1") 1000; Join "B" (JStr "r1") 2000 ] in
  clocks_ok tr = true ∧
  let s := state_of (run tr init) in
  connected s "C" = true ∧ "r1" ≠ "" ∧
  room_startedAt s "r1" = Some 2000%Z ∧
  let s' := state_of (step (Join "C" (JStr "r1") 3000) s) in
  let log := log_of (step (Join "C" (JStr "r1") 3000) s) in
  ∃ roomState,
    rooms s !! "r1" = Some roomState ∧
    delivered "C" log =
      [ EvTimerState (Some 2000%Z) (duration roomState);
        EvParticipants (participants_of s' (members s' "r1")) ] ∧
    (inherited_name "r1" = false → duration roomState = Some 60%Z) ∧
    timer_starts "r1" log = 0%nat ∧
    room_startedAt s' "r1" = Some 2000%Z.
Proof.
  intros tr.
  assert (Hok : clocks_ok tr = true) by reflexivity.
  split; [exact Hok|]. intros s.
  assert (Hc : connected s "C" = true) by reflexivity.
  assert (Hr : "r1" ≠ "") by discriminate.
  assert (Ht : room_startedAt s "r1" = Some 2000%Z) by reflexivity.
  exact (conj Hc (conj Hr (conj Ht
    (late_joiner_is_told_the_start tr "C" "r1" 3000 2000 Hok Hc Hr Ht)))).
Defined.

(** ** What a disconnection emits, and what it keeps *)

(** X13: when a live connection is closed, the server emits one
    participants event for each room the connection had joined, in the
    order it joined them, addressed to that room, and nothing else; the
    room of the connection's own id, which is among its rooms, gets
    none.  Each list is the membership of the room read while the
    connection is still in it. *)
Theorem disconnect_notifies_each_room (tr : list Input) (socket : SocketId) :
  connected (state_of (run tr init)) socket = true →
  let s := state_of (run tr init) in
  log_of (step (Disconnect socket) s) =
    map (λ room, {| em_target := IoTo (JStr room);
                    em_to := list_to_set (members s room);
                    em_event := EvParticipants (participants_of s (members s room)) |})
        (filter (λ room, room ≠ socket) (socket_rooms s socket)) ∧
  socket ∈ socket_rooms s socket ∧
  Forall (λ room, socket ∈ members s room) (socket_rooms s socket).
Proof.
  intros Hc s. pose proof (registry_ok_reachable tr) as Hs. fold s in Hs, Hc.
  rewrite (step_disconnect_computed _ _ (reg_rooms _ Hs) Hc).
  split_and!; [done| |].
  - by apply (reg_sids _ Hs), (reg_own _ Hs).
  - apply Forall_forall. intros room Hin. by apply (reg_rooms _ Hs).
Qed.

Lemma disconnect_notifies_each_room_witness :
  let tr := [ Connect "A" (JStr "alice"); Connect "B" JUndefined;
              Join "A" (JStr "r1") 1000; Join "A" (JStr "r2") 1500;
              Join "B" (JStr "r1") 2000 ] in
  connected (state_of (run tr init)) "A" = true ∧
  let s := state_of (run tr init) in
  log_of (step (Disconnect "A") s) =
    map (λ room, {| em_target := IoTo (JStr room);
                    em_to := list_to_set (members s room);
                    em_event := EvParticipants (participants_of s (members s room)) |})
        (filter (λ room, room ≠ "A") (socket_rooms s "A")) ∧
  "A" ∈ socket_rooms s "A" ∧
  Forall (λ room, "A" ∈ members s room) (socket_rooms s "A").
Proof.
  intros tr.
  assert (Hc : connected (state_of (run tr init)) "A" = true) by reflexivity.
  exact (conj Hc (disconnect_notifies_each_room tr "A" Hc)).
Defined.

Lemma run_app tr tr' s :
  state_of (run (tr ++ tr') s) = state_of (run tr' (state_of (run tr s))).
Proof.
  revert s. induction tr as [|i tr IH]; intros s; [done|].
  cbn [app]. rewrite !run_cons. unfold state_of at 1 4. cbn [fst snd]. apply IH.
Qed.

Lemma record_kept_step r i s :
  registry_ok s → is_Some (rooms s !! r) → is_Some (rooms (state_of (step i s)) !! r).
Proof.
  intros Hs Hrec. destruct i; try (by rewrite step_chat_relay_state).
  - unfold step. by destruct (fresh_id s socket).
  - destruct (connected s socket) eqn:Hc; [|by rewrite step_not_connected].
    rewrite (step_join _ _ _ _ Hc).
    destruct (js_truthy room && is_string room) eqn:Hroom;
      [|by rewrite on_join_invalid_room].
    apply valid_room_inv in Hroom as (r0 & -> & Hr0).
    rewrite (on_join_computed _ _ _ _ Hr0). unfold state_of. cbn [fst snd].
    by apply rooms_join_state_names.
  - destruct (connected s socket) eqn:Hc; [|by rewrite step_not_connected].
    by rewrite (step_disconnect_computed _ _ (reg_rooms _ Hs) Hc).
Qed.

Lemma record_kept_run r tr s :
  registry_ok s → is_Some (rooms s !! r) → is_Some (rooms (state_of (run tr s)) !! r).
Proof.
  revert s. induction tr as [|i tr IH]; intros s Hs Hrec; [done|].
  rewrite run_cons. unfold state_of at 1. cbn [fst snd].
  apply IH; [by apply registry_ok_step|by apply record_kept_step].
Qed.

(** X14: the table [rooms] only grows: a room that has a record at some
    point of a run has one at every later point, whatever joins,
    messages and disconnections come in between. *)
Theorem rooms_table_only_grows (tr tr' : list Input) (r : Room) :
  is_Some (rooms (state_of (run tr init)) !! r) →
  is_Some (rooms (state_of (run (tr ++ tr') init)) !! r).
Proof.
  intros H. rewrite run_app. apply record_kept_run; [apply registry_ok_reachable|done].
Qed.

Lemma rooms_table_only_grows_witness :
  let tr := [ Connect "A" (JStr "alice"); Join "A" (JStr "r1") 1000 ] in
  let tr' := [ Disconnect "A"; Connect "B" JUndefined ] in
  is_Some (rooms (state_of (run tr init)) !! "r1") ∧
  is_Some (rooms (state_of (run (tr ++ tr') init)) !! "r1").
Proof.
  intros tr tr'.
  assert (H : is_Some (rooms (state_of (run tr init)) !! "r1")) by (vm_compute; eauto).
  exact (conj H (rooms_table_only_grows tr tr' "r1" H)).
Defined.

(** ** The earlier handlers *)

Lemma earlier_on_disconnecting_loop socket l s :
  for_each l (earlier_on_disconnecting_room socket) s =
  (tt, s,
   map (λ room, {| em_target := IoTo (JStr room);
                   em_to := list_to_set (members s room);
                   em_event :=
                     EvParticipants
                       (participants_of s (set_delete socket (members s room))) |})
       (filter (λ room, room ≠ socket) l)).
Proof.
  induction l as [|room l IH]; [done|].
  cbn [for_each]. unfold bind. rewrite filter_cons.
  destruct (decide (room = socket)) as [->|Hne].
  - unfold earlier_on_disconnecting_room at 1. rewrite decide_True by done.
    unfold ret at 1. rewrite IH. by rewrite decide_False by (by intros []).
  - unfold earlier_on_disconnecting_room at 1. rewrite decide_False by done.
    unfold bind, read, emit. cbn [fst snd recipients target_rooms].
    rewrite IH, joined_any_single, decide_True by done. reflexivity.
Qed.

Lemma participants_of_delete socket s l :
  socket ∉ l →
  participants_of (adapter_del_all socket s) l = participants_of s l.
Proof.
  intros Hl. unfold participants_of. apply map_ext_in. intros x Hx.
  apply list_elem_of_In in Hx.
  cbn [sockets adapter_del_all]. rewrite lookup_delete_ne; [done|].
  by intros ->.
Qed.

Lemma earlier_close_computed socket s :
  earlier_close socket s =
  (tt, adapter_del_all socket s,
   map (λ room, {| em_target := IoTo (JStr room);
                   em_to := list_to_set (members s room);
                   em_event :=
                     EvParticipants
                       (participants_of s (set_delete socket (members s room))) |})
       (filter (λ room, room ≠ socket) (socket_rooms s socket))).
Proof.
  unfold earlier_close. unfold bind at 1.
  unfold earlier_on_disconnecting, bind, read. cbn [fst snd].
  rewrite earlier_on_disconnecting_loop. unfold update. cbn. by rewrite app_nil_r.
Qed.

(** X15: in the earlier file, closing a connection emits, for each room
    it had joined, a participants event whose list is the membership of
    the room once the connection has left it: the connection that leaves
    is never in the list.  The event is still addressed to the room as it
    is before the connection leaves. *)
Theorem earlier_disconnect_lists_who_remains (socket : SocketId) (s : Server) :
  let s' := state_of (earlier_close socket s) in
  s' = adapter_del_all socket s ∧
  log_of (earlier_close socket s) =
    map (λ room, {| em_target := IoTo (JStr room);
                    em_to := list_to_set (members s room);
                    em_event := EvParticipants (participants_of s' (members s' room)) |})
        (filter (λ room, room ≠ socket) (socket_rooms s socket)) ∧
  Forall (λ room, socket ∉ members s' room) (socket_rooms s socket).
Proof.
  intros s'. subst s'. rewrite earlier_close_computed.
  unfold state_of, log_of. cbn [fst snd].
  split_and!; [done| |].
  - apply map_ext_in. intros room Hin. apply list_elem_of_In in Hin.
    apply list_elem_of_filter in Hin as [_ Hin]. f_equal. f_equal.
    rewrite members_adapter_del_all, decide_True by done.
    symmetry. apply participants_of_delete.
    rewrite elem_of_set_delete. tauto.
  - apply Forall_forall. intros room Hin.
    rewrite members_adapter_del_all, decide_True by done.
    rewrite elem_of_set_delete. tauto.
Qed.

(** X16: the join handler of the earlier file drops a room that is not
    a string or that is empty or white space only; otherwise it adds the
    joiner to the room under the name as given, not trimmed, asks the
    other members for an offer and broadcasts the participants.  It
    emits no timer event and leaves the table of room records alone. *)
Theorem earlier_join_effects (socket : SocketId) (s : Server) :
  (∀ room, is_string room = false → earlier_on_join socket room s = (tt, s, [])) ∧
  (∀ r, blank r = true → earlier_on_join socket (JStr r) s = (tt, s, [])) ∧
  (∀ r, blank r = false →
     let s' := adapter_add socket r s in
     earlier_on_join socket (JStr r) s =
       (tt, s',
        [ {| em_target := SocketTo socket r;
             em_to := list_to_set (members s' r) ∖ {[socket]};
             em_event := EvNeedOffer socket |};
          {| em_target := IoTo (JStr r);
             em_to := list_to_set (members s' r);
             em_event := EvParticipants (participants_of s' (members s' r)) |} ]) ∧
     rooms s' = rooms s ∧ socket ∈ members s' r).
Proof.
  split_and!.
  - intros room H. by destruct room.
  - intros r Hb. unfold earlier_on_join.
    by rewrite (proj2 (trim_empty_iff r) Hb).
  - intros r Hb s'. subst s'. unfold earlier_on_join.
    assert (trim r ≠ "") as Hne by (rewrite trim_empty_iff; by rewrite Hb).
    rewrite (proj2 (js_truthy_str _) Hne). cbn [negb].
    unfold bind, update, emit, read. cbn [fst snd recipients target_rooms app].
    rewrite !joined_any_single. split_and!; [done|done|].
    rewrite members_adapter_add, decide_True by done. apply elem_of_set_add. by left.
Qed.

(** X17: the two versions of the relay compared.  For a target that is
    a non-empty string they do the same; the earlier one drops every
    target that is not a string, and the current one drops the empty
    string, which the earlier one takes for a room name. *)
Theorem relay_versions_agree_on_strings (socket : SocketId) (payload : jsval)
    (s : Server) :
  (∀ t, t ≠ "" →
     earlier_on_offer socket (JStr t) payload s = on_offer socket (JStr t) payload s ∧
     earlier_on_answer socket (JStr t) payload s = on_answer socket (JStr t) payload s ∧
     earlier_on_ice_candidate socket (JStr t) payload s =
       on_ice_candidate socket (JStr t) payload s) ∧
  (∀ to, is_string to = false →
     earlier_on_offer socket to payload s = (tt, s, []) ∧
     earlier_on_answer socket to payload s = (tt, s, []) ∧
     earlier_on_ice_candidate socket to payload s = (tt, s, [])) ∧
  (on_offer socket (JStr "") payload s = (tt, s, []) ∧
   on_answer socket (JStr "") payload s = (tt, s, []) ∧
   on_ice_candidate socket (JStr "") payload s = (tt, s, [])) ∧
  (js_truthy payload = true →
   log_of (earlier_on_offer socket (JStr "") payload s) =
     [ {| em_target := IoTo (JStr ""); em_to := list_to_set (members s "");
          em_event := EvOffer socket payload |} ]).
Proof.
  split_and!.
  - intros t Ht. apply js_truthy_str in Ht.
    unfold earlier_on_offer, earlier_on_answer, earlier_on_ice_candidate,
      on_offer, on_answer, on_ice_candidate. cbn [is_string]. by rewrite Ht.
  - intros to Hto.
    unfold earlier_on_offer, earlier_on_answer, earlier_on_ice_candidate.
    by rewrite Hto.
  - done.
  - done.
  - done.
  - intros Hp. unfold earlier_on_offer. cbn [is_string andb]. rewrite Hp.
    apply relay_computed.
Qed.

(** ** Messages as they come *)

(** The argument of a message, field by field. *)
Example field_examples :
  field "room" (JObj [("room", JStr "r1"); ("text", JStr "hi")]) = JStr "r1" ∧
  field "text" (JObj [("room", JStr "r1")]) = JUndefined ∧
  field "room" (JObj [("room", JStr "r1"); ("room", JNum 2)]) = JNum 2 ∧
  field "room" (JStr "room") = JUndefined ∧
  field "to" (JArr [JStr "to"]) = JUndefined.
Proof. vm_compute. done. Qed.



(** A chat whose text is an object with a [toString] property ends the
    process when its room is a non-empty string, and is dropped before
    the text is looked at otherwise. *)
Example chat_text_that_throws :
  let text := JObj [("toString", JNum 1)] in
  receive "A" MsgChat (JObj [("room", JStr "r1"); ("text", text)]) 3000 two_in_room
    = Exits ∧
  receive "A" MsgChat (JObj [("room", JStr ""); ("text", text)]) 3000 two_in_room
    = Continues (tt, two_in_room, []) ∧
  receive "A" MsgChat (JObj [("room", JStr "r1"); ("text", JObj [])]) 3000 two_in_room
    = Continues (step (Chat "A" (JStr "r1") (JObj [])) two_in_room) ∧
  delivered "B" (log_of (step (Chat "A" (JStr "r1") (JObj [])) two_in_room))
    = [ EvChat "alice" "A" "[object Object]" ].
Proof. vm_compute. done. Qed.

(** X19: a relay message whose target is the empty array and whose
    payload is not falsy is delivered to every live connection, the
    sender included, and to nothing else: [io.to([])] selects no room,
    and an emit with no room is a broadcast. *)
Theorem relay_to_empty_array_is_broadcast (socket : SocketId) (payload : jsval)
    (s : Server) :
  connected s socket = true →
  js_truthy payload = true →
  (∀ x, delivered x (log_of (step (Offer socket (JArr []) payload) s)) =
        if connected s x then [EvOffer socket payload] else []) ∧
  (∀ x, delivered x (log_of (step (Answer socket (JArr []) payload) s)) =
        if connected s x then [EvAnswer socket payload] else []) ∧
  (∀ x, delivered x (log_of (step (IceCandidate socket (JArr []) payload) s)) =
        if connected s x then [EvIceCandidate socket payload] else []) ∧
  delivered socket (log_of (step (Offer socket (JArr []) payload) s)) =
    [EvOffer socket payload].
Proof.
  intros Hc Hp.
  assert (Hdel : ∀ x ev,
    delivered x [ {| em_target := IoTo (JArr []); em_to := dom (sockets s);
                     em_event := ev |} ] =
    if connected s x then [ev] else []).
  { intros x ev. rewrite delivered_emit. cbn. rewrite app_nil_r.
    unfold connected. destruct (decide (x ∈ dom (sockets s))) as [Hin|Hin].
    - rewrite bool_decide_eq_true_2; [done|]. by apply elem_of_dom.
    - rewrite bool_decide_eq_false_2; [done|]. by rewrite <- elem_of_dom. }
  rewrite (step_offer _ _ _ _ Hc), (step_answer _ _ _ _ Hc),
    (step_ice_candidate _ _ _ _ Hc).
  unfold on_offer, on_answer, on_ice_candidate. rewrite Hp. cbn [js_truthy andb].
  unfold emit, log_of. cbn [snd recipients].
  split_and!; try (intros x; apply Hdel).
  by rewrite Hdel, Hc.
Qed.

Lemma relay_to_empty_array_is_broadcast_witness :
  let payload := JObj [("type", JStr "offer")] in
  connected two_in_room "A" = true ∧ js_truthy payload = true ∧
  (∀ x, delivered x (log_of (step (Offer "A" (JArr []) payload) two_in_room)) =
        if connected two_in_room x then [EvOffer "A" payload] else []) ∧
  (∀ x, delivered x (log_of (step (Answer "A" (JArr []) payload) two_in_room)) =
        if connected two_in_room x then [EvAnswer "A" payload] else []) ∧
  (∀ x, delivered x (log_of (step (IceCandidate "A" (JArr []) payload) two_in_room)) =
        if connected two_in_room x then [EvIceCandidate "A" payload] else []) ∧
  delivered "A" (log_of (step (Offer "A" (JArr []) payload) two_in_room)) =
    [EvOffer "A" payload].
Proof.
  intros payload.
  assert (Hc : connected two_in_room "A" = true) by reflexivity.
  assert (Hp : js_truthy payload = true) by reflexivity.
  exact (conj Hc (conj Hp (relay_to_empty_array_is_broadcast "A" payload two_in_room Hc Hp))).
Defined.

(** ** Rooms named by what objects inherit *)

Lemma rooms_lookup_inherited_name s k :
  k ∈ object_prototype_names → is_Some (rooms s !! k).
Proof.
  intros Hk. rewrite rooms_lookup. destruct (rooms_own s !! k); [eauto|].
  rewrite decide_True by done. eauto.
Qed.

Lemma no_record_at_inherited_join socket r now s :
  no_record_at_inherited s → no_record_at_inherited (join_state socket r now s).
Proof.
  intros Hinv k Hk.
  destruct (rooms_own (join_state socket r now s) !! k) as [rs|] eqn:Hrs; [|done].
  exfalso. assert (is_Some (rooms_own (join_state socket r now s) !! k)) as Hsome by eauto.
  clear Hrs. unfold join_state in Hsome.
  assert (Hbefore : ¬ is_Some (rooms_own
            (match rooms s !! r with
             | Some _ => adapter_add socket r s
             | None => store_room r default_room (adapter_add socket r s)
             end) !! k)).
  { destruct (rooms s !! r) as [rs'|] eqn:Hr.
    - cbn [rooms_own adapter_add]. rewrite (Hinv k Hk). by intros [? ?].
    - cbn [rooms_own store_room adapter_add]. rewrite lookup_insert_ne.
      + rewrite (Hinv k Hk). by intros [? ?].
      + intros ->. destruct (rooms_lookup_inherited_name s k Hk) as [? H].
        congruence. }
  destruct (join_fires socket r s); [|done].
  by apply write_startedAt_own_dom in Hsome.
Qed.

Lemma no_record_at_inherited_step i s :
  registry_ok s → no_record_at_inherited s →
  no_record_at_inherited (state_of (step i s)).
Proof.
  intros Hs Hinv. destruct i; try (by rewrite step_chat_relay_state).
  - unfold step. by destruct (fresh_id s socket).
  - destruct (connected s socket) eqn:Hc; [|by rewrite step_not_connected].
    rewrite (step_join _ _ _ _ Hc).
    destruct (js_truthy room && is_string room) eqn:Hroom;
      [|by rewrite on_join_invalid_room].
    apply valid_room_inv in Hroom as (r & -> & Hr).
    rewrite (on_join_computed _ _ _ _ Hr). by apply no_record_at_inherited_join.
  - destruct (connected s socket) eqn:Hc; [|by rewrite step_not_connected].
    by rewrite (step_disconnect_computed _ _ (reg_rooms _ Hs) Hc).
Qed.

Lemma no_record_at_inherited_reachable (tr : list Input) :
  no_record_at_inherited (state_of (run tr init)).
Proof.
  assert (H : ∀ tr s, registry_ok s → no_record_at_inherited s →
                      no_record_at_inherited (state_of (run tr s))).
  { clear tr. induction tr as [|i tr IH]; intros s Hs Hinv; [done|].
    rewrite run_cons. unfold state_of at 1. cbn [fst snd].
    apply IH; [by apply registry_ok_step|by apply no_record_at_inherited_step]. }
  apply H; [apply registry_ok_init|]. intros k _. apply lookup_empty.
Qed.

Lemma prototype_names_not_empty k : k ∈ object_prototype_names → k ≠ "".
Proof.
  intros H ->. apply list_elem_of_In in H. cbn in H.
  repeat (destruct H as [H|H]; [discriminate|]). done.
Qed.

(** X20: a room named by a property of [Object.prototype] never gets a
    record.  In every state the server can reach the table has no record
    under such a name, and a join to it creates none: the handler works
    on the inherited object, so that the [timer-state] event the joiner
    receives, and the [timer-start] event if there is one, carry no
    duration. *)
Theorem inherited_name_gets_no_record (tr : list Input) (k : string)
    (socket : SocketId) (now : Z) :
  k ∈ object_prototype_names →
  let s := state_of (run tr init) in
  connected s socket = true →
  let s' := state_of (step (Join socket (JStr k) now) s) in
  let log := log_of (step (Join socket (JStr k) now) s) in
  rooms_own s !! k = None ∧
  rooms_own s' !! k = None ∧
  socket ∈ members s' k ∧
  ∃ roomState,
    rooms s' !! k = Some roomState ∧
    duration roomState = None ∧
    EvTimerState (startedAt roomState) None ∈ delivered socket log ∧
    Forall carries_no_duration log.
Proof.
  intros Hk s Hc s' log. subst s' log.
  pose proof (no_record_at_inherited_reachable tr) as Hinv. fold s in Hinv.
  pose proof (prototype_names_not_empty k Hk) as Hne.
  rewrite (step_join _ _ _ _ Hc), (on_join_computed _ _ _ _ Hne).
  unfold state_of, log_of. cbn [fst snd].
  assert (Hbefore : duration (join_record_before k s) = None).
  { unfold join_record_before. rewrite rooms_lookup, (Hinv k Hk), decide_True by done.
    done. }
  assert (Hafter : duration (join_record_after socket k now s) = None).
  { unfold join_record_after. by destruct (join_fires socket k s). }
  split_and!.
  - by apply Hinv.
  - by apply no_record_at_inherited_join.
  - rewrite members_join_state, members_adapter_add, decide_True by done.
    apply elem_of_set_add. by left.
  - exists (join_record_after socket k now s). split_and!.
    + apply rooms_join_state.
    + done.
    + rewrite delivered_app, delivered_emit, Hafter.
      rewrite (decide_True (P := socket ∈ ({[socket]} : gset SocketId)))
        by (by apply elem_of_singleton).
      apply elem_of_app. right. apply list_elem_of_here.
    + apply Forall_app. split.
      * destruct (join_fires socket k s); by repeat constructor.
      * by repeat constructor.
Qed.

Lemma inherited_name_gets_no_record_witness :
  let tr := [ Connect "A" (JStr "alice"); Connect "B" JUndefined;
              Join "A" (JStr "toString") 1000 ] in
  "toString" ∈ object_prototype_names ∧
  let s := state_of (run tr init) in
  connected s "B" = true ∧
  let s' := state_of (step (Join "B" (JStr "toString") 2000) s) in
  let log := log_of (step (Join "B" (JStr "toString") 2000) s) in
  rooms_own s !! "toString" = None ∧
  rooms_own s' !! "toString" = None ∧
  "B" ∈ members s' "toString" ∧
  ∃ roomState,
    rooms s' !! "toString" = Some roomState ∧
    duration roomState = None ∧
    EvTimerState (startedAt roomState) None ∈ delivered "B" log ∧
    Forall carries_no_duration log.
Proof.
  intros tr.
  assert (Hk : "toString" ∈ object_prototype_names)
    by (apply list_elem_of_In; cbn; tauto).
  split; [exact Hk|]. intros s.
  assert (Hc : connected s "B" = true) by reflexivity.
  exact (conj Hc (inherited_name_gets_no_record tr "toString" "B" 2000 Hk Hc)).
Defined.

(** What is written on [Object.prototype] shows on every inherited
    object and under the name [startedAt]: once two connections are in
    the room [__proto__], a connection that joins [toString] or
    [startedAt] alone is told the time stamp of that room, and no record
    is created for [startedAt]. *)
Example stamp_written_on_the_prototype :
  let s := state_of (run [ Connect "A" (JStr "alice"); Connect "B" JUndefined;
                           Join "A" (JStr "__proto__") 1000;
                           Join "B" (JStr "__proto__") 2000 ] init) in
  delivered "A" (log_of (step (Join "A" (JStr "toString") 3000) s)) =
    [ EvTimerState (Some 2000%Z) None; EvParticipants [("A", "alice")] ] ∧
  delivered "A" (log_of (step (Join "A" (JStr "startedAt") 3000) s)) =
    [ EvTimerState (Some 2000%Z) None; EvParticipants [("A", "alice")] ] ∧
  rooms_own (state_of (step (Join "A" (JStr "startedAt") 3000) s)) !! "startedAt" = None ∧
  delivered "A" (log_of (step (Join "A" (JStr "r1") 3000) s)) =
    [ EvTimerState None (Some 60%Z); EvParticipants [("A", "alice")] ].
Proof. vm_compute. done. Qed.

(** ** The values of the wire, checked on examples *)

(** The white space [trim] takes away, among the code units below 256. *)
Example trim_white_space :
  filter (λ n, is_white_space (Ascii.ascii_of_nat n) = true) (seq 0 256) =
  [9; 10; 11; 12; 13; 32; 160]%nat ∧
  trim (String (Ascii.ascii_of_nat 9) (String (Ascii.ascii_of_nat 160) "a b")) = "a b".
Proof. vm_compute. split; reflexivity. Qed.

(** [String(n)]: the digits below [2^53]; the shortest digits that read
    as the same double, followed by zeros, below [1e21]; the exponent
    form from there. *)
Example number_to_string_examples :
  number_to_string <$>
    [ 0; 5; -5; 9007199254740992; 9007199254740993; 12345678901234567890;
      18446744073709551616; 100000000000000000000; 1000000000000000000000;
      999999999999999999999; -1000000000000000000000;
      123456789012345678901234567890 ]%Z =
  [ "0"; "5"; "-5"; "9007199254740992"; "9007199254740992"; "12345678901234567000";
    "18446744073709552000"; "100000000000000000000"; "1e+21";
    "1e+21"; "-1e+21";
    "1.2345678901234568e+29" ].
Proof. vm_compute. reflexivity. Qed.
